(** * The background recompilation coordinator (optimizing-compiler-thread.cc)

    A shallow embedding of [OptimizingCompilerThread]: the worker loop [Run],
    the compile step [CompileNext], the shutdown handshake [Stop], the
    installer [InstallOptimizedFunctions] and the producer entry point
    [QueueForOptimization].

    Shared memory is a record [State]; every function of the class is a
    function on it that returns an [Outcome].  The worker thread is a
    program counter [WorkerPc] over the shared-memory operations of [Run]
    and [CompileNext], one operation per step.  Memory is sequentially
    consistent.

    The two threads are put together twice.  In [step] and [run] the
    execution thread issues whole calls, each taken as one step, except
    [Stop], which is cut at the wait on the stop semaphore: that is what
    a call does when the worker does not move during it.  In [op_step] and
    [op_run] the calls of the execution thread are cut at their
    shared-memory operations as well ([CallPc]), so that the worker can
    move between any two operations of a call; what is said of a call
    that the worker may interleave, and of the states inside a call, is
    said there.

    The calls into the collaborators ([OptimizeGraph],
    [InstallOptimizedCode], the relocation lock) and the queue and record
    operations are also written to a trace, in the order they happen.

    Not represented: [OS::Ticks], the timing counters and the logger
    (diagnostics only), [OS::Sleep] (time has no effect on the shared
    state) and [SetIsolateThreadLocals].  The debug-only thread-identity
    checks [ASSERT(!IsOptimizerThread())] are set apart ([ThreadCheck]):
    in the two-thread models [Stop], [InstallOptimizedFunctions] and
    [QueueForOptimization] are issued by the execution thread only. *)

From Stdlib Require Import List ZArith Lia Bool Arith.
Import ListNotations.

(** ** Outcomes *)

(** [Abort]: a failed debug assertion ends the process.  [Stuck]: the
    calling thread waits for something that is not there (a semaphore
    with count zero, a dequeue from an empty queue).  [Timeout]: a
    bounded loop of the model ran out of fuel; the theorems show that
    this never happens with the fuel the model supplies. *)
Inductive Outcome (A : Type) : Type :=
| Done (a : A)
| Abort
| Stuck
| Timeout.

Arguments Done {A} a.
Arguments Abort {A}.
Arguments Stuck {A}.
Arguments Timeout {A}.

Definition bind {A B : Type} (m : Outcome A) (k : A -> Outcome B) : Outcome B :=
  match m with
  | Done a => k a
  | Abort => Abort
  | Stuck => Stuck
  | Timeout => Timeout
  end.

Definition omap {A B : Type} (f : A -> B) (m : Outcome A) : Outcome B :=
  bind m (fun a => Done (f a)).

Notation "x <- m ;; k" := (bind m (fun x => k))
  (at level 61, m at next level, right associativity).
Notation "' p <- m ;; k" := (bind m (fun x => let p := x in k))
  (at level 61, p pattern, m at next level, right associativity).

(** ** Atomic32 *)

Definition Atomic32_MAX : Z := 2 ^ 31 - 1.
Definition Atomic32_MIN : Z := - 2 ^ 31.

(** Two's complement wrap-around of a 32-bit signed integer. *)
Definition wrap32 (z : Z) : Z := ((z + 2 ^ 31) mod 2 ^ 32 - 2 ^ 31)%Z.

(** Modelled from the spec: the atomic operations are declared in a header
    that is not among the sources; the pending count is an atomic 32-bit
    signed integer, incremented and read as a whole. *)
Definition Barrier_AtomicIncrement (v delta : Z) : Z := wrap32 (v + delta).

Definition NoBarrier_Load (v : Z) : Z := v.

(** ** Jobs and function records *)

(** Modelled from the spec: the enumeration [OptimizingCompiler::Status] is
    declared in a header that is not among the sources.  The code names
    [FAILED]; the spec names [OK] for the outcome of a vetted job. *)
Inductive Status : Type := FAILED | OK.

Definition Status_eqb (a b : Status) : bool :=
  match a, b with
  | FAILED, FAILED => true
  | OK, OK => true
  | _, _ => false
  end.

(** A function record is addressed by its handle. *)
Definition Closure : Type := nat.

(** The job object: [closure] stands for [info()->closure()], and
    [OptimizeGraph] for the status that the opaque compile step returns
    for this job. *)
Record OptimizingCompiler : Type := {
  closure : Closure;
  OptimizeGraph : Status
}.

(** ** Calls and shared-memory operations, in the order they happen *)

(** Modelled from the spec: [Heap::RelocationLock] is not among the
    sources; it is held for the duration of the compile step, and nothing
    else in this unit takes it, so taking and releasing it are events of
    the trace only. *)
Inductive Event : Type :=
| EvRelocationLock
| EvRelocationUnlock
| EvInputEnqueue (j : OptimizingCompiler)
| EvInputDequeue (j : OptimizingCompiler)
| EvOptimizeGraph (j : OptimizingCompiler)
| EvOutputEnqueue (j : OptimizingCompiler)
| EvMarkForInstalling (j : OptimizingCompiler)
| EvOutputDequeue (j : OptimizingCompiler)
| EvInstallOptimizedCode (j : OptimizingCompiler).

(** ** Shared state *)

(** Modelled from the spec: [Semaphore] and the function record are not
    among the sources.  A semaphore is a count of signals: [Signal] adds
    one, [Wait] takes one and blocks while there is none.
    [in_recompile_queue c] is [closure->IsInRecompileQueue()] of the
    function record [c]: the one bit that the two threads share. *)
Record State : Type := {
  input_queue : list OptimizingCompiler;
  output_queue : list OptimizingCompiler;
  queue_length : Z;
  input_queue_semaphore : nat;
  stop_semaphore : nat;
  stop_thread : bool;
  in_recompile_queue : Closure -> bool;
  trace : list Event
}.

Definition set_input_queue (q : list OptimizingCompiler) (s : State) : State :=
  {| input_queue := q; output_queue := output_queue s;
     queue_length := queue_length s;
     input_queue_semaphore := input_queue_semaphore s;
     stop_semaphore := stop_semaphore s; stop_thread := stop_thread s;
     in_recompile_queue := in_recompile_queue s; trace := trace s |}.

Definition set_output_queue (q : list OptimizingCompiler) (s : State) : State :=
  {| input_queue := input_queue s; output_queue := q;
     queue_length := queue_length s;
     input_queue_semaphore := input_queue_semaphore s;
     stop_semaphore := stop_semaphore s; stop_thread := stop_thread s;
     in_recompile_queue := in_recompile_queue s; trace := trace s |}.

Definition set_queue_length (n : Z) (s : State) : State :=
  {| input_queue := input_queue s; output_queue := output_queue s;
     queue_length := n;
     input_queue_semaphore := input_queue_semaphore s;
     stop_semaphore := stop_semaphore s; stop_thread := stop_thread s;
     in_recompile_queue := in_recompile_queue s; trace := trace s |}.

Definition set_input_queue_semaphore (n : nat) (s : State) : State :=
  {| input_queue := input_queue s; output_queue := output_queue s;
     queue_length := queue_length s;
     input_queue_semaphore := n;
     stop_semaphore := stop_semaphore s; stop_thread := stop_thread s;
     in_recompile_queue := in_recompile_queue s; trace := trace s |}.

Definition set_stop_semaphore (n : nat) (s : State) : State :=
  {| input_queue := input_queue s; output_queue := output_queue s;
     queue_length := queue_length s;
     input_queue_semaphore := input_queue_semaphore s;
     stop_semaphore := n; stop_thread := stop_thread s;
     in_recompile_queue := in_recompile_queue s; trace := trace s |}.

Definition set_stop_thread (b : bool) (s : State) : State :=
  {| input_queue := input_queue s; output_queue := output_queue s;
     queue_length := queue_length s;
     input_queue_semaphore := input_queue_semaphore s;
     stop_semaphore := stop_semaphore s; stop_thread := b;
     in_recompile_queue := in_recompile_queue s; trace := trace s |}.

Definition set_in_recompile_queue (c : Closure) (b : bool) (s : State) : State :=
  {| input_queue := input_queue s; output_queue := output_queue s;
     queue_length := queue_length s;
     input_queue_semaphore := input_queue_semaphore s;
     stop_semaphore := stop_semaphore s; stop_thread := stop_thread s;
     in_recompile_queue :=
       (fun c' => if Nat.eqb c' c then b else in_recompile_queue s c');
     trace := trace s |}.

Definition record (e : Event) (s : State) : State :=
  {| input_queue := input_queue s; output_queue := output_queue s;
     queue_length := queue_length s;
     input_queue_semaphore := input_queue_semaphore s;
     stop_semaphore := stop_semaphore s; stop_thread := stop_thread s;
     in_recompile_queue := in_recompile_queue s;
     trace := trace s ++ [e] |}.

(** ** Build and flags *)

(** [DEBUG] is the build mode: [ASSERT] checks its condition in a debug
    build and is empty in a release build.  [IsQueueAvailable] is declared
    in the class header, which is not among the sources; it is taken as a
    parameter. *)
Record Config : Type := {
  DEBUG : bool;
  FLAG_parallel_recompilation_delay : Z;
  IsQueueAvailable : State -> bool
}.

(** Modelled from the spec: the macro [ASSERT] is not among the sources;
    its checks are debug-only, and a failed check ends the process. *)
Definition ASSERT (cfg : Config) (cond : bool) : Outcome unit :=
  if DEBUG cfg then (if cond then Done tt else Abort) else Done tt.

(** ** Function record operations *)

Definition IsInRecompileQueue (s : State) (j : OptimizingCompiler) : bool :=
  in_recompile_queue s (closure j).

(** Modelled from the spec: [JSFunction::MarkForInstallingRecompiledCode] is
    not among the sources; it flips the eligibility bit of the function
    record from "pending" to "ready". *)
Definition MarkForInstallingRecompiledCode (j : OptimizingCompiler) (s : State) : State :=
  record (EvMarkForInstalling j) (set_in_recompile_queue (closure j) false s).

(** Modelled from the spec: [Compiler::InstallOptimizedCode] is not among the
    sources; it installs the artifact and, as a side effect, makes the
    function record no longer report being queued. *)
Definition InstallOptimizedCode (j : OptimizingCompiler) (s : State) : State :=
  record (EvInstallOptimizedCode j) (set_in_recompile_queue (closure j) false s).

(** ** Queues *)

(** Modelled from the spec: [UnboundQueue] is not among the sources; both
    queues are FIFO, [Enqueue] appends, [Dequeue] removes the front item,
    [Peek] reads it, and a dequeue has nothing to return on an empty
    queue. *)
Definition input_queue_Enqueue (j : OptimizingCompiler) (s : State) : State :=
  record (EvInputEnqueue j) (set_input_queue (input_queue s ++ [j]) s).

Definition input_queue_Dequeue (s : State) : Outcome (OptimizingCompiler * State) :=
  match input_queue s with
  | [] => Stuck
  | j :: rest => Done (j, record (EvInputDequeue j) (set_input_queue rest s))
  end.

Definition output_queue_Enqueue (j : OptimizingCompiler) (s : State) : State :=
  record (EvOutputEnqueue j) (set_output_queue (output_queue s ++ [j]) s).

Definition output_queue_IsEmpty (s : State) : bool :=
  match output_queue s with [] => true | _ :: _ => false end.

Definition output_queue_Peek (s : State) : Outcome OptimizingCompiler :=
  match output_queue s with
  | [] => Stuck
  | j :: _ => Done j
  end.

Definition output_queue_Dequeue (s : State) : Outcome (OptimizingCompiler * State) :=
  match output_queue s with
  | [] => Stuck
  | j :: rest => Done (j, record (EvOutputDequeue j) (set_output_queue rest s))
  end.

(** ** CompileNext *)

(** The body of [CompileNext] is cut at its shared-memory operations, so
    that the worker thread can be interleaved with the execution thread
    between any two of them. *)

(** Lines 79-81: take the relocation lock, dequeue one job. *)
Definition CompileNext_dequeue (s : State) : Outcome (OptimizingCompiler * State) :=
  input_queue_Dequeue (record EvRelocationLock s).

(** Line 82. *)
Definition CompileNext_decrement (s : State) : State :=
  set_queue_length (Barrier_AtomicIncrement (queue_length s) (-1)) s.

(** Lines 84-89: the opaque compile step between two assertions. *)
Definition CompileNext_optimize (cfg : Config) (j : OptimizingCompiler) (s : State)
  : Outcome State :=
  _ <- ASSERT cfg (IsInRecompileQueue s j) ;;
  let status := OptimizeGraph j in
  let s1 := record (EvOptimizeGraph j) s in
  _ <- ASSERT cfg (negb (Status_eqb status FAILED)) ;;
  Done s1.

(** Line 91. *)
Definition CompileNext_enqueue (j : OptimizingCompiler) (s : State) : State :=
  output_queue_Enqueue j s.

(** Lines 98-102: flip the bit; the relocation lock ends with the scope. *)
Definition CompileNext_mark (cfg : Config) (j : OptimizingCompiler) (s : State)
  : Outcome State :=
  _ <- ASSERT cfg (IsInRecompileQueue s j) ;;
  Done (record EvRelocationUnlock (MarkForInstallingRecompiledCode j s)).

Definition CompileNext (cfg : Config) (s : State) : Outcome State :=
  ' (optimizing_compiler, s1) <- CompileNext_dequeue s ;;
  let s2 := CompileNext_decrement s1 in
  s3 <- CompileNext_optimize cfg optimizing_compiler s2 ;;
  let s4 := CompileNext_enqueue optimizing_compiler s3 in
  CompileNext_mark cfg optimizing_compiler s4.

(** ** InstallOptimizedFunctions *)

Inductive LoopStep (A : Type) : Type :=
| Break (a : A)
| Continue (a : A).

Arguments Break {A} a.
Arguments Continue {A} a.

(** One pass through the body of the loop, entered with a non-empty output
    queue; the second component is [functions_installed]. *)
Definition InstallOptimizedFunctions_body (cfg : Config) (s : State) (functions_installed : nat)
  : Outcome (LoopStep (State * nat)) :=
  compiler <- output_queue_Peek s ;;
  if IsInRecompileQueue s compiler then Done (Break (s, functions_installed))
  else
    ' (compiler, s1) <- output_queue_Dequeue s ;;
    let s2 := InstallOptimizedCode compiler s1 in
    _ <- ASSERT cfg (negb (IsInRecompileQueue s2 compiler)) ;;
    Done (Continue (s2, S functions_installed)).

Fixpoint InstallOptimizedFunctions_loop (cfg : Config) (fuel : nat) (s : State)
  (functions_installed : nat) : Outcome (State * nat) :=
  if output_queue_IsEmpty s then Done (s, functions_installed)
  else
    match fuel with
    | O => Timeout
    | S fuel' =>
        r <- InstallOptimizedFunctions_body cfg s functions_installed ;;
        match r with
        | Break sn => Done sn
        | Continue (s', n') => InstallOptimizedFunctions_loop cfg fuel' s' n'
        end
    end.

(** The loop is given as many iterations as the output queue is long at
    entry: this is the call with the worker standing still.  The call with
    the worker moving is the run of [Call_step] from [C_InstallTest]. *)
Definition InstallOptimizedFunctions (cfg : Config) (s : State) : Outcome State :=
  omap fst (InstallOptimizedFunctions_loop cfg (length (output_queue s)) s 0).

(** ** QueueForOptimization *)

Definition QueueForOptimization (cfg : Config) (optimizing_compiler : OptimizingCompiler)
  (s : State) : Outcome State :=
  _ <- ASSERT cfg (IsQueueAvailable cfg s) ;;
  let s1 := set_queue_length (Barrier_AtomicIncrement (queue_length s) 1) s in
  let s2 := input_queue_Enqueue optimizing_compiler s1 in
  Done (set_input_queue_semaphore (S (input_queue_semaphore s2)) s2).

(** ** Stop *)

(** Lines 107-108: store the flag, signal the input semaphore.  The caller
    then blocks in [stop_semaphore_->Wait()]. *)
Definition Stop_signal (s : State) : State :=
  let s1 := set_stop_thread true s in
  set_input_queue_semaphore (S (input_queue_semaphore s1)) s1.

(** Lines 119-122, with the pending count as fuel. *)
Fixpoint Stop_drain (cfg : Config) (fuel : nat) (s : State) : Outcome State :=
  if (NoBarrier_Load (queue_length s) >? 0)%Z then
    match fuel with
    | O => Timeout
    | S fuel' =>
        s1 <- CompileNext cfg s ;;
        s2 <- InstallOptimizedFunctions cfg s1 ;;
        Stop_drain cfg fuel' s2
    end
  else Done s.

(** Lines 109-123: return from the wait, then the fallback when the
    diagnostic delay is on. *)
Definition Stop_resume (cfg : Config) (s : State) : Outcome State :=
  match stop_semaphore s with
  | O => Stuck
  | S n =>
      let s1 := set_stop_semaphore n s in
      if (FLAG_parallel_recompilation_delay cfg =? 0)%Z then Done s1
      else
        s2 <- InstallOptimizedFunctions cfg s1 ;;
        Stop_drain cfg (Z.to_nat (queue_length s2)) s2
  end.

(** ** The worker thread: Run *)

(** Where the worker stands between two shared-memory operations.  A job
    held in the local [optimizing_compiler] travels with the counter. *)
Inductive WorkerPc : Type :=
| W_Wait                                (* line 50, before the wait *)
| W_Check                               (* lines 51-58, woken, before the load *)
| W_SignalStop                          (* line 59 *)
| W_Dequeue                             (* lines 69, 79-81 *)
| W_Decrement (j : OptimizingCompiler)  (* line 82 *)
| W_Optimize (j : OptimizingCompiler)   (* lines 84-89 *)
| W_Enqueue (j : OptimizingCompiler)    (* line 91 *)
| W_Mark (j : OptimizingCompiler)       (* lines 98-102 *)
| W_Stopped.                            (* line 63 *)

Definition Run_step (cfg : Config) (pc : WorkerPc) (s : State)
  : Outcome (WorkerPc * State) :=
  match pc with
  | W_Wait =>
      match input_queue_semaphore s with
      | O => Stuck
      | S n => Done (W_Check, set_input_queue_semaphore n s)
      end
  | W_Check =>
      if stop_thread s then Done (W_SignalStop, s) else Done (W_Dequeue, s)
  | W_SignalStop =>
      Done (W_Stopped, set_stop_semaphore (S (stop_semaphore s)) s)
  | W_Dequeue =>
      ' (j, s1) <- CompileNext_dequeue s ;; Done (W_Decrement j, s1)
  | W_Decrement j => Done (W_Optimize j, CompileNext_decrement s)
  | W_Optimize j =>
      s1 <- CompileNext_optimize cfg j s ;; Done (W_Enqueue j, s1)
  | W_Enqueue j => Done (W_Mark j, CompileNext_enqueue j s)
  | W_Mark j => s1 <- CompileNext_mark cfg j s ;; Done (W_Wait, s1)
  | W_Stopped => Stuck
  end.

(** ** The two threads together *)

(** The execution thread is either free to issue calls, or blocked inside
    [Stop] on the stop semaphore, or back from [Stop]. *)
Inductive ExecPc : Type := E_Running | E_StopWait | E_Returned.

Record System : Type := {
  mem : State;
  worker : WorkerPc;
  exec : ExecPc
}.

Inductive Action : Type :=
| A_Queue (j : OptimizingCompiler)   (* QueueForOptimization(j) *)
| A_Install                          (* InstallOptimizedFunctions() *)
| A_Worker                           (* one operation of the worker *)
| A_StopSignal                       (* Stop(), up to the wait *)
| A_StopResume.                      (* Stop(), from the wait on *)

Definition step (cfg : Config) (a : Action) (sys : System) : Outcome System :=
  match a with
  | A_Worker =>
      ' (pc, s) <- Run_step cfg (worker sys) (mem sys) ;;
      Done {| mem := s; worker := pc; exec := exec sys |}
  | A_Queue j =>
      match exec sys with
      | E_Running =>
          s <- QueueForOptimization cfg j (mem sys) ;;
          Done {| mem := s; worker := worker sys; exec := E_Running |}
      | _ => Stuck
      end
  | A_Install =>
      match exec sys with
      | E_Running =>
          s <- InstallOptimizedFunctions cfg (mem sys) ;;
          Done {| mem := s; worker := worker sys; exec := E_Running |}
      | _ => Stuck
      end
  | A_StopSignal =>
      match exec sys with
      | E_Running =>
          Done {| mem := Stop_signal (mem sys); worker := worker sys;
                  exec := E_StopWait |}
      | _ => Stuck
      end
  | A_StopResume =>
      match exec sys with
      | E_StopWait =>
          s <- Stop_resume cfg (mem sys) ;;
          Done {| mem := s; worker := worker sys; exec := E_Returned |}
      | _ => Stuck
      end
  end.

Fixpoint run (cfg : Config) (sched : list Action) (sys : System) : Outcome System :=
  match sched with
  | [] => Done sys
  | a :: rest => sys' <- step cfg a sys ;; run cfg rest sys'
  end.

(** Modelled from the spec: the constructor is in the class header, which
    is not among the sources.  Nothing is queued, nothing is published, no
    signal is pending, the flag is unset and the worker is about to wait;
    the function records are as the caller left them. *)
Definition init (records : Closure -> bool) : System :=
  {| mem := {| input_queue := []; output_queue := []; queue_length := 0;
               input_queue_semaphore := 0; stop_semaphore := 0;
               stop_thread := false; in_recompile_queue := records;
               trace := [] |};
     worker := W_Wait; exec := E_Running |}.

(** The worker on its own, until it has left its loop. *)
Fixpoint Run (cfg : Config) (fuel : nat) (sys : System) : Outcome System :=
  match worker sys with
  | W_Stopped => Done sys
  | _ =>
      match fuel with
      | O => Timeout
      | S fuel' => sys' <- step cfg A_Worker sys ;; Run cfg fuel' sys'
      end
  end.

(** A whole call of [Stop]: while the execution thread is blocked in the
    wait only the worker moves.  From any position the worker needs at
    most five operations to finish an iteration and three more to wake,
    see the flag and acknowledge. *)
Definition Stop_fuel : nat := 8.

Definition Stop (cfg : Config) (sys : System) : Outcome System :=
  sys1 <- step cfg A_StopSignal sys ;;
  sys2 <- Run cfg Stop_fuel sys1 ;;
  step cfg A_StopResume sys2.

(** ** What the trace tells *)

Definition queued_job (e : Event) : list OptimizingCompiler :=
  match e with EvInputEnqueue j => [j] | _ => [] end.

Definition compiled_job (e : Event) : list OptimizingCompiler :=
  match e with EvOptimizeGraph j => [j] | _ => [] end.

Definition installed_job (e : Event) : list OptimizingCompiler :=
  match e with EvInstallOptimizedCode j => [j] | _ => [] end.

(** Jobs handed to [QueueForOptimization], to [OptimizeGraph] and to
    [InstallOptimizedCode], each in the order of the calls. *)
Definition queued (s : State) : list OptimizingCompiler := flat_map queued_job (trace s).
Definition compiled (s : State) : list OptimizingCompiler := flat_map compiled_job (trace s).
Definition installed (s : State) : list OptimizingCompiler := flat_map installed_job (trace s).

(** The function record of a job in the output queue reads "ready". *)
Definition eligible (s : State) (j : OptimizingCompiler) : bool :=
  negb (IsInRecompileQueue s j).

Fixpoint takeWhile {A : Type} (p : A -> bool) (l : list A) : list A :=
  match l with
  | [] => []
  | x :: r => if p x then x :: takeWhile p r else []
  end.

Fixpoint dropWhile {A : Type} (p : A -> bool) (l : list A) : list A :=
  match l with
  | [] => []
  | x :: r => if p x then dropWhile p r else l
  end.

(** What one call of the installer adds to the trace for the jobs it
    takes. *)
Definition install_events (l : list OptimizingCompiler) : list Event :=
  flat_map (fun j => [EvOutputDequeue j; EvInstallOptimizedCode j]) l.

(** The fields that the installer never writes. *)
Definition same_control (s s' : State) : Prop :=
  input_queue s' = input_queue s /\
  queue_length s' = queue_length s /\
  input_queue_semaphore s' = input_queue_semaphore s /\
  stop_semaphore s' = stop_semaphore s /\
  stop_thread s' = stop_thread s.

Definition same_records (s s' : State) : Prop :=
  forall c, in_recompile_queue s' c = in_recompile_queue s c.

(** The output queue is empty, or its front job is still pending. *)
Definition nothing_eligible (s : State) : bool :=
  match output_queue s with
  | [] => true
  | j :: _ => IsInRecompileQueue s j
  end.

(** The state after the jobs [l] have been taken from the front of the
output queue and installed, one after the other. *)
Fixpoint drained (s : State) (l : list OptimizingCompiler) : State :=
  match l with
  | [] => s
  | j :: r =>
      drained (InstallOptimizedCode j
                 (record (EvOutputDequeue j)
                    (set_output_queue (tl (output_queue s)) s))) r
  end.

(** ** Closed forms of the successful runs *)

(** The state in which [CompileNext] returns after having taken [j] from the
    front of the input queue, whose rest is [rest]. *)
Definition CompileNext_done (j : OptimizingCompiler) (rest : list OptimizingCompiler)
  (s : State) : State :=
  record EvRelocationUnlock
    (MarkForInstallingRecompiledCode j
       (CompileNext_enqueue j
          (record (EvOptimizeGraph j)
             (CompileNext_decrement
                (record (EvInputDequeue j)
                   (set_input_queue rest (record EvRelocationLock s))))))).

(** What the three assertions of [CompileNext] ask of the job it takes; a
    release build asks nothing. *)
Definition CompileNext_asserts (cfg : Config) (s : State) (j : OptimizingCompiler) : bool :=
  negb (DEBUG cfg) ||
  (IsInRecompileQueue s j && negb (Status_eqb (OptimizeGraph j) FAILED)).

(** The state in which [QueueForOptimization] returns. *)
Definition QueueForOptimization_done (j : OptimizingCompiler) (s : State) : State :=
  let s2 := input_queue_Enqueue j
              (set_queue_length (Barrier_AtomicIncrement (queue_length s) 1) s) in
  set_input_queue_semaphore (S (input_queue_semaphore s2)) s2.

(** ** Concrete builds and states *)

(** A release build, a debug build; the diagnostic delay off, on. *)
Definition release_build : Config :=
  {| DEBUG := false; FLAG_parallel_recompilation_delay := 0;
     IsQueueAvailable := fun _ => true |}.

Definition debug_build : Config :=
  {| DEBUG := true; FLAG_parallel_recompilation_delay := 0;
     IsQueueAvailable := fun _ => true |}.

Definition release_build_delay : Config :=
  {| DEBUG := false; FLAG_parallel_recompilation_delay := 50;
     IsQueueAvailable := fun _ => true |}.

Definition debug_build_delay : Config :=
  {| DEBUG := true; FLAG_parallel_recompilation_delay := 50;
     IsQueueAvailable := fun _ => true |}.

(** One job whose compile step fails is queued; its function record reads
    "pending". *)
Definition failing_job : OptimizingCompiler := {| closure := 7; OptimizeGraph := FAILED |}.

Definition failing_state : State :=
  {| input_queue := [failing_job]; output_queue := []; queue_length := 1;
     input_queue_semaphore := 0; stop_semaphore := 0; stop_thread := false;
     in_recompile_queue := (fun _ => true); trace := [EvInputEnqueue failing_job] |}.

(** ** Reading the worker's position *)

(** A job the worker has dequeued and not yet published. *)
Definition held (pc : WorkerPc) : list OptimizingCompiler :=
  match pc with
  | W_Decrement j | W_Optimize j | W_Enqueue j => [j]
  | _ => []
  end.

(** A job the worker has compiled and not yet published. *)
Definition held_compiled (pc : WorkerPc) : list OptimizingCompiler :=
  match pc with
  | W_Enqueue j => [j]
  | _ => []
  end.

(** A job the worker has published and not yet marked. *)
Definition unflipped (pc : WorkerPc) : option OptimizingCompiler :=
  match pc with
  | W_Mark j => Some j
  | _ => None
  end.

(** A job the worker has dequeued and not yet marked. *)
Definition in_flight (pc : WorkerPc) : list OptimizingCompiler :=
  match pc with
  | W_Decrement j | W_Optimize j | W_Enqueue j | W_Mark j => [j]
  | _ => []
  end.

(** One, between the dequeue and the decrement. *)
Definition uncounted (pc : WorkerPc) : Z :=
  match pc with
  | W_Decrement _ => 1%Z
  | _ => 0%Z
  end.

(** One, when the worker has taken a signal from the input semaphore that
    it has not matched with a dequeue. *)
Definition token (pc : WorkerPc) : nat :=
  match pc with
  | W_Check | W_Dequeue | W_SignalStop | W_Stopped => 1
  | _ => 0
  end.

Definition stop_signalled (e : ExecPc) : nat :=
  match e with
  | E_Running => 0
  | _ => 1
  end.

Definition acknowledged (pc : WorkerPc) (e : ExecPc) : nat :=
  match pc, e with
  | W_Stopped, E_Returned => 0
  | W_Stopped, _ => 1
  | _, _ => 0
  end.

(** ** Publish, then flip: a monitor on the trace *)

Definition OptimizingCompiler_eqb (a b : OptimizingCompiler) : bool :=
  Nat.eqb (closure a) (closure b) && Status_eqb (OptimizeGraph a) (OptimizeGraph b).

(** The monitor remembers the job that has been published and not yet
    flipped.  It rejects ([None]) a flip of a job other than the one just
    published, a flip with nothing published, and a second publication
    before the flip of the first. *)
Definition publish_flip_step (st : option (option OptimizingCompiler)) (e : Event)
  : option (option OptimizingCompiler) :=
  match st with
  | None => None
  | Some published =>
      match e with
      | EvOutputEnqueue j =>
          match published with
          | None => Some (Some j)
          | Some _ => None
          end
      | EvMarkForInstalling j =>
          match published with
          | Some k => if OptimizingCompiler_eqb j k then Some None else None
          | None => None
          end
      | _ => Some published
      end
  end.

Definition published_unflipped (tr : list Event) : option (option OptimizingCompiler) :=
  fold_left publish_flip_step tr (Some None).

Definition publish_then_flip (tr : list Event) : bool :=
  match published_unflipped tr with
  | Some _ => true
  | None => false
  end.

(** An event that is neither a publication nor a flip. *)
Definition quiet (e : Event) : Prop :=
  match e with
  | EvOutputEnqueue _ | EvMarkForInstalling _ => False
  | _ => True
  end.

(** ** The caller's obligations *)

(** Before it queues a job the caller has vetted it: the compile step will
    not fail on it, its function record reads "pending", and no job that is
    still on its way to the output queue is for the same function.  Only
    the assertions of a debug build ever look at this. *)
Definition vetted_call (m : State) (pending : list OptimizingCompiler)
  (j : OptimizingCompiler) : bool :=
  IsInRecompileQueue m j &&
  negb (Status_eqb (OptimizeGraph j) FAILED) &&
  negb (existsb (fun k => Nat.eqb (closure k) (closure j)) pending).

Definition call_ok (cfg : Config) (a : Action) (sys : System) : bool :=
  match a with
  | A_Queue j =>
      negb (DEBUG cfg) ||
      vetted_call (mem sys) (in_flight (worker sys) ++ input_queue (mem sys)) j
  | _ => true
  end.

Fixpoint admissible (cfg : Config) (sched : list Action) (sys : System) : bool :=
  match sched with
  | [] => true
  | a :: rest =>
      call_ok cfg a sys &&
      match step cfg a sys with
      | Done sys' => admissible cfg rest sys'
      | _ => true
      end
  end.

(** ** Invariants *)

Definition Vetted (m : State) (l : list OptimizingCompiler) : Prop :=
  NoDup (map closure l) /\
  Forall (fun j => IsInRecompileQueue m j = true /\ OptimizeGraph j <> FAILED) l.

(** What holds of the shared state when the worker stands at [pc]. *)
Record Core (pc : WorkerPc) (m : State) : Prop := {
  core_queued :
    queued m = installed m ++ output_queue m ++ held pc ++ input_queue m;
  core_compiled :
    compiled m = installed m ++ output_queue m ++ held_compiled pc;
  core_count :
    queue_length m =
      wrap32 (Z.of_nat (length (input_queue m)) + uncounted pc);
  core_ready :
    forall j, In j (output_queue m) ->
      IsInRecompileQueue m j = false \/
      exists k, unflipped pc = Some k /\ closure j = closure k;
  core_order :
    published_unflipped (trace m) = Some (unflipped pc)
}.

(** The stop handshake and the signals of the input semaphore. *)
Record Handshake (sys : System) : Prop := {
  hs_flag :
    stop_thread (mem sys) =
      match exec sys with E_Running => false | _ => true end;
  hs_tokens :
    exec sys <> E_Returned ->
    input_queue_semaphore (mem sys) + token (worker sys) =
      length (input_queue (mem sys)) + stop_signalled (exec sys);
  hs_dequeue :
    worker sys = W_Dequeue -> input_queue (mem sys) <> [];
  hs_alive :
    exec sys = E_Running ->
    worker sys <> W_SignalStop /\ worker sys <> W_Stopped;
  hs_ack :
    stop_semaphore (mem sys) = acknowledged (worker sys) (exec sys);
  hs_returned :
    exec sys = E_Returned -> worker sys = W_Stopped
}.

Record Inv (cfg : Config) (sys : System) : Prop := {
  inv_core : Core (worker sys) (mem sys);
  inv_handshake : Handshake sys;
  inv_vetted :
    DEBUG cfg = true ->
    Vetted (mem sys) (in_flight (worker sys) ++ input_queue (mem sys))
}.

(** ** Concrete jobs and schedules *)

Definition job_A : OptimizingCompiler := {| closure := 1; OptimizeGraph := OK |}.
Definition job_B : OptimizingCompiler := {| closure := 2; OptimizeGraph := OK |}.
Definition job_C : OptimizingCompiler := {| closure := 3; OptimizeGraph := OK |}.

(** Every function record reads "pending". *)
Definition all_pending : Closure -> bool := fun _ => true.

(** The state a schedule leads to from the initial one. *)
Definition after (cfg : Config) (sched : list Action) (records : Closure -> bool) : System :=
  match run cfg sched (init records) with
  | Done sys => sys
  | _ => init records
  end.

(** Three jobs are queued; the worker compiles the first one, the installer
    runs while the second is published and not yet marked, the worker
    marks it. *)
Definition schedule_ABC : list Action :=
  [A_Queue job_A; A_Queue job_B; A_Queue job_C] ++
  repeat A_Worker 7 ++ repeat A_Worker 6 ++ [A_Install; A_Worker].

(** One job is queued and the worker has woken and read the flag. *)
Definition schedule_in_flight : list Action :=
  [A_Queue job_A; A_Worker; A_Worker].

(** Three jobs are queued and the worker has not moved. *)
Definition schedule_queued : list Action :=
  [A_Queue job_A; A_Queue job_B; A_Queue job_C].

(** Both jobs are published; the record of the first reads "pending", the
    record of the second reads "ready". *)
Definition front_pending_state : State :=
  {| input_queue := []; output_queue := [job_A; job_B]; queue_length := 0;
     input_queue_semaphore := 0; stop_semaphore := 0; stop_thread := false;
     in_recompile_queue := (fun c => Nat.eqb c 1); trace := [] |}.

(** Three jobs are published; only the record of the second reads
    "pending". *)
Definition second_pending_state : State :=
  {| input_queue := []; output_queue := [job_A; job_B; job_C]; queue_length := 0;
     input_queue_semaphore := 0; stop_semaphore := 0; stop_thread := false;
     in_recompile_queue := (fun c => Nat.eqb c 2); trace := [] |}.

(** ** How far the worker is from having nothing to do *)

(** The worker operations that remain until the input queue is empty and
    the worker is back at its wait, when no stop is requested: seven for
    every job still queued, fewer for the job of the current iteration. *)
Definition work_left (pc : WorkerPc) (len : nat) : nat :=
  match pc with
  | W_Wait => 7 * len
  | W_Check => 7 * len - 1
  | W_Dequeue => 7 * len - 2
  | W_Decrement _ => 7 * len + 4
  | W_Optimize _ => 7 * len + 3
  | W_Enqueue _ => 7 * len + 2
  | W_Mark _ => 7 * len + 1
  | W_SignalStop | W_Stopped => 0
  end.

(** The worker operations that remain until the worker has left its loop,
    once the stop flag is set. *)
Definition stop_distance (pc : WorkerPc) : nat :=
  match pc with
  | W_Dequeue => 8
  | W_Decrement _ => 7
  | W_Optimize _ => 6
  | W_Enqueue _ => 5
  | W_Mark _ => 4
  | W_Wait => 3
  | W_Check => 2
  | W_SignalStop => 1
  | W_Stopped => 0
  end.

(** What neither the compile step nor the installer writes. *)
Definition same_signals (s s' : State) : Prop :=
  input_queue_semaphore s' = input_queue_semaphore s /\
  stop_semaphore s' = stop_semaphore s /\
  stop_thread s' = stop_thread s.

(** ** What an iteration in flight still does *)

(** The job that the iteration the worker has begun will still hand to the
    compile step: none unless the worker is past its check of the flag
    and before the compile step. *)
Definition to_compile (pc : WorkerPc) (m : State) : list OptimizingCompiler :=
  match pc with
  | W_Dequeue => firstn 1 (input_queue m)
  | W_Decrement j | W_Optimize j => [j]
  | _ => []
  end.

(** The input queue as the iteration the worker has begun will leave it. *)
Definition kept (pc : WorkerPc) (m : State) : list OptimizingCompiler :=
  match pc with
  | W_Dequeue => tl (input_queue m)
  | _ => input_queue m
  end.

(** The system right after the first half of [Stop]. *)
Definition stop_signalled_system (sys : System) : System :=
  {| mem := Stop_signal (mem sys); worker := worker sys; exec := E_StopWait |}.

(** ** The relocation lock: a monitor on the trace *)

(** The monitor remembers whether the relocation lock is held.  It rejects
    ([None]) a second acquisition while the lock is held, a release while
    it is free, and an operation of the compile step (input dequeue,
    [OptimizeGraph], output enqueue, flip) while the lock is free. *)
Definition lock_step (st : option bool) (e : Event) : option bool :=
  match st with
  | None => None
  | Some held_now =>
      match e with
      | EvRelocationLock => if held_now then None else Some true
      | EvRelocationUnlock => if held_now then Some false else None
      | EvInputDequeue _ | EvOptimizeGraph _
      | EvOutputEnqueue _ | EvMarkForInstalling _ =>
          if held_now then Some true else None
      | _ => Some held_now
      end
  end.

Definition lock_state (tr : list Event) : option bool :=
  fold_left lock_step tr (Some false).

(** The worker holds the lock from its dequeue to its flip. *)
Definition locked (pc : WorkerPc) : bool :=
  match pc with
  | W_Decrement _ | W_Optimize _ | W_Enqueue _ | W_Mark _ => true
  | _ => false
  end.

(** ** Thread identity *)

(** Lines 41-43 and 171-176.  [thread_id_] is written by [Run] in a debug
    build; [current] stands for [ThreadId::Current().ToInteger()] of the
    calling thread. *)
Record ThreadCheck : Type := {
  FLAG_parallel_recompilation : bool;
  thread_id_ : Z
}.

Definition IsOptimizerThread (tc : ThreadCheck) (current : Z) : bool :=
  if negb (FLAG_parallel_recompilation tc) then false
  else Z.eqb current (thread_id_ tc).

(** Lines 41-43: the first statement of [Run]. *)
Definition Run_prologue (cfg : Config) (current : Z) (tc : ThreadCheck) : ThreadCheck :=
  if DEBUG cfg then
    {| FLAG_parallel_recompilation := FLAG_parallel_recompilation tc;
       thread_id_ := current |}
  else tc.

(** The three entry points with their identity check, as called from the
    thread [current]. *)
Definition Stop_signal_from (cfg : Config) (tc : ThreadCheck) (current : Z)
  (s : State) : Outcome State :=
  _ <- ASSERT cfg (negb (IsOptimizerThread tc current)) ;;
  Done (Stop_signal s).

Definition InstallOptimizedFunctions_from (cfg : Config) (tc : ThreadCheck)
  (current : Z) (s : State) : Outcome State :=
  _ <- ASSERT cfg (negb (IsOptimizerThread tc current)) ;;
  InstallOptimizedFunctions cfg s.

Definition QueueForOptimization_from (cfg : Config) (tc : ThreadCheck)
  (current : Z) (optimizing_compiler : OptimizingCompiler) (s : State)
  : Outcome State :=
  _ <- ASSERT cfg (IsQueueAvailable cfg s) ;;
  _ <- ASSERT cfg (negb (IsOptimizerThread tc current)) ;;
  let s1 := set_queue_length (Barrier_AtomicIncrement (queue_length s) 1) s in
  let s2 := input_queue_Enqueue optimizing_compiler s1 in
  Done (set_input_queue_semaphore (S (input_queue_semaphore s2)) s2).

(** ** More concrete states *)

(** Two jobs are queued, the pending count is two, nothing is published. *)
Definition two_queued_state : State :=
  {| input_queue := [job_A; job_B]; output_queue := []; queue_length := 2;
     input_queue_semaphore := 2; stop_semaphore := 0; stop_thread := false;
     in_recompile_queue := all_pending;
     trace := [EvInputEnqueue job_A; EvInputEnqueue job_B] |}.

(** Three jobs are queued, then [Stop] is called and returns, the delay
    off. *)
Definition schedule_stopped : list Action :=
  schedule_queued ++ [A_StopSignal; A_Worker; A_Worker; A_Worker; A_StopResume].

(** One job is queued and the worker has published it and not yet marked
    it. *)
Definition schedule_unflipped : list Action :=
  [A_Queue job_A] ++ repeat A_Worker 6.

(** In a debug build the record of the job that the worker is about to
    publish or to mark reads "pending". *)
Definition pending_until_flip (cfg : Config) (pc : WorkerPc) (m : State) : Prop :=
  DEBUG cfg = true ->
  forall j, pc = W_Enqueue j \/ pc = W_Mark j -> IsInRecompileQueue m j = true.

(** [two_queued_state] after the fallback loop of [Stop]. *)
Definition drained_two : State :=
  match Stop_drain debug_build 2 two_queued_state with
  | Done s => s
  | _ => two_queued_state
  end.

(** ** The execution thread, one operation at a time *)

(** In [step] a call of the execution thread is one action: that is the
    call as the code runs it when the worker does not move during it.
    Here the calls of the execution thread are cut at their shared-memory
    operations as well, so that the worker can move between any two of
    them: between the increment, the enqueue and the signal of
    [QueueForOptimization], between the store and the signal of [Stop],
    and between the test, the peek, the read of the record, the dequeue,
    the installation and the assertion of every pass through the loop of
    [InstallOptimizedFunctions].  The fallback of [Stop] stays one
    operation: it runs after the wait, when the worker has left its
    loop. *)
Inductive Call : Type :=
| Call_QueueForOptimization (optimizing_compiler : OptimizingCompiler)
| Call_InstallOptimizedFunctions
| Call_Stop.

(** Where the execution thread stands: before the operation of the named
    line.  The locals [compiler] and [functions_installed] travel with the
    counter. *)
Inductive CallPc : Type :=
| C_Idle                                                    (* between two calls *)
| C_QueueIncrement (optimizing_compiler : OptimizingCompiler)   (* line 165 *)
| C_QueueEnqueue (optimizing_compiler : OptimizingCompiler)     (* line 166 *)
| C_QueueSignal (optimizing_compiler : OptimizingCompiler)      (* line 167 *)
| C_InstallTest (functions_installed : nat)                     (* line 138 *)
| C_InstallPeek (functions_installed : nat)                     (* line 139 *)
| C_InstallRead (compiler : OptimizingCompiler) (functions_installed : nat)     (* line 141 *)
| C_InstallDequeue (compiler : OptimizingCompiler) (functions_installed : nat)  (* line 146 *)
| C_InstallCode (compiler : OptimizingCompiler) (functions_installed : nat)     (* line 153 *)
| C_InstallAssert (compiler : OptimizingCompiler) (functions_installed : nat)   (* lines 155-156 *)
| C_StopStore                                                   (* line 107 *)
| C_StopSignal                                                  (* line 108 *)
| C_StopWait                                                    (* lines 109-123 *)
| C_Returned.                                                   (* [Stop] has returned *)

(** Entering a call: the assertion of line 163, the initialisation of line
    137. *)
Definition Call_begin (cfg : Config) (c : Call) (s : State) : Outcome CallPc :=
  match c with
  | Call_QueueForOptimization optimizing_compiler =>
      _ <- ASSERT cfg (IsQueueAvailable cfg s) ;;
      Done (C_QueueIncrement optimizing_compiler)
  | Call_InstallOptimizedFunctions => Done (C_InstallTest 0)
  | Call_Stop => Done C_StopStore
  end.

(** One operation of the call in progress. *)
Definition Call_step (cfg : Config) (pc : CallPc) (s : State)
  : Outcome (CallPc * State) :=
  match pc with
  | C_Idle => Stuck
  | C_QueueIncrement optimizing_compiler =>
      Done (C_QueueEnqueue optimizing_compiler,
            set_queue_length (Barrier_AtomicIncrement (queue_length s) 1) s)
  | C_QueueEnqueue optimizing_compiler =>
      Done (C_QueueSignal optimizing_compiler,
            input_queue_Enqueue optimizing_compiler s)
  | C_QueueSignal _ =>
      Done (C_Idle, set_input_queue_semaphore (S (input_queue_semaphore s)) s)
  | C_InstallTest n =>
      if output_queue_IsEmpty s then Done (C_Idle, s)
      else Done (C_InstallPeek n, s)
  | C_InstallPeek n =>
      compiler <- output_queue_Peek s ;; Done (C_InstallRead compiler n, s)
  | C_InstallRead compiler n =>
      if IsInRecompileQueue s compiler then Done (C_Idle, s)
      else Done (C_InstallDequeue compiler n, s)
  | C_InstallDequeue _ n =>
      ' (compiler, s1) <- output_queue_Dequeue s ;;
      Done (C_InstallCode compiler n, s1)
  | C_InstallCode compiler n =>
      Done (C_InstallAssert compiler n, InstallOptimizedCode compiler s)
  | C_InstallAssert compiler n =>
      _ <- ASSERT cfg (negb (IsInRecompileQueue s compiler)) ;;
      Done (C_InstallTest (S n), s)
  | C_StopStore => Done (C_StopSignal, set_stop_thread true s)
  | C_StopSignal =>
      Done (C_StopWait, set_input_queue_semaphore (S (input_queue_semaphore s)) s)
  | C_StopWait => s1 <- Stop_resume cfg s ;; Done (C_Returned, s1)
  | C_Returned => Stuck
  end.

Record Threads : Type := {
  memory : State;
  worker_at : WorkerPc;
  call_at : CallPc
}.

Inductive Operation : Type :=
| O_Worker             (* one operation of the worker *)
| O_Call (c : Call)    (* the execution thread enters a call *)
| O_Exec.              (* one operation of the call in progress *)

Definition op_step (cfg : Config) (o : Operation) (t : Threads) : Outcome Threads :=
  match o with
  | O_Worker =>
      ' (pc, s) <- Run_step cfg (worker_at t) (memory t) ;;
      Done {| memory := s; worker_at := pc; call_at := call_at t |}
  | O_Call c =>
      match call_at t with
      | C_Idle =>
          pc <- Call_begin cfg c (memory t) ;;
          Done {| memory := memory t; worker_at := worker_at t; call_at := pc |}
      | _ => Stuck
      end
  | O_Exec =>
      ' (pc, s) <- Call_step cfg (call_at t) (memory t) ;;
      Done {| memory := s; worker_at := worker_at t; call_at := pc |}
  end.

Fixpoint op_run (cfg : Config) (sched : list Operation) (t : Threads)
  : Outcome Threads :=
  match sched with
  | [] => Done t
  | o :: rest => t' <- op_step cfg o t ;; op_run cfg rest t'
  end.

Definition op_init (records : Closure -> bool) : Threads :=
  {| memory := mem (init records); worker_at := W_Wait; call_at := C_Idle |}.



(** [InstallOptimizedFunctions] has just been entered. *)
Definition entered (m : State) (w : WorkerPc) : Threads :=
  {| memory := m; worker_at := w; call_at := C_InstallTest 0 |}.

(** No call is entered: what the schedule holds are operations of the
    worker and of the call in progress. *)
Definition within_call (o : Operation) : bool :=
  match o with
  | O_Call _ => false
  | _ => true
  end.

Definition is_exec (o : Operation) : bool :=
  match o with
  | O_Exec => true
  | _ => false
  end.

(** The operations of the execution thread in a schedule. *)
Definition exec_operations (sched : list Operation) : nat :=
  length (filter is_exec sched).

(** Jobs handed to the output queue, in the order of the enqueues. *)
Definition published_job (e : Event) : list OptimizingCompiler :=
  match e with EvOutputEnqueue j => [j] | _ => [] end.

Definition published (s : State) : list OptimizingCompiler :=
  flat_map published_job (trace s).

(** A job the installer has dequeued and not yet installed. *)
Definition carried (pc : CallPc) : list OptimizingCompiler :=
  match pc with
  | C_InstallCode j _ => [j]
  | _ => []
  end.

(** The execution thread is inside [InstallOptimizedFunctions], or between
    calls. *)
Definition installing (pc : CallPc) : bool :=
  match pc with
  | C_Idle | C_InstallTest _ | C_InstallPeek _ | C_InstallRead _ _
  | C_InstallDequeue _ _ | C_InstallCode _ _ | C_InstallAssert _ _ => true
  | _ => false
  end.

(** The operations left in the pass the installer is in, when that pass is
    its last one or has already taken its job. *)
Definition install_rank (pc : CallPc) : nat :=
  match pc with
  | C_InstallTest _ => 3
  | C_InstallPeek _ => 2
  | C_InstallRead _ _ => 1
  | C_InstallDequeue _ _ => 0
  | C_InstallCode _ _ => 5
  | C_InstallAssert _ _ => 4
  | _ => 0
  end.

(** The jobs that can still reach the installer while the execution thread
    is inside the call: those published, the one the worker holds, those
    queued. *)
Definition in_pipeline (w : WorkerPc) (m : State) : nat :=
  length (output_queue m) + length (held w) + length (input_queue m).

Definition install_measure (t : Threads) : nat :=
  6 * in_pipeline (worker_at t) (memory t) + install_rank (call_at t).

(** What [functions_installed] reads when [k] jobs have been installed
    during the call. *)
Definition installs_counted (pc : CallPc) (k : nat) : Prop :=
  match pc with
  | C_InstallTest n | C_InstallPeek n | C_InstallRead _ n
  | C_InstallDequeue _ n | C_InstallCode _ n => n = k
  | C_InstallAssert _ n => S n = k
  | _ => True
  end.

(** What holds inside a call of [InstallOptimizedFunctions] that was
    entered with the memory [m0] and the worker at [w0], when the call has
    installed [taken] and the worker has published [pub] since. *)
Record InCall (m0 : State) (w0 : WorkerPc) (t : Threads)
  (taken pub : list OptimizingCompiler) : Prop := {
  ic_installing : installing (call_at t) = true;
  ic_installed : installed (memory t) = installed m0 ++ taken;
  ic_published : published (memory t) = published m0 ++ pub;
  ic_queue :
    output_queue m0 ++ pub =
      taken ++ carried (call_at t) ++ output_queue (memory t);
  ic_supply :
    length pub + length (held (worker_at t)) + length (input_queue (memory t)) =
      length (held w0) + length (input_queue m0);
  ic_peek :
    forall n, call_at t = C_InstallPeek n -> output_queue (memory t) <> [];
  ic_front :
    forall j n,
      call_at t = C_InstallRead j n \/ call_at t = C_InstallDequeue j n ->
      exists rest, output_queue (memory t) = j :: rest;
  ic_ready :
    forall j n,
      call_at t = C_InstallDequeue j n \/ call_at t = C_InstallCode j n \/
      call_at t = C_InstallAssert j n ->
      IsInRecompileQueue (memory t) j = false;
  ic_taken_ready :
    forall j, In j taken -> IsInRecompileQueue (memory t) j = false;
  ic_counted : installs_counted (call_at t) (length taken)
}.

(** ** The signals of the input semaphore, operation by operation *)

(** One, between the enqueue and the signal of [QueueForOptimization]. *)
Definition owed (pc : CallPc) : nat :=
  match pc with
  | C_QueueSignal _ => 1
  | _ => 0
  end.

(** [Stop] has stored the flag. *)
Definition flag_stored (pc : CallPc) : bool :=
  match pc with
  | C_StopSignal | C_StopWait | C_Returned => true
  | _ => false
  end.

(** One, once [Stop] has given its signal. *)
Definition stop_signal_given (pc : CallPc) : nat :=
  match pc with
  | C_StopWait | C_Returned => 1
  | _ => 0
  end.

(** The worker has read the flag set, or has left its loop. *)
Definition leaving (w : WorkerPc) : bool :=
  match w with
  | W_SignalStop | W_Stopped => true
  | _ => false
  end.

Record Signals (t : Threads) : Prop := {
  sg_flag : stop_thread (memory t) = flag_stored (call_at t);
  sg_tokens :
    call_at t <> C_Returned ->
    input_queue_semaphore (memory t) + token (worker_at t) + owed (call_at t) =
      length (input_queue (memory t)) + stop_signal_given (call_at t);
  sg_wake :
    call_at t = C_StopWait ->
    leaving (worker_at t) = false -> worker_at t <> W_Check ->
    1 <= input_queue_semaphore (memory t);
  sg_leaving : leaving (worker_at t) = true -> flag_stored (call_at t) = true;
  sg_ack :
    stop_semaphore (memory t) =
      match worker_at t, call_at t with
      | W_Stopped, C_Returned => 0
      | W_Stopped, _ => 1
      | _, _ => 0
      end;
  sg_returned : call_at t = C_Returned -> worker_at t = W_Stopped
}.

(** The state a schedule of operations leads to. *)
Definition op_after (cfg : Config) (sched : list Operation) (t : Threads) : Threads :=
  match op_run cfg sched t with
  | Done t' => t'
  | _ => t
  end.

(** One job is published and marked, the next is compiled and about to be
    published; then the installer is called, and while it installs the
    first job the worker publishes and marks the second. *)
Definition schedule_second_compiled : list Operation :=
  [O_Call (Call_QueueForOptimization job_A); O_Exec; O_Exec; O_Exec;
   O_Call (Call_QueueForOptimization job_B); O_Exec; O_Exec; O_Exec] ++
  repeat O_Worker 7 ++ repeat O_Worker 5.

Definition schedule_overtaken : list Operation :=
  repeat O_Exec 6 ++ [O_Worker; O_Worker] ++ repeat O_Exec 7.

(** [QueueForOptimization] has enqueued its job and not yet signalled. *)
Definition schedule_enqueued : list Operation :=
  [O_Call (Call_QueueForOptimization job_A); O_Exec; O_Exec].

(** [Stop] is called with nothing queued; the worker wakes, reads the flag
    and acknowledges while the caller is in its wait. *)
Definition schedule_acknowledged : list Operation :=
  [O_Call Call_Stop; O_Exec; O_Exec; O_Worker; O_Worker; O_Worker].

(** * Proofs *)

Ltac bind_inv H :=
  match type of H with
  | bind ?m _ = _ =>
      let E := fresh "E" in
      destruct m eqn:E; cbn [bind] in H; try discriminate H
  end.

Section Lists.
Context {A : Type}.

Lemma takeWhile_dropWhile (p : A -> bool) (l : list A) :
  takeWhile p l ++ dropWhile p l = l.
Proof.
  induction l as [|x r IH]; cbn; [reflexivity|].
  destruct (p x); cbn; [f_equal; exact IH | reflexivity].
Qed.

Lemma takeWhile_ext (p q : A -> bool) (l : list A) :
  (forall x, p x = q x) -> takeWhile p l = takeWhile q l.
Proof.
  intros H; induction l as [|x r IH]; cbn; [reflexivity|].
  rewrite H, IH; reflexivity.
Qed.

Lemma dropWhile_ext (p q : A -> bool) (l : list A) :
  (forall x, p x = q x) -> dropWhile p l = dropWhile q l.
Proof.
  intros H; induction l as [|x r IH]; cbn; [reflexivity|].
  rewrite H, IH; reflexivity.
Qed.

Lemma takeWhile_Forall (p : A -> bool) (l : list A) :
  Forall (fun x => p x = true) (takeWhile p l).
Proof.
  induction l as [|x r IH]; cbn; [constructor|].
  destruct (p x) eqn:E; constructor; assumption.
Qed.

Lemma takeWhile_length (p : A -> bool) (l : list A) :
  length (takeWhile p l) <= length l.
Proof.
  induction l as [|x r IH]; cbn; [lia|]. destruct (p x); cbn; lia.
Qed.

Lemma takeWhile_all (p : A -> bool) (l : list A) :
  Forall (fun x => p x = true) l -> takeWhile p l = l.
Proof.
  induction 1 as [|x r Hx _ IH]; cbn; [reflexivity|].
  rewrite Hx, IH; reflexivity.
Qed.

Lemma dropWhile_all (p : A -> bool) (l : list A) :
  Forall (fun x => p x = true) l -> dropWhile p l = [].
Proof.
  induction 1 as [|x r Hx _ IH]; cbn; [reflexivity|].
  rewrite Hx; exact IH.
Qed.

Lemma takeWhile_stop (p : A -> bool) (a : list A) (x : A) (b : list A) :
  Forall (fun y => p y = true) a -> p x = false ->
  takeWhile p (a ++ x :: b) = a /\ dropWhile p (a ++ x :: b) = x :: b.
Proof.
  intros Ha Hx; induction Ha as [|y r Hy _ IH]; cbn.
  - rewrite Hx; split; reflexivity.
  - rewrite Hy. destruct IH as [-> ->]; split; reflexivity.
Qed.
End Lists.

Section Installer.
Variable cfg : Config.

Lemma same_control_refl s : same_control s s.
Proof. repeat split. Qed.

Lemma same_control_trans s1 s2 s3 :
  same_control s1 s2 -> same_control s2 s3 -> same_control s1 s3.
Proof.
  unfold same_control; intros (?&?&?&?&?) (?&?&?&?&?).
  repeat split; congruence.
Qed.

Lemma eligible_same_records s s' :
  same_records s s' -> forall j, eligible s' j = eligible s j.
Proof.
  intros H j; unfold eligible, IsInRecompileQueue; rewrite H; reflexivity.
Qed.

(** Installing a job whose record already reads "ready" leaves every
    record as it reads. *)
Lemma InstallOptimizedCode_records j s :
  IsInRecompileQueue s j = false ->
  same_records s (InstallOptimizedCode j s).
Proof.
  intros H c; cbn. destruct (Nat.eqb c (closure j)) eqn:E; [|reflexivity].
  apply Nat.eqb_eq in E; subst c; symmetry; exact H.
Qed.

(** The body either leaves with the state untouched or goes on with a
    queue shorter by its front job. *)
Lemma InstallOptimizedFunctions_body_cases s n j rest :
  output_queue s = j :: rest ->
  (IsInRecompileQueue s j = true /\
   InstallOptimizedFunctions_body cfg s n = Done (Break (s, n)))
  \/
  (IsInRecompileQueue s j = false /\
   InstallOptimizedFunctions_body cfg s n =
     Done (Continue (InstallOptimizedCode j
                       (record (EvOutputDequeue j) (set_output_queue rest s)),
                     S n))).
Proof.
  intros Hq. unfold InstallOptimizedFunctions_body, output_queue_Peek,
    output_queue_Dequeue. rewrite Hq; cbn [bind].
  destruct (IsInRecompileQueue s j) eqn:E; [left; split; reflexivity|].
  right; split; [reflexivity|].
  unfold ASSERT, IsInRecompileQueue; cbn.
  rewrite Nat.eqb_refl; cbn. destruct (DEBUG cfg); reflexivity.
Qed.

Lemma drained_spec l :
  forall s, l = takeWhile (eligible s) (output_queue s) ->
  output_queue (drained s l) = dropWhile (eligible s) (output_queue s) /\
  trace (drained s l) = trace s ++ install_events l /\
  same_control s (drained s l) /\ same_records s (drained s l).
Proof.
  induction l as [|j r IH]; intros s Hl.
  - cbn. rewrite app_nil_r.
    split; [|split; [reflexivity|split; [apply same_control_refl|intros c; reflexivity]]].
    pose proof (takeWhile_dropWhile (eligible s) (output_queue s)) as H.
    rewrite <- Hl in H. symmetry; exact H.
  - destruct (output_queue s) as [|k rest] eqn:Hq; [discriminate Hl|].
    cbn in Hl. destruct (eligible s k) eqn:Hk; [|discriminate Hl].
    injection Hl as Hj Hr. subst k.
    cbn [drained dropWhile]. rewrite Hq, Hk. cbn [tl].
    set (s1 := InstallOptimizedCode j
                 (record (EvOutputDequeue j) (set_output_queue rest s))).
    assert (Hrec : same_records s s1).
    { intros c; apply (InstallOptimizedCode_records j
           (record (EvOutputDequeue j) (set_output_queue rest s))).
      unfold eligible in Hk. apply negb_true_iff in Hk. exact Hk. }
    destruct (IH s1) as (Hout & Htr & Hctl & Hrec').
    { cbn. rewrite Hr. apply takeWhile_ext.
      intros x; symmetry; apply eligible_same_records; exact Hrec. }
    split.
    { rewrite Hout. cbn. apply dropWhile_ext.
      apply eligible_same_records; exact Hrec. }
    split.
    { rewrite Htr. cbn. rewrite <- !app_assoc. reflexivity. }
    split.
    { eapply same_control_trans; [|exact Hctl]. repeat split. }
    intros c; rewrite Hrec'; apply Hrec.
Qed.

(** With at least as many iterations as the output queue is long, the loop
    returns, and what it returns depends neither on the surplus nor on the
    count it started from. *)
Lemma InstallOptimizedFunctions_loop_drained fuel :
  forall s n, length (output_queue s) <= fuel ->
  InstallOptimizedFunctions_loop cfg fuel s n =
    Done (drained s (takeWhile (eligible s) (output_queue s)),
          n + length (takeWhile (eligible s) (output_queue s))).
Proof.
  induction fuel as [|fuel IH]; intros s n Hlen.
  - destruct (output_queue s) eqn:Hq; cbn in Hlen; [|lia].
    cbn. unfold output_queue_IsEmpty; rewrite Hq; cbn.
    rewrite Nat.add_0_r; reflexivity.
  - destruct (output_queue s) as [|j rest] eqn:Hq.
    + cbn. unfold output_queue_IsEmpty; rewrite Hq; cbn.
      rewrite Nat.add_0_r; reflexivity.
    + cbn [InstallOptimizedFunctions_loop]. unfold output_queue_IsEmpty.
      rewrite Hq.
      destruct (InstallOptimizedFunctions_body_cases s n j rest Hq) as [[Hp ->]|[Hp ->]];
        cbn [bind takeWhile]; unfold eligible at 1 3; rewrite Hp; cbn [negb].
      * cbn. rewrite Nat.add_0_r; reflexivity.
      * set (s1 := InstallOptimizedCode j
                     (record (EvOutputDequeue j) (set_output_queue rest s))).
        assert (Hrec : same_records s s1).
        { intros c; apply (InstallOptimizedCode_records j
               (record (EvOutputDequeue j) (set_output_queue rest s))).
          exact Hp. }
        rewrite (IH s1 (S n)) by (cbn; cbn in Hlen; lia).
        cbn [output_queue s1 InstallOptimizedCode record
               set_in_recompile_queue set_output_queue drained length].
        rewrite Hq; cbn [tl]. fold s1.
        rewrite (takeWhile_ext _ _ rest (eligible_same_records _ _ Hrec)).
        f_equal. f_equal. lia.
Qed.

Lemma InstallOptimizedFunctions_drained s :
  InstallOptimizedFunctions cfg s =
    Done (drained s (takeWhile (eligible s) (output_queue s))).
Proof.
  unfold InstallOptimizedFunctions.
  rewrite InstallOptimizedFunctions_loop_drained by lia. reflexivity.
Qed.

Lemma InstallOptimizedFunctions_spec s :
  exists s',
    InstallOptimizedFunctions cfg s = Done s' /\
    output_queue s' = dropWhile (eligible s) (output_queue s) /\
    trace s' = trace s ++ install_events (takeWhile (eligible s) (output_queue s)) /\
    same_control s s' /\ same_records s s'.
Proof.
  eexists; split; [apply InstallOptimizedFunctions_drained|].
  apply drained_spec; reflexivity.
Qed.
End Installer.

Section Logs.
Lemma queued_app s evs (s' : State) :
  trace s' = trace s ++ evs -> queued s' = queued s ++ flat_map queued_job evs.
Proof. unfold queued; intros ->; apply flat_map_app. Qed.

Lemma compiled_app s evs (s' : State) :
  trace s' = trace s ++ evs -> compiled s' = compiled s ++ flat_map compiled_job evs.
Proof. unfold compiled; intros ->; apply flat_map_app. Qed.

Lemma installed_app s evs (s' : State) :
  trace s' = trace s ++ evs -> installed s' = installed s ++ flat_map installed_job evs.
Proof. unfold installed; intros ->; apply flat_map_app. Qed.

Lemma install_events_installed l : flat_map installed_job (install_events l) = l.
Proof. induction l as [|j r IH]; cbn; [reflexivity | f_equal; exact IH]. Qed.

Lemma install_events_queued l : flat_map queued_job (install_events l) = [].
Proof. induction l as [|j r IH]; cbn; [reflexivity | exact IH]. Qed.

Lemma install_events_compiled l : flat_map compiled_job (install_events l) = [].
Proof. induction l as [|j r IH]; cbn; [reflexivity | exact IH]. Qed.

Lemma install_events_dequeue j l :
  In (EvOutputDequeue j) (install_events l) -> In j l.
Proof.
  induction l as [|k r IH]; cbn; [tauto|].
  intros [H|[H|H]]; [left; congruence | discriminate | right; auto].
Qed.

Lemma dropWhile_head {A} (p : A -> bool) l x r :
  dropWhile p l = x :: r -> p x = false.
Proof.
  induction l as [|y t IH]; cbn; [discriminate|].
  destruct (p y) eqn:E; [exact IH|]. intros H; injection H as -> _; exact E.
Qed.
End Logs.

(** C2.  A pass through the loop body looks at the front job: if its
    function record reads "pending" the loop is left with the state as it
    is, otherwise the job is dequeued and installed and the loop goes on.
    So one call of [InstallOptimizedFunctions] takes exactly the longest
    prefix of the output queue whose function records read "ready": these
    jobs are dequeued and installed in order, the call stops in front of the
    first job whose record still reads "pending" and leaves it and
    everything behind it in the queue, whatever the records of the later
    jobs read; no job is dequeued while its record reads "pending". *)
Theorem InstallOptimizedFunctions_drains_eligible_prefix (cfg : Config) (s : State) :
  (forall j rest n,
      output_queue s = j :: rest ->
      InstallOptimizedFunctions_body cfg s n =
        if IsInRecompileQueue s j then Done (Break (s, n))
        else Done (Continue
                     (InstallOptimizedCode j
                        (record (EvOutputDequeue j) (set_output_queue rest s)),
                      S n))) /\
  exists s',
    InstallOptimizedFunctions cfg s = Done s' /\
    output_queue s' = dropWhile (eligible s) (output_queue s) /\
    installed s' = installed s ++ takeWhile (eligible s) (output_queue s) /\
    trace s' = trace s ++ install_events (takeWhile (eligible s) (output_queue s)) /\
    nothing_eligible s' = true /\
    (forall a j b,
        output_queue s = a ++ j :: b ->
        Forall (fun x => IsInRecompileQueue s x = false) a ->
        IsInRecompileQueue s j = true ->
        output_queue s' = j :: b /\ installed s' = installed s ++ a) /\
    (forall j, In (EvOutputDequeue j) (trace s') ->
               In (EvOutputDequeue j) (trace s) \/ IsInRecompileQueue s j = false).
Proof.
  split.
  { intros j rest n Hq.
    destruct (InstallOptimizedFunctions_body_cases cfg s n j rest Hq)
      as [[-> ->]|[-> ->]]; reflexivity. }
  destruct (InstallOptimizedFunctions_spec cfg s) as (s' & Hrun & Hout & Htr & Hctl & Hrec).
  assert (Hinst : installed s' = installed s ++ takeWhile (eligible s) (output_queue s)).
  { rewrite (installed_app _ _ _ Htr), install_events_installed; reflexivity. }
  exists s'; repeat split; try assumption.
  - unfold nothing_eligible. destruct (output_queue s') as [|x r] eqn:E; [reflexivity|].
    assert (E' : dropWhile (eligible s) (output_queue s) = x :: r)
      by (symmetry; exact Hout).
    apply dropWhile_head in E'.
    unfold eligible in E'. apply negb_false_iff in E'.
    unfold IsInRecompileQueue in *. rewrite Hrec; exact E'.
  - destruct (takeWhile_stop (eligible s) a j b) as [_ Hd].
    + eapply Forall_impl; [|exact H0]. intros x Hx; unfold eligible; rewrite Hx; reflexivity.
    + unfold eligible; rewrite H1; reflexivity.
    + rewrite Hout, H; exact Hd.
  - destruct (takeWhile_stop (eligible s) a j b) as [Ht _].
    + eapply Forall_impl; [|exact H0]. intros x Hx; unfold eligible; rewrite Hx; reflexivity.
    + unfold eligible; rewrite H1; reflexivity.
    + rewrite Hinst, H, Ht; reflexivity.
  - intros j Hin. rewrite Htr in Hin. apply in_app_or in Hin.
    destruct Hin as [Hin|Hin]; [left; exact Hin|right].
    apply install_events_dequeue in Hin.
    pose proof (takeWhile_Forall (eligible s) (output_queue s)) as HF.
    rewrite Forall_forall in HF. specialize (HF _ Hin).
    unfold eligible in HF. apply negb_true_iff in HF; exact HF.
Qed.

Lemma InstallOptimizedFunctions_drains_eligible_prefix_witness :
  omap output_queue (InstallOptimizedFunctions debug_build front_pending_state) =
    Done [job_A; job_B] /\
  omap installed (InstallOptimizedFunctions debug_build front_pending_state) = Done [] /\
  omap output_queue (InstallOptimizedFunctions debug_build second_pending_state) =
    Done [job_B; job_C] /\
  omap installed (InstallOptimizedFunctions debug_build second_pending_state) =
    Done [job_A].
Proof.
  destruct (InstallOptimizedFunctions_drains_eligible_prefix debug_build
              front_pending_state) as (_ & s1 & R1 & _ & _ & _ & _ & B1 & _).
  destruct (B1 [] job_A [job_B] eq_refl (Forall_nil _) eq_refl) as [O1 I1].
  destruct (InstallOptimizedFunctions_drains_eligible_prefix debug_build
              second_pending_state) as (_ & s2 & R2 & _ & _ & _ & _ & B2 & _).
  destruct (B2 [job_A] job_B [job_C] eq_refl) as [O2 I2];
    [repeat constructor|reflexivity|].
  rewrite R1, R2. cbn [omap bind]. rewrite O1, I1, O2, I2.
  repeat split; reflexivity.
Defined.

(** C9.  Called with an empty output queue, or with a front job whose
    function record still reads "pending", [InstallOptimizedFunctions]
    returns at once and the whole state (both queues, the pending count, the
    semaphores, the flag, every function record, the trace of calls) is
    what it was. *)
Theorem InstallOptimizedFunctions_noop (cfg : Config) (s : State)
  (H : nothing_eligible s = true) :
  InstallOptimizedFunctions cfg s = Done s.
Proof.
  unfold nothing_eligible in H.
  unfold InstallOptimizedFunctions.
  destruct (output_queue s) as [|j rest] eqn:Hq; cbn.
  - unfold output_queue_IsEmpty; rewrite Hq; reflexivity.
  - unfold output_queue_IsEmpty; rewrite Hq.
    destruct (InstallOptimizedFunctions_body_cases cfg s 0 j rest Hq) as [[_ ->]|[Hp _]].
    + reflexivity.
    + congruence.
Qed.


Section Atomic32.
Local Open Scope Z_scope.

Lemma wrap32_id z : Atomic32_MIN <= z <= Atomic32_MAX -> wrap32 z = z.
Proof.
  unfold wrap32, Atomic32_MIN, Atomic32_MAX; intros H.
  rewrite Z.mod_small; lia.
Qed.

Lemma wrap32_range z : Atomic32_MIN <= wrap32 z <= Atomic32_MAX.
Proof.
  unfold wrap32, Atomic32_MIN, Atomic32_MAX.
  pose proof (Z.mod_pos_bound (z + 2 ^ 31) (2 ^ 32) ltac:(lia)). lia.
Qed.

Lemma wrap32_add a b : wrap32 (wrap32 a + b) = wrap32 (a + b).
Proof.
  unfold wrap32.
  replace ((a + 2 ^ 31) mod 2 ^ 32 - 2 ^ 31 + b + 2 ^ 31)
    with ((a + 2 ^ 31) mod 2 ^ 32 + b) by lia.
  rewrite Zplus_mod_idemp_l. f_equal. f_equal. lia.
Qed.

Lemma wrap32_0 : wrap32 0 = 0.
Proof. reflexivity. Qed.

Lemma wrap32_le z : 0 <= z -> wrap32 z <= z.
Proof.
  intros H. unfold wrap32.
  pose proof (Z.mod_le (z + 2 ^ 31) (2 ^ 32) ltac:(lia) ltac:(lia)). lia.
Qed.

End Atomic32.

Section CompileStep.
Variable cfg : Config.

Lemma CompileNext_cases s :
  match input_queue s with
  | [] => CompileNext cfg s = Stuck
  | j :: rest =>
      CompileNext cfg s =
        if CompileNext_asserts cfg s j then Done (CompileNext_done j rest s)
        else Abort
  end.
Proof.
  unfold CompileNext, CompileNext_dequeue, input_queue_Dequeue.
  cbn [input_queue record].
  destruct (input_queue s) as [|j rest]; [reflexivity|].
  cbn [bind]. unfold CompileNext_optimize, CompileNext_mark, CompileNext_asserts, ASSERT.
  unfold IsInRecompileQueue; cbn.
  destruct (DEBUG cfg); cbn; [|reflexivity].
  destruct (in_recompile_queue s (closure j)) eqn:E; cbn; [|reflexivity].
  destruct (OptimizeGraph j); cbn; rewrite ?E; reflexivity.
Qed.

Lemma CompileNext_Done s s' :
  CompileNext cfg s = Done s' ->
  exists j rest,
    input_queue s = j :: rest /\ CompileNext_asserts cfg s j = true /\
    s' = CompileNext_done j rest s.
Proof.
  intros H. pose proof (CompileNext_cases s) as C.
  destruct (input_queue s) as [|j rest]; [congruence|].
  exists j, rest. destruct (CompileNext_asserts cfg s j); [|congruence].
  repeat split; congruence.
Qed.

Lemma QueueForOptimization_cases j s :
  QueueForOptimization cfg j s =
    if negb (DEBUG cfg) || IsQueueAvailable cfg s
    then Done (QueueForOptimization_done j s) else Abort.
Proof.
  unfold QueueForOptimization, ASSERT.
  destruct (DEBUG cfg); cbn; [|reflexivity].
  destruct (IsQueueAvailable cfg s); reflexivity.
Qed.

Lemma QueueForOptimization_Done j s s' :
  QueueForOptimization cfg j s = Done s' -> s' = QueueForOptimization_done j s.
Proof.
  rewrite QueueForOptimization_cases.
  destruct (negb (DEBUG cfg) || IsQueueAvailable cfg s); congruence.
Qed.
End CompileStep.

(** C6, as stated, fails in a release build: the job whose compile step
    returned [FAILED] is published and marked for install, and
    [CompileNext] returns normally. *)
Lemma CompileNext_FAILED_release_swallowed :
  OptimizeGraph failing_job = FAILED /\
  input_queue failing_state = [failing_job] /\
  CompileNext release_build failing_state <> Abort /\
  omap output_queue (CompileNext release_build failing_state) = Done [failing_job] /\
  omap (fun s => IsInRecompileQueue s failing_job)
       (CompileNext release_build failing_state) = Done false /\
  omap trace (CompileNext release_build failing_state) =
    Done [EvInputEnqueue failing_job; EvRelocationLock; EvInputDequeue failing_job;
          EvOptimizeGraph failing_job; EvOutputEnqueue failing_job;
          EvMarkForInstalling failing_job; EvRelocationUnlock].
Proof.
  repeat split; try reflexivity. cbn. discriminate.
Qed.

(** C6, amended.  When the compile step returns [FAILED]: a debug build
    stops at the assertion, before the job is published; a release build
    has no check, discards the status and goes on as after a successful
    compile: the job is appended to the output queue and its function
    record is marked for install.  In neither build is the job put back
    into the input queue or handed to the compile step again. *)
Theorem CompileNext_FAILED_by_build (cfg : Config) (s : State)
  (j : OptimizingCompiler) (rest : list OptimizingCompiler)
  (Hq : input_queue s = j :: rest) (Hf : OptimizeGraph j = FAILED) :
  if DEBUG cfg then CompileNext cfg s = Abort
  else
    exists s',
      CompileNext cfg s = Done s' /\
      output_queue s' = output_queue s ++ [j] /\
      IsInRecompileQueue s' j = false /\
      input_queue s' = rest /\
      queued s' = queued s /\
      compiled s' = compiled s ++ [j].
Proof.
  pose proof (CompileNext_cases cfg s) as C. rewrite Hq in C.
  unfold CompileNext_asserts in C. rewrite Hf in C.
  destruct (DEBUG cfg); cbn in C.
  - rewrite andb_false_r in C. exact C.
  - exists (CompileNext_done j rest s). split; [exact C|].
    split; [reflexivity|].
    split; [unfold IsInRecompileQueue; cbn; rewrite Nat.eqb_refl; reflexivity|].
    split; [reflexivity|].
    split.
    + unfold queued; cbn. rewrite <- !app_assoc, flat_map_app. cbn.
      rewrite app_nil_r; reflexivity.
    + unfold compiled; cbn. rewrite <- !app_assoc, flat_map_app. cbn. reflexivity.
Qed.

Lemma CompileNext_FAILED_by_build_witness :
  CompileNext debug_build failing_state = Abort /\
  exists s', CompileNext release_build failing_state = Done s' /\
             output_queue s' = [failing_job].
Proof.
  split.
  - exact (CompileNext_FAILED_by_build debug_build failing_state
             failing_job [] eq_refl eq_refl).
  - destruct (CompileNext_FAILED_by_build release_build failing_state
                failing_job [] eq_refl eq_refl) as (s' & H1 & H2 & _).
    exists s'; split; [exact H1 | exact H2].
Defined.

Lemma InstallOptimizedFunctions_noop_witness :
  let empty := {| input_queue := [failing_job]; output_queue := [];
                  queue_length := 1; input_queue_semaphore := 1;
                  stop_semaphore := 0; stop_thread := false;
                  in_recompile_queue := (fun _ => true); trace := [] |} in
  let blocked := {| input_queue := []; output_queue :=
                      [ {| closure := 1; OptimizeGraph := OK |};
                        {| closure := 2; OptimizeGraph := OK |} ];
                    queue_length := 0; input_queue_semaphore := 0;
                    stop_semaphore := 0; stop_thread := false;
                    in_recompile_queue := (fun c => Nat.eqb c 1); trace := [] |} in
  InstallOptimizedFunctions debug_build empty = Done empty /\
  InstallOptimizedFunctions debug_build blocked = Done blocked.
Proof.
  intros empty blocked. split.
  - exact (InstallOptimizedFunctions_noop debug_build empty eq_refl).
  - exact (InstallOptimizedFunctions_noop debug_build blocked eq_refl).
Defined.

Section TraceFacts.
Lemma published_unflipped_app tr evs :
  published_unflipped (tr ++ evs) =
    fold_left publish_flip_step evs (published_unflipped tr).
Proof. unfold published_unflipped. apply fold_left_app. Qed.

Lemma OptimizingCompiler_eqb_refl j : OptimizingCompiler_eqb j j = true.
Proof.
  unfold OptimizingCompiler_eqb. rewrite Nat.eqb_refl.
  destruct (OptimizeGraph j); reflexivity.
Qed.

Lemma OptimizingCompiler_eqb_eq a b : OptimizingCompiler_eqb a b = true -> a = b.
Proof.
  destruct a as [ca sa], b as [cb sb]; unfold OptimizingCompiler_eqb; cbn.
  intros H. apply andb_prop in H as [H1 H2]. apply Nat.eqb_eq in H1.
  destruct sa, sb; try discriminate H2; subst; reflexivity.
Qed.

Lemma install_events_monitor l st :
  fold_left publish_flip_step (install_events l) (Some st) = Some st.
Proof. induction l as [|j r IH]; cbn; [reflexivity | exact IH]. Qed.
End TraceFacts.

Ltac st :=
  cbn [input_queue output_queue queue_length input_queue_semaphore
       stop_semaphore stop_thread in_recompile_queue trace
       record set_input_queue set_output_queue set_queue_length
       set_input_queue_semaphore set_stop_semaphore set_stop_thread
       set_in_recompile_queue MarkForInstallingRecompiledCode
       InstallOptimizedCode input_queue_Enqueue output_queue_Enqueue
       CompileNext_enqueue CompileNext_decrement CompileNext_done
       QueueForOptimization_done Stop_signal IsInRecompileQueue
       held held_compiled unflipped uncounted in_flight token
       mem worker exec] in *.

Ltac logs :=
  unfold queued, compiled, installed in *; st;
  rewrite ?flat_map_app in *;
  cbn [flat_map queued_job compiled_job installed_job app] in *;
  rewrite ?app_nil_r in *.

Ltac monitor :=
  unfold published_unflipped in *; st;
  rewrite ?fold_left_app; cbn [fold_left].

Section CorePreserved.
Variable cfg : Config.

Lemma CompileNext_optimize_Done j s s' :
  CompileNext_optimize cfg j s = Done s' ->
  s' = record (EvOptimizeGraph j) s /\
  (DEBUG cfg = true ->
   IsInRecompileQueue s j = true /\ OptimizeGraph j <> FAILED).
Proof.
  unfold CompileNext_optimize, ASSERT.
  destruct (DEBUG cfg); cbn.
  - destruct (IsInRecompileQueue s j); cbn; [|discriminate].
    destruct (OptimizeGraph j); cbn; [discriminate|].
    intros H; injection H as <-. split; [reflexivity|].
    intros _; split; [reflexivity|discriminate].
  - intros H; injection H as <-. split; [reflexivity|discriminate].
Qed.

Lemma CompileNext_mark_Done j s s' :
  CompileNext_mark cfg j s = Done s' ->
  s' = record EvRelocationUnlock (MarkForInstallingRecompiledCode j s) /\
  (DEBUG cfg = true -> IsInRecompileQueue s j = true).
Proof.
  unfold CompileNext_mark, ASSERT.
  destruct (DEBUG cfg); cbn.
  - destruct (IsInRecompileQueue s j); cbn; [|discriminate].
    intros H; injection H as <-. split; reflexivity.
  - intros H; injection H as <-. split; [reflexivity|discriminate].
Qed.

Lemma Run_step_Core pc m pc' m' :
  Run_step cfg pc m = Done (pc', m') -> Core pc m -> Core pc' m'.
Proof.
  intros Hstep [Hq Hc Hn Hr Ho].
  destruct pc; cbn [Run_step] in Hstep.
  - (* W_Wait *)
    destruct (input_queue_semaphore m); [discriminate|].
    injection Hstep as <- <-. constructor; assumption.
  - (* W_Check *)
    destruct (stop_thread m); injection Hstep as <- <-; constructor; assumption.
  - (* W_SignalStop *)
    injection Hstep as <- <-. constructor; assumption.
  - (* W_Dequeue *)
    unfold CompileNext_dequeue, input_queue_Dequeue in Hstep.
    cbn [input_queue record] in Hstep.
    destruct (input_queue m) as [|j rest] eqn:Hin; [discriminate|].
    cbn [bind] in Hstep. injection Hstep as <- <-.
    constructor.
    + logs. exact Hq.
    + logs. exact Hc.
    + st. rewrite Hn. f_equal. cbn [length]. lia.
    + exact Hr.
    + monitor. rewrite Ho. reflexivity.
  - (* W_Decrement *)
    injection Hstep as <- <-. constructor; try assumption.
    st. unfold Barrier_AtomicIncrement. rewrite Hn, wrap32_add.
    f_equal. lia.
  - (* W_Optimize *)
    bind_inv Hstep. injection Hstep as <- <-.
    apply CompileNext_optimize_Done in E as [-> _].
    constructor.
    + logs. exact Hq.
    + logs. rewrite Hc. rewrite <- !app_assoc. reflexivity.
    + exact Hn.
    + exact Hr.
    + monitor. rewrite Ho. reflexivity.
  - (* W_Enqueue *)
    injection Hstep as <- <-.
    constructor.
    + logs. rewrite Hq. rewrite <- !app_assoc. reflexivity.
    + logs. rewrite Hc. reflexivity.
    + exact Hn.
    + st. intros k Hk. apply in_app_or in Hk. destruct Hk as [Hk|Hk].
      * destruct (Hr k Hk) as [H|(x & Hx & _)]; [left; exact H|discriminate Hx].
      * destruct Hk as [<-|[]]. right; exists j; split; reflexivity.
    + monitor. rewrite Ho. reflexivity.
  - (* W_Mark *)
    bind_inv Hstep. injection Hstep as <- <-.
    apply CompileNext_mark_Done in E as [-> _].
    constructor.
    + logs. exact Hq.
    + logs. exact Hc.
    + exact Hn.
    + st. intros k Hk. left.
      destruct (Nat.eqb (closure k) (closure j)) eqn:E; [reflexivity|].
      destruct (Hr k Hk) as [H|(x & Hx & Hcl)]; [exact H|].
      injection Hx as <-. rewrite Hcl, Nat.eqb_refl in E. discriminate E.
    + monitor. rewrite Ho. cbn. rewrite OptimizingCompiler_eqb_refl. reflexivity.
  - discriminate Hstep.
Qed.
End CorePreserved.

Section CoreCalls.
Variable cfg : Config.

(** [Core] reads the worker's position only through what it holds. *)
Lemma Core_transfer pc pc' m :
  held pc = held pc' -> held_compiled pc = held_compiled pc' ->
  uncounted pc = uncounted pc' -> unflipped pc = unflipped pc' ->
  Core pc m -> Core pc' m.
Proof.
  intros H1 H2 H3 H4 [Hq Hc Hn Hr Ho].
  constructor; rewrite <- ?H1, <- ?H2, <- ?H3, <- ?H4; assumption.
Qed.

(** The compile step as a whole is the worker's five operations. *)
Lemma CompileNext_steps s s' :
  CompileNext cfg s = Done s' ->
  exists j s1 s3,
    Run_step cfg W_Dequeue s = Done (W_Decrement j, s1) /\
    Run_step cfg (W_Decrement j) s1 = Done (W_Optimize j, CompileNext_decrement s1) /\
    Run_step cfg (W_Optimize j) (CompileNext_decrement s1) = Done (W_Enqueue j, s3) /\
    Run_step cfg (W_Enqueue j) s3 = Done (W_Mark j, CompileNext_enqueue j s3) /\
    Run_step cfg (W_Mark j) (CompileNext_enqueue j s3) = Done (W_Wait, s').
Proof.
  unfold CompileNext. intros H.
  bind_inv H. destruct a as [j s1]. bind_inv H.
  exists j, s1, a. cbn [Run_step]. rewrite E, E0, H. cbn [bind].
  repeat split; reflexivity.
Qed.

Lemma CompileNext_Core pc s s' :
  held pc = [] -> held_compiled pc = [] -> uncounted pc = 0%Z -> unflipped pc = None ->
  CompileNext cfg s = Done s' -> Core pc s -> Core pc s'.
Proof.
  intros H1 H2 H3 H4 H HC.
  destruct (CompileNext_steps s s' H) as (j & s1 & s3 & S1 & S2 & S3 & S4 & S5).
  apply (Core_transfer W_Wait pc); try (symmetry; assumption).
  eapply Run_step_Core; [exact S5|].
  eapply Run_step_Core; [exact S4|].
  eapply Run_step_Core; [exact S3|].
  eapply Run_step_Core; [exact S2|].
  eapply Run_step_Core; [exact S1|].
  apply (Core_transfer pc W_Dequeue); assumption.
Qed.

Lemma QueueForOptimization_Core pc j s s' :
  QueueForOptimization cfg j s = Done s' -> Core pc s -> Core pc s'.
Proof.
  intros H [Hq Hc Hn Hr Ho]. apply QueueForOptimization_Done in H; subst s'.
  constructor.
  - logs. rewrite Hq. rewrite <- !app_assoc. reflexivity.
  - logs. exact Hc.
  - st. unfold Barrier_AtomicIncrement. rewrite Hn, wrap32_add.
    f_equal. rewrite length_app; cbn [length]. lia.
  - exact Hr.
  - monitor. rewrite Ho. reflexivity.
Qed.

Lemma InstallOptimizedFunctions_Core pc s s' :
  InstallOptimizedFunctions cfg s = Done s' -> Core pc s -> Core pc s'.
Proof.
  intros H [Hq Hc Hn Hr Ho].
  destruct (InstallOptimizedFunctions_spec cfg s) as (t & Ht & Hout & Htr & Hctl & Hrec).
  assert (t = s') by congruence; subst t; clear Ht.
  destruct Hctl as (Hi & Hl & _).
  pose proof (takeWhile_dropWhile (eligible s) (output_queue s)) as Hsplit.
  constructor.
  - rewrite (queued_app _ _ _ Htr), (installed_app _ _ _ Htr).
    rewrite install_events_queued, install_events_installed, app_nil_r.
    rewrite Hq, Hout, Hi. rewrite <- Hsplit at 1. rewrite <- !app_assoc. reflexivity.
  - rewrite (compiled_app _ _ _ Htr), (installed_app _ _ _ Htr).
    rewrite install_events_compiled, install_events_installed, app_nil_r.
    rewrite Hc, Hout. rewrite <- Hsplit at 1. rewrite <- !app_assoc. reflexivity.
  - rewrite Hl, Hi. exact Hn.
  - intros j Hj. unfold IsInRecompileQueue. rewrite Hrec.
    apply Hr. rewrite <- Hsplit. apply in_or_app; right.
    rewrite <- Hout. exact Hj.
  - rewrite Htr, published_unflipped_app, Ho. apply install_events_monitor.
Qed.

Lemma Stop_signal_Core pc s : Core pc s -> Core pc (Stop_signal s).
Proof. intros [Hq Hc Hn Hr Ho]. constructor; assumption. Qed.

Lemma Stop_drain_Core pc fuel :
  held pc = [] -> held_compiled pc = [] -> uncounted pc = 0%Z -> unflipped pc = None ->
  forall s s', Stop_drain cfg fuel s = Done s' -> Core pc s -> Core pc s'.
Proof.
  intros H1 H2 H3 H4.
  induction fuel as [|fuel IH]; intros s s' H HC; cbn [Stop_drain] in H.
  - destruct (NoBarrier_Load (queue_length s) >? 0)%Z; [discriminate|].
    injection H as <-; exact HC.
  - destruct (NoBarrier_Load (queue_length s) >? 0)%Z.
    + bind_inv H. bind_inv H.
      eapply IH; [exact H|].
      eapply InstallOptimizedFunctions_Core; [exact E0|].
      eapply CompileNext_Core; eauto.
    + injection H as <-; exact HC.
Qed.

Lemma Stop_resume_Core pc s s' :
  held pc = [] -> held_compiled pc = [] -> uncounted pc = 0%Z -> unflipped pc = None ->
  Stop_resume cfg s = Done s' -> Core pc s -> Core pc s'.
Proof.
  intros H1 H2 H3 H4 H HC. unfold Stop_resume in H.
  destruct (stop_semaphore s) as [|n]; [discriminate|].
  assert (HC1 : Core pc (set_stop_semaphore n s))
    by (destruct HC; constructor; assumption).
  destruct (FLAG_parallel_recompilation_delay cfg =? 0)%Z.
  - injection H as <-; exact HC1.
  - bind_inv H. eapply Stop_drain_Core; eauto.
    eapply InstallOptimizedFunctions_Core; eauto.
Qed.
End CoreCalls.

Section VettedPreserved.
Variable cfg : Config.

Lemma Vetted_same_records m m' l :
  same_records m m' -> Vetted m l -> Vetted m' l.
Proof.
  intros Hrec [Hnd Hall]. split; [exact Hnd|].
  eapply Forall_impl; [|exact Hall].
  intros j [Hp Hs]; split; [|exact Hs].
  unfold IsInRecompileQueue in *. rewrite Hrec; exact Hp.
Qed.

Lemma Vetted_tail m j l :
  Vetted m (j :: l) ->
  Vetted (record EvRelocationUnlock (MarkForInstallingRecompiledCode j m)) l.
Proof.
  intros [Hnd Hall]. cbn in Hnd. inversion Hnd as [|c cs Hnotin Hnd']; subst.
  inversion Hall as [|x xs _ Hall']; subst.
  split; [exact Hnd'|].
  rewrite Forall_forall in *. intros k Hk.
  destruct (Hall' k Hk) as [Hp Hs]. split; [|exact Hs].
  st. destruct (Nat.eqb (closure k) (closure j)) eqn:E; [|exact Hp].
  apply Nat.eqb_eq in E. exfalso; apply Hnotin.
  rewrite <- E. apply in_map; exact Hk.
Qed.

Lemma Run_step_Vetted pc m pc' m' :
  Run_step cfg pc m = Done (pc', m') ->
  Vetted m (in_flight pc ++ input_queue m) ->
  Vetted m' (in_flight pc' ++ input_queue m').
Proof.
  intros Hstep HV.
  destruct pc; cbn [Run_step] in Hstep.
  - destruct (input_queue_semaphore m); [discriminate|].
    injection Hstep as <- <-. exact HV.
  - destruct (stop_thread m); injection Hstep as <- <-; exact HV.
  - injection Hstep as <- <-. exact HV.
  - unfold CompileNext_dequeue, input_queue_Dequeue in Hstep.
    cbn [input_queue record] in Hstep.
    destruct (input_queue m) as [|j rest] eqn:Hin; [discriminate|].
    cbn [bind] in Hstep. injection Hstep as <- <-. exact HV.
  - injection Hstep as <- <-. exact HV.
  - bind_inv Hstep. injection Hstep as <- <-.
    apply CompileNext_optimize_Done in E as [-> _]. exact HV.
  - injection Hstep as <- <-. exact HV.
  - bind_inv Hstep. injection Hstep as <- <-.
    apply CompileNext_mark_Done in E as [-> _].
    apply Vetted_tail in HV. exact HV.
  - discriminate Hstep.
Qed.

Lemma CompileNext_Vetted s s' :
  CompileNext cfg s = Done s' ->
  Vetted s (input_queue s) -> Vetted s' (input_queue s').
Proof.
  intros H HV.
  destruct (CompileNext_steps cfg s s' H) as (j & s1 & s3 & S1 & S2 & S3 & S4 & S5).
  apply (Run_step_Vetted _ _ _ _ S5).
  apply (Run_step_Vetted _ _ _ _ S4).
  apply (Run_step_Vetted _ _ _ _ S3).
  apply (Run_step_Vetted _ _ _ _ S2).
  apply (Run_step_Vetted _ _ _ _ S1). exact HV.
Qed.

Lemma InstallOptimizedFunctions_Vetted s s' l :
  InstallOptimizedFunctions cfg s = Done s' ->
  Vetted s (l ++ input_queue s) -> Vetted s' (l ++ input_queue s').
Proof.
  intros H HV.
  destruct (InstallOptimizedFunctions_spec cfg s) as (t & Ht & _ & _ & Hctl & Hrec).
  assert (t = s') by congruence; subst t.
  destruct Hctl as (Hi & _). rewrite Hi.
  eapply Vetted_same_records; eassumption.
Qed.

Lemma QueueForOptimization_Vetted l j s s' :
  QueueForOptimization cfg j s = Done s' ->
  vetted_call s (l ++ input_queue s) j = true ->
  Vetted s (l ++ input_queue s) -> Vetted s' (l ++ input_queue s').
Proof.
  intros H Hcall [Hnd Hall]. apply QueueForOptimization_Done in H; subst s'.
  unfold vetted_call in Hcall.
  apply andb_prop in Hcall as [Hcall Hfresh]. apply andb_prop in Hcall as [Hp Hs].
  st. rewrite app_assoc. split.
  - rewrite map_app; cbn [map].
    apply NoDup_app.
    + exact Hnd.
    + constructor; [intros []|constructor].
    + intros c Hc [Hc'|[]]. subst c. apply negb_true_iff in Hfresh.
      apply in_map_iff in Hc as (k & Hk & Hin).
      assert (existsb (fun k0 => Nat.eqb (closure k0) (closure j))
                (l ++ input_queue s) = true).
      { apply existsb_exists. exists k; split; [exact Hin|]. apply Nat.eqb_eq; exact Hk. }
      congruence.
  - apply Forall_app; split; [exact Hall|].
    constructor; [|constructor]. split; [exact Hp|].
    intros Hf. rewrite Hf in Hs. discriminate Hs.
Qed.

Lemma Stop_drain_Vetted fuel :
  forall s s', Stop_drain cfg fuel s = Done s' ->
  Vetted s (input_queue s) -> Vetted s' (input_queue s').
Proof.
  induction fuel as [|fuel IH]; intros s s' H HV; cbn [Stop_drain] in H.
  - destruct (NoBarrier_Load (queue_length s) >? 0)%Z; [discriminate|].
    injection H as <-; exact HV.
  - destruct (NoBarrier_Load (queue_length s) >? 0)%Z.
    + bind_inv H. bind_inv H. eapply IH; [exact H|].
      apply (InstallOptimizedFunctions_Vetted a a0 [] E0).
      eapply CompileNext_Vetted; eauto.
    + injection H as <-; exact HV.
Qed.

Lemma Stop_resume_Vetted s s' :
  Stop_resume cfg s = Done s' ->
  Vetted s (input_queue s) -> Vetted s' (input_queue s').
Proof.
  intros H HV. unfold Stop_resume in H.
  destruct (stop_semaphore s) as [|n]; [discriminate|].
  destruct (FLAG_parallel_recompilation_delay cfg =? 0)%Z.
  - injection H as <-; exact HV.
  - bind_inv H. eapply Stop_drain_Vetted; [exact H|].
    apply (InstallOptimizedFunctions_Vetted _ a [] E). exact HV.
Qed.
End VettedPreserved.

Ltac hs_easy :=
  try assumption; try discriminate;
  try (intros; reflexivity);
  try (intros; split; discriminate);
  try (let He := fresh in
       intros He;
       match goal with
       | Hr : _ = E_Returned -> _ = W_Stopped |- _ =>
           specialize (Hr He); discriminate Hr
       end).

Section HandshakePreserved.
Variable cfg : Config.

Lemma CompileNext_signals s s' :
  CompileNext cfg s = Done s' -> same_signals s s'.
Proof.
  intros H. apply CompileNext_Done in H as (j & rest & _ & _ & ->).
  repeat split.
Qed.

Lemma InstallOptimizedFunctions_signals s s' :
  InstallOptimizedFunctions cfg s = Done s' -> same_signals s s'.
Proof.
  intros H.
  destruct (InstallOptimizedFunctions_spec cfg s) as (t & Ht & _ & _ & Hctl & _).
  assert (t = s') by congruence; subst t.
  destruct Hctl as (_ & _ & ? & ? & ?). repeat split; assumption.
Qed.

Lemma same_signals_trans s1 s2 s3 :
  same_signals s1 s2 -> same_signals s2 s3 -> same_signals s1 s3.
Proof.
  unfold same_signals; intros (?&?&?) (?&?&?). repeat split; congruence.
Qed.

Lemma Stop_drain_signals fuel :
  forall s s', Stop_drain cfg fuel s = Done s' -> same_signals s s'.
Proof.
  induction fuel as [|fuel IH]; intros s s' H; cbn [Stop_drain] in H.
  - destruct (NoBarrier_Load (queue_length s) >? 0)%Z; [discriminate|].
    injection H as <-; repeat split.
  - destruct (NoBarrier_Load (queue_length s) >? 0)%Z.
    + bind_inv H. bind_inv H.
      eapply same_signals_trans; [eapply CompileNext_signals; eauto|].
      eapply same_signals_trans; [eapply InstallOptimizedFunctions_signals; eauto|].
      eapply IH; eauto.
    + injection H as <-; repeat split.
Qed.

Lemma Stop_resume_signals s s' :
  Stop_resume cfg s = Done s' ->
  S (stop_semaphore s') = stop_semaphore s /\
  input_queue_semaphore s' = input_queue_semaphore s /\
  stop_thread s' = stop_thread s.
Proof.
  intros H. unfold Stop_resume in H.
  destruct (stop_semaphore s) as [|n] eqn:Hn; [discriminate|].
  destruct (FLAG_parallel_recompilation_delay cfg =? 0)%Z.
  - injection H as <-. repeat split.
  - bind_inv H.
    apply InstallOptimizedFunctions_signals in E as (A1 & A2 & A3).
    apply Stop_drain_signals in H as (B1 & B2 & B3).
    cbn in A1, A2, A3. repeat split; congruence.
Qed.

Lemma step_Handshake a sys sys' :
  step cfg a sys = Done sys' -> Handshake sys -> Handshake sys'.
Proof.
  intros Hstep [Hf Ht Hd Ha Hk Hr].
  destruct sys as [m pc e]; cbn [mem worker exec] in *.
  destruct a; cbn [step mem worker exec] in Hstep.
  - (* A_Queue *)
    destruct e; try discriminate Hstep. bind_inv Hstep. injection Hstep as <-.
    apply QueueForOptimization_Done in E; subst a.
    constructor; st; hs_easy.
    + intros _. specialize (Ht ltac:(discriminate)). cbn in Ht.
      rewrite length_app; cbn [length stop_signalled]. lia.
    + intros _. destruct (input_queue m); discriminate.
  - (* A_Install *)
    destruct e; try discriminate Hstep. bind_inv Hstep. injection Hstep as <-.
    destruct (InstallOptimizedFunctions_spec cfg m) as (t & Ht' & _ & _ & Hctl & _).
    assert (t = a) by congruence; subst t.
    destruct Hctl as (Hi & _ & Hs1 & Hs2 & Hs3).
    constructor; st; rewrite ?Hi, ?Hs1, ?Hs2, ?Hs3; assumption.
  - (* A_Worker *)
    bind_inv Hstep. destruct a as [pc' m']. injection Hstep as <-.
    destruct pc; cbn [Run_step] in E.
    + destruct (input_queue_semaphore m) eqn:Hs; [discriminate|].
      injection E as <- <-.
      constructor; st; hs_easy.
      intros He. specialize (Ht He). cbn in Ht. lia.
    + case_eq (stop_thread m); intros Hs; rewrite Hs in E; injection E as <- <-.
      * constructor; st; hs_easy.
        intros He; subst e. rewrite Hs in Hf; discriminate Hf.
      * constructor; st; hs_easy.
        intros _. destruct e; try (rewrite Hs in Hf; discriminate Hf).
        specialize (Ht ltac:(discriminate)). cbn in Ht.
        destruct (input_queue m); [cbn in Ht; lia|discriminate].
    + injection E as <- <-.
      constructor; st; hs_easy.
      * intros He. destruct (Ha He) as [Hx _]. contradiction.
      * cbn in Hk. rewrite Hk. destruct e; try reflexivity.
        specialize (Hr eq_refl). discriminate Hr.
    + unfold CompileNext_dequeue, input_queue_Dequeue in E.
      cbn [input_queue record] in E.
      destruct (input_queue m) as [|j rest] eqn:Hin; [discriminate|].
      cbn [bind] in E. injection E as <- <-.
      constructor; st; hs_easy.
      intros He. specialize (Ht He). cbn in Ht. cbn. lia.
    + injection E as <- <-.
      constructor; st; hs_easy.
    + bind_inv E. injection E as <- <-.
      apply CompileNext_optimize_Done in E0 as [-> _].
      constructor; st; hs_easy.
    + injection E as <- <-.
      constructor; st; hs_easy.
    + bind_inv E. injection E as <- <-.
      apply CompileNext_mark_Done in E0 as [-> _].
      constructor; st; hs_easy.
    + discriminate E.
  - (* A_StopSignal *)
    destruct e; try discriminate Hstep. injection Hstep as <-.
    constructor; st; hs_easy.
    all: try (intros _; specialize (Ht ltac:(discriminate)); cbn in Ht; cbn; lia).
    all: try (rewrite Hk; destruct pc; reflexivity).
  - (* A_StopResume *)
    destruct e; try discriminate Hstep. bind_inv Hstep. injection Hstep as <-.
    apply Stop_resume_signals in E as (S1 & S2 & S3).
    assert (Hpc : pc = W_Stopped).
    { rewrite Hk in S1. destruct pc; cbn in S1; try discriminate S1. reflexivity. }
    subst pc.
    constructor; st; hs_easy.
    all: try (rewrite S3; exact Hf).
    all: try (intros He; contradiction).
    all: try (rewrite Hk in S1; cbn in S1; cbn; lia).
Qed.
End HandshakePreserved.

Section Reachable.
Variable cfg : Config.

Lemma Stop_resume_worker_stopped sys s :
  Handshake sys -> Stop_resume cfg (mem sys) = Done s -> exec sys <> E_Returned ->
  worker sys = W_Stopped.
Proof.
  intros [_ _ _ _ Hk _] H He. unfold Stop_resume in H.
  destruct (stop_semaphore (mem sys)) eqn:Hs; [discriminate|].
  destruct (worker sys); try reflexivity; cbn in Hk; discriminate Hk.
Qed.

(** Without the caller's obligations: what does not depend on them. *)
Lemma step_Core_Handshake a sys sys' :
  step cfg a sys = Done sys' ->
  Core (worker sys) (mem sys) /\ Handshake sys ->
  Core (worker sys') (mem sys') /\ Handshake sys'.
Proof.
  intros Hstep [HC HH].
  split; [| eapply step_Handshake; eassumption].
  destruct sys as [m pc e]; cbn [mem worker exec] in *.
  destruct a; cbn [step mem worker exec] in Hstep.
  - destruct e; try discriminate Hstep. bind_inv Hstep. injection Hstep as <-.
    st. eapply QueueForOptimization_Core; eassumption.
  - destruct e; try discriminate Hstep. bind_inv Hstep. injection Hstep as <-.
    st. eapply InstallOptimizedFunctions_Core; eassumption.
  - bind_inv Hstep. destruct a as [pc' m']. injection Hstep as <-.
    st. eapply Run_step_Core; eassumption.
  - destruct e; try discriminate Hstep. injection Hstep as <-.
    st. apply Stop_signal_Core; exact HC.
  - destruct e; try discriminate Hstep. bind_inv Hstep. injection Hstep as <-.
    pose proof (Stop_resume_worker_stopped _ _ HH E ltac:(discriminate)) as Hpc.
    cbn in Hpc; subst pc. st.
    eapply Stop_resume_Core; try eassumption; reflexivity.
Qed.

Lemma step_Inv a sys sys' :
  step cfg a sys = Done sys' -> call_ok cfg a sys = true ->
  Inv cfg sys -> Inv cfg sys'.
Proof.
  intros Hstep Hok [HC HH HV].
  destruct (step_Core_Handshake a sys sys' Hstep (conj HC HH)) as [HC' HH'].
  constructor; [exact HC'|exact HH'|].
  intros Hdbg. specialize (HV Hdbg).
  destruct sys as [m pc e]; cbn [mem worker exec] in *.
  destruct a; cbn [step mem worker exec call_ok] in Hstep, Hok.
  - destruct e; try discriminate Hstep. bind_inv Hstep. injection Hstep as <-.
    rewrite Hdbg in Hok; cbn in Hok. st.
    eapply QueueForOptimization_Vetted; eassumption.
  - destruct e; try discriminate Hstep. bind_inv Hstep. injection Hstep as <-.
    st. eapply InstallOptimizedFunctions_Vetted; eassumption.
  - bind_inv Hstep. destruct a as [pc' m']. injection Hstep as <-.
    st. eapply Run_step_Vetted; eassumption.
  - destruct e; try discriminate Hstep. injection Hstep as <-.
    exact HV.
  - destruct e; try discriminate Hstep. bind_inv Hstep. injection Hstep as <-.
    pose proof (Stop_resume_worker_stopped _ _ HH E ltac:(discriminate)) as Hpc.
    cbn in Hpc; subst pc. st. cbn [app] in *.
    eapply Stop_resume_Vetted; eassumption.
Qed.

Lemma run_app s1 s2 sys :
  run cfg (s1 ++ s2) sys = (sys' <- run cfg s1 sys ;; run cfg s2 sys').
Proof.
  revert sys; induction s1 as [|a r IH]; intros sys; cbn; [reflexivity|].
  destruct (step cfg a sys); cbn; [apply IH| | |]; reflexivity.
Qed.

Lemma run_Inv sched :
  forall sys sys',
    run cfg sched sys = Done sys' -> admissible cfg sched sys = true ->
    Inv cfg sys -> Inv cfg sys'.
Proof.
  induction sched as [|a rest IH]; intros sys sys' H Hadm HI; cbn in *.
  - injection H as <-; exact HI.
  - bind_inv H. apply andb_prop in Hadm as [Hok Hadm].
    eapply IH; [exact H|exact Hadm|].
    eapply step_Inv; eassumption.
Qed.

Lemma init_Inv records : Inv cfg (init records).
Proof.
  constructor; [constructor | constructor |]; cbn; try reflexivity;
    try discriminate; try tauto.
  - intros _; split; discriminate.
  - intros _. split; constructor.
Qed.

Lemma run_Core_Handshake sched :
  forall sys sys',
    run cfg sched sys = Done sys' ->
    Core (worker sys) (mem sys) /\ Handshake sys ->
    Core (worker sys') (mem sys') /\ Handshake sys'.
Proof.
  induction sched as [|a rest IH]; intros sys sys' H HI; cbn in *.
  - injection H as <-; exact HI.
  - bind_inv H. eapply IH; [exact H|].
    eapply step_Core_Handshake; eassumption.
Qed.
End Reachable.

Section WorkerWrites.
Variable cfg : Config.

(** Which operation of the worker writes what. *)
Lemma Run_step_writes pc m pc' m' :
  Run_step cfg pc m = Done (pc', m') ->
  queue_length m' =
    match pc with
    | W_Decrement _ => Barrier_AtomicIncrement (queue_length m) (-1)
    | _ => queue_length m
    end /\
  in_recompile_queue m' =
    match pc with
    | W_Mark j => in_recompile_queue (set_in_recompile_queue (closure j) false m)
    | _ => in_recompile_queue m
    end /\
  output_queue m' =
    match pc with
    | W_Enqueue j => output_queue m ++ [j]
    | _ => output_queue m
    end /\
  match pc with
  | W_Dequeue => exists j, pc' = W_Decrement j /\ input_queue m = j :: input_queue m'
  | _ => input_queue m' = input_queue m
  end.
Proof.
  intros Hstep. destruct pc; cbn [Run_step] in Hstep.
  - destruct (input_queue_semaphore m); [discriminate|].
    injection Hstep as <- <-. repeat split.
  - destruct (stop_thread m); injection Hstep as <- <-; repeat split.
  - injection Hstep as <- <-. repeat split.
  - unfold CompileNext_dequeue, input_queue_Dequeue in Hstep.
    cbn [input_queue record] in Hstep.
    destruct (input_queue m) as [|j rest] eqn:Hin; [discriminate|].
    cbn [bind] in Hstep. injection Hstep as <- <-.
    repeat split. exists j; split; reflexivity.
  - injection Hstep as <- <-. repeat split.
  - bind_inv Hstep. injection Hstep as <- <-.
    apply CompileNext_optimize_Done in E as [-> _]. repeat split.
  - injection Hstep as <- <-. repeat split.
  - bind_inv Hstep. injection Hstep as <- <-.
    apply CompileNext_mark_Done in E as [-> _]. repeat split.
  - discriminate Hstep.
Qed.

(** What a successful compile step adds to the trace. *)
Lemma CompileNext_trace s s' :
  CompileNext cfg s = Done s' ->
  exists j rest,
    input_queue s = j :: rest /\
    trace s' = trace s ++
      [EvRelocationLock; EvInputDequeue j; EvOptimizeGraph j;
       EvOutputEnqueue j; EvMarkForInstalling j; EvRelocationUnlock].
Proof.
  intros H. apply CompileNext_Done in H as (j & rest & Hq & _ & ->).
  exists j, rest. split; [exact Hq|]. cbn. rewrite <- !app_assoc. reflexivity.
Qed.
End WorkerWrites.

Section Monitor.
Lemma monitor_rejected l : fold_left publish_flip_step l None = None.
Proof. induction l as [|e r IH]; cbn; [reflexivity|exact IH]. Qed.

(** The monitor holds a job only if the trace ends with the publication of
    that job followed by quiet events. *)
Lemma monitor_holds pre :
  forall k, published_unflipped pre = Some (Some k) ->
  exists a b, pre = a ++ EvOutputEnqueue k :: b /\ Forall quiet b.
Proof.
  induction pre as [|e pre IH] using rev_ind; intros k H.
  - discriminate H.
  - rewrite published_unflipped_app in H. cbn [fold_left] in H.
    destruct (published_unflipped pre) as [[k'|]|] eqn:E; cbn in H.
    + destruct (IH k' eq_refl) as (a & b & Hpre & Hb).
      destruct e; try discriminate H;
        try (injection H as <-;
             match goal with
             | |- exists _ _, _ ++ [?e] = _ /\ _ => exists a, (b ++ [e])
             end;
             split;
             [rewrite Hpre, <- app_assoc; reflexivity|
              apply Forall_app; split; [exact Hb|repeat constructor]]).
      destruct (OptimizingCompiler_eqb j k'); discriminate H.
    + destruct e; try discriminate H.
      injection H as <-. exists pre, []. split; [reflexivity|constructor].
    + discriminate H.
Qed.

(** In a trace that the monitor accepts every flip comes after the
    publication of the same job, with only quiet events between. *)
Lemma publish_then_flip_sound tr pre j post :
  publish_then_flip tr = true ->
  tr = pre ++ EvMarkForInstalling j :: post ->
  exists a b, pre = a ++ EvOutputEnqueue j :: b /\ Forall quiet b.
Proof.
  unfold publish_then_flip. intros H ->.
  rewrite published_unflipped_app in H. cbn [fold_left] in H.
  destruct (published_unflipped pre) as [[k|]|] eqn:E; cbn in H.
  - destruct (OptimizingCompiler_eqb j k) eqn:Ejk.
    + apply OptimizingCompiler_eqb_eq in Ejk; subst k.
      apply monitor_holds; exact E.
    + rewrite monitor_rejected in H. discriminate H.
  - rewrite monitor_rejected in H. discriminate H.
  - rewrite monitor_rejected in H. discriminate H.
Qed.
End Monitor.

(** C1.  In every execution, whatever the interleaving of the two threads
    and whichever thread runs the compile step: the trace of
    shared-memory operations passes the publish-then-flip monitor, that
    is, every [MarkForInstallingRecompiledCode] of a job comes after the
    output-queue enqueue of that same job, with no other enqueue or flip
    between the two; the monitor holds exactly the job that the worker
    has published and not yet marked.  The worker writes a function
    record only at its last operation, which it reaches only from the
    enqueue; and a compile step run as a whole adds its enqueue to the
    trace before its flip. *)
Theorem CompileNext_publish_then_flip (cfg : Config) (records : Closure -> bool)
  (sched : list Action) (sys : System)
  (H : run cfg sched (init records) = Done sys) :
  publish_then_flip (trace (mem sys)) = true /\
  published_unflipped (trace (mem sys)) = Some (unflipped (worker sys)) /\
  (forall pre j post,
      trace (mem sys) = pre ++ EvMarkForInstalling j :: post ->
      exists a b, pre = a ++ EvOutputEnqueue j :: b /\ Forall quiet b) /\
  (forall pc' m',
      Run_step cfg (worker sys) (mem sys) = Done (pc', m') ->
      match worker sys with
      | W_Enqueue j =>
          pc' = W_Mark j /\ output_queue m' = output_queue (mem sys) ++ [j] /\
          in_recompile_queue m' = in_recompile_queue (mem sys)
      | W_Mark j =>
          output_queue m' = output_queue (mem sys) /\
          IsInRecompileQueue m' j = false
      | _ =>
          (forall j, pc' <> W_Mark j) /\
          in_recompile_queue m' = in_recompile_queue (mem sys)
      end) /\
  (forall s', CompileNext cfg (mem sys) = Done s' ->
     exists j rest,
       input_queue (mem sys) = j :: rest /\
       trace s' = trace (mem sys) ++
         [EvRelocationLock; EvInputDequeue j; EvOptimizeGraph j;
          EvOutputEnqueue j; EvMarkForInstalling j; EvRelocationUnlock]).
Proof.
  destruct (run_Core_Handshake cfg sched _ _ H) as [[_ _ _ _ Ho] _].
  { destruct (init_Inv cfg records) as [HC HH _]. split; assumption. }
  assert (Hok : publish_then_flip (trace (mem sys)) = true)
    by (unfold publish_then_flip; rewrite Ho; reflexivity).
  split; [exact Hok|].
  split; [exact Ho|].
  split; [intros pre j post Htr; eapply publish_then_flip_sound; eassumption|].
  split; [|apply CompileNext_trace].
  intros pc' m' Hstep.
  pose proof (Run_step_writes cfg _ _ _ _ Hstep) as (_ & Hrec & Hout & _).
  destruct (worker sys) eqn:Hw; cbn [Run_step] in Hstep.
  - destruct (input_queue_semaphore (mem sys)); [discriminate|].
    injection Hstep as <- <-. split; [discriminate|reflexivity].
  - destruct (stop_thread (mem sys)); injection Hstep as <- <-;
      (split; [discriminate|reflexivity]).
  - injection Hstep as <- <-. split; [discriminate|reflexivity].
  - bind_inv Hstep. destruct a as [j s1]. injection Hstep as <- <-.
    split; [discriminate|exact Hrec].
  - injection Hstep as <- <-. split; [discriminate|reflexivity].
  - bind_inv Hstep. injection Hstep as <- <-. split; [discriminate|exact Hrec].
  - injection Hstep as <- <-. repeat split.
  - split; [exact Hout|]. unfold IsInRecompileQueue. rewrite Hrec. cbn.
    rewrite Nat.eqb_refl; reflexivity.
  - discriminate Hstep.
Qed.

Lemma CompileNext_publish_then_flip_witness :
  run debug_build schedule_ABC (init all_pending) =
    Done (after debug_build schedule_ABC all_pending) /\
  publish_then_flip (trace (mem (after debug_build schedule_ABC all_pending))) = true /\
  installed (mem (after debug_build schedule_ABC all_pending)) = [job_A] /\
  output_queue (mem (after debug_build schedule_ABC all_pending)) = [job_B].
Proof.
  assert (H : run debug_build schedule_ABC (init all_pending) =
              Done (after debug_build schedule_ABC all_pending))
    by (vm_compute; reflexivity).
  split; [exact H|].
  split; [|split; vm_compute; reflexivity].
  exact (proj1 (CompileNext_publish_then_flip debug_build all_pending schedule_ABC
                  (after debug_build schedule_ABC all_pending) H)).
Defined.

Lemma Core_count cfg pc m :
  Core pc m ->
  let n := Z.of_nat (length (input_queue m)) in
  queue_length m = wrap32 (n + uncounted pc) /\
  (uncounted pc = 0 -> n <= Atomic32_MAX -> queue_length m = n)%Z /\
  (forall j m', QueueForOptimization cfg j m = Done m' ->
     input_queue m' = input_queue m ++ [j] /\
     queue_length m' = Barrier_AtomicIncrement (queue_length m) 1 /\
     (queue_length m < Atomic32_MAX -> queue_length m' = queue_length m + 1)%Z) /\
  (forall m', CompileNext cfg m = Done m' ->
     (exists j, input_queue m = j :: input_queue m') /\
     queue_length m' = Barrier_AtomicIncrement (queue_length m) (-1) /\
     (uncounted pc = 0 -> n <= Atomic32_MAX ->
      queue_length m' = queue_length m - 1)%Z).
Proof.
  intros [_ _ Hn _ _]. cbv zeta.
  assert (Hexact : (uncounted pc = 0 ->
                    Z.of_nat (length (input_queue m)) <= Atomic32_MAX ->
                    queue_length m = Z.of_nat (length (input_queue m)))%Z).
  { intros Hu Hle. rewrite Hn, Hu, Z.add_0_r. apply wrap32_id.
    unfold Atomic32_MIN. lia. }
  split; [exact Hn|]. split; [exact Hexact|]. split.
  - intros j m' Hq. apply QueueForOptimization_Done in Hq; subst m'.
    split; [reflexivity|]. split; [reflexivity|].
    intros Hlt. st. unfold Barrier_AtomicIncrement. apply wrap32_id.
    pose proof (wrap32_range (Z.of_nat (length (input_queue m)) + uncounted pc)) as R.
    rewrite <- Hn in R. unfold Atomic32_MIN, Atomic32_MAX in *. lia.
  - intros m' Hc. apply CompileNext_Done in Hc as (j & rest & Hq & _ & ->).
    split; [exists j; exact Hq|]. split; [reflexivity|].
    intros Hu Hle. st. unfold Barrier_AtomicIncrement. apply wrap32_id.
    rewrite (Hexact Hu Hle). unfold Atomic32_MIN, Atomic32_MAX in *.
    rewrite Hq in Hle |- *. cbn [length] in Hle |- *. lia.
Qed.

(** C8.  The pending count follows the input queue.  In every reachable
    state it is the length of the input queue, plus one while the worker
    stands between its dequeue and its decrement, in 32-bit arithmetic; at
    the other points it is that length itself whenever the length fits an
    [Atomic32].  [QueueForOptimization] appends one job and adds one;
    [CompileNext] removes the front job and subtracts one;
    [InstallOptimizedFunctions], the two halves of [Stop] without the drain
    fallback, and every worker operation other than the decrement leave the
    count as it is. *)
Theorem queue_length_tracks_input_queue (cfg : Config) (records : Closure -> bool)
  (sched : list Action) (sys : System)
  (H : run cfg sched (init records) = Done sys) :
  let m := mem sys in
  let n := Z.of_nat (length (input_queue m)) in
  queue_length m = wrap32 (n + uncounted (worker sys)) /\
  (uncounted (worker sys) = 0 -> n <= Atomic32_MAX -> queue_length m = n)%Z /\
  (forall j m', QueueForOptimization cfg j m = Done m' ->
     input_queue m' = input_queue m ++ [j] /\
     queue_length m' = Barrier_AtomicIncrement (queue_length m) 1 /\
     (queue_length m < Atomic32_MAX -> queue_length m' = queue_length m + 1)%Z) /\
  (forall m', CompileNext cfg m = Done m' ->
     (exists j, input_queue m = j :: input_queue m') /\
     queue_length m' = Barrier_AtomicIncrement (queue_length m) (-1) /\
     (uncounted (worker sys) = 0 -> n <= Atomic32_MAX ->
      queue_length m' = queue_length m - 1)%Z) /\
  (forall m', InstallOptimizedFunctions cfg m = Done m' ->
     input_queue m' = input_queue m /\ queue_length m' = queue_length m) /\
  (input_queue (Stop_signal m) = input_queue m /\
   queue_length (Stop_signal m) = queue_length m) /\
  (forall m', FLAG_parallel_recompilation_delay cfg = 0%Z ->
     Stop_resume cfg m = Done m' ->
     input_queue m' = input_queue m /\ queue_length m' = queue_length m) /\
  (forall pc' m', Run_step cfg (worker sys) m = Done (pc', m') ->
     queue_length m' =
       match worker sys with
       | W_Decrement _ => Barrier_AtomicIncrement (queue_length m) (-1)
       | _ => queue_length m
       end).
Proof.
  intros m n. subst m n.
  destruct (run_Core_Handshake cfg sched _ _ H) as [HC _].
  { destruct (init_Inv cfg records) as [HC HH _]. split; assumption. }
  destruct (Core_count cfg _ _ HC) as (C1 & C2 & C3 & C4).
  split; [exact C1|]. split; [exact C2|]. split; [exact C3|]. split; [exact C4|].
  split; [|split; [|split]].
  - intros m' Hi.
    destruct (InstallOptimizedFunctions_spec cfg (mem sys))
      as (t & Ht & _ & _ & Hctl & _).
    assert (t = m') by congruence; subst t.
    destruct Hctl as (Hi1 & Hi2 & _). split; assumption.
  - split; reflexivity.
  - intros m' Hd Hr. unfold Stop_resume in Hr.
    destruct (stop_semaphore (mem sys)); [discriminate|].
    rewrite Hd in Hr. cbn in Hr. injection Hr as <-. split; reflexivity.
  - intros pc' m' Hs. apply (Run_step_writes cfg _ _ _ _ Hs).
Qed.

Lemma queue_length_tracks_input_queue_witness :
  run release_build schedule_queued (init all_pending) =
    Done (after release_build schedule_queued all_pending) /\
  queue_length (mem (after release_build schedule_queued all_pending)) = 3%Z /\
  length (input_queue (mem (after release_build schedule_queued all_pending))) = 3.
Proof.
  assert (H : run release_build schedule_queued (init all_pending) =
              Done (after release_build schedule_queued all_pending))
    by (vm_compute; reflexivity).
  split; [exact H|]. split; [|vm_compute; reflexivity].
  apply (proj1 (proj2 (queue_length_tracks_input_queue release_build all_pending
                         schedule_queued
                         (after release_build schedule_queued all_pending) H))).
  - vm_compute; reflexivity.
  - vm_compute; discriminate.
Defined.

Section Progress.
Variable cfg : Config.

Lemma Vetted_head m j l :
  Vetted m (j :: l) ->
  IsInRecompileQueue m j = true /\ OptimizeGraph j <> FAILED.
Proof. intros [_ Hall]. inversion Hall; subst; assumption. Qed.

Lemma CompileNext_asserts_vetted m j :
  (DEBUG cfg = true ->
   IsInRecompileQueue m j = true /\ OptimizeGraph j <> FAILED) ->
  CompileNext_asserts cfg m j = true.
Proof.
  intros H. unfold CompileNext_asserts.
  destruct (DEBUG cfg); [|reflexivity]. destruct (H eq_refl) as [-> Hs].
  cbn. destruct (OptimizeGraph j); [contradiction|reflexivity].
Qed.

(** The worker is never stopped by an assertion or an empty queue; it
    only ever waits at its semaphore. *)
Lemma worker_progress sys :
  Inv cfg sys -> worker sys <> W_Stopped ->
  (worker sys = W_Wait -> input_queue_semaphore (mem sys) <> 0) ->
  exists sys', step cfg A_Worker sys = Done sys'.
Proof.
  intros [_ HH HV] Hns Hsem.
  destruct sys as [m pc e]; cbn [mem worker exec step] in *.
  destruct pc; cbn [Run_step in_flight app] in *.
  - destruct (input_queue_semaphore m); [exfalso; apply Hsem; reflexivity|].
    eexists; reflexivity.
  - destruct (stop_thread m); eexists; reflexivity.
  - eexists; reflexivity.
  - destruct HH as [_ _ Hd _ _ _]. cbn in Hd.
    unfold CompileNext_dequeue, input_queue_Dequeue. cbn [input_queue record].
    destruct (input_queue m); [exfalso; apply Hd; reflexivity|].
    eexists; reflexivity.
  - eexists; reflexivity.
  - unfold CompileNext_optimize, ASSERT.
    destruct (DEBUG cfg); [|eexists; reflexivity].
    destruct (Vetted_head _ _ _ (HV eq_refl)) as [-> Hs]. cbn.
    destruct (OptimizeGraph j); [contradiction|]. eexists; reflexivity.
  - eexists; reflexivity.
  - unfold CompileNext_mark, ASSERT.
    destruct (DEBUG cfg); [|eexists; reflexivity].
    destruct (Vetted_head _ _ _ (HV eq_refl)) as [-> Hs]. cbn.
    eexists; reflexivity.
  - contradiction.
Qed.

Lemma Run_step_frame pc m pc' m' :
  Run_step cfg pc m = Done (pc', m') ->
  queued m' = queued m /\ installed m' = installed m.
Proof.
  intros Hstep. destruct pc; cbn [Run_step] in Hstep.
  - destruct (input_queue_semaphore m); [discriminate|].
    injection Hstep as <- <-. split; reflexivity.
  - destruct (stop_thread m); injection Hstep as <- <-; split; reflexivity.
  - injection Hstep as <- <-. split; reflexivity.
  - unfold CompileNext_dequeue, input_queue_Dequeue in Hstep.
    cbn [input_queue record] in Hstep.
    destruct (input_queue m) as [|j rest] eqn:Hin; [discriminate|].
    cbn [bind] in Hstep. injection Hstep as <- <-. split; logs; reflexivity.
  - injection Hstep as <- <-. split; reflexivity.
  - bind_inv Hstep. injection Hstep as <- <-.
    apply CompileNext_optimize_Done in E as [-> _]. split; logs; reflexivity.
  - injection Hstep as <- <-. split; logs; reflexivity.
  - bind_inv Hstep. injection Hstep as <- <-.
    apply CompileNext_mark_Done in E as [-> _]. split; logs; reflexivity.
  - discriminate Hstep.
Qed.

(** With no stop requested every worker operation brings the worker one
    step closer to an empty input queue. *)
Lemma work_left_step sys sys' :
  Handshake sys -> exec sys = E_Running ->
  step cfg A_Worker sys = Done sys' ->
  S (work_left (worker sys') (length (input_queue (mem sys')))) =
    work_left (worker sys) (length (input_queue (mem sys))) /\
  exec sys' = E_Running.
Proof.
  intros [Hf Ht Hd Ha _ _] He Hstep.
  destruct sys as [m pc e]; cbn [mem worker exec step] in *. subst e.
  bind_inv Hstep. destruct a as [pc' m']. injection Hstep as <-.
  cbn [mem worker exec]. split; [|reflexivity].
  specialize (Ht ltac:(discriminate)). cbn [stop_signalled] in Ht.
  pose proof (Run_step_writes cfg _ _ _ _ E) as (_ & _ & _ & Hin).
  destruct pc; cbn [Run_step token] in *.
  - destruct (input_queue_semaphore m) eqn:Hs; [discriminate|].
    injection E as <- <-. cbn [work_left]. rewrite Hin. lia.
  - rewrite Hf in E. injection E as <- <-. cbn [work_left]. lia.
  - destruct (Ha eq_refl) as [Hx _]; contradiction.
  - destruct Hin as (j & -> & Hin). rewrite Hin. cbn [work_left length]. lia.
  - injection E as <- <-. cbn [work_left]. rewrite Hin. lia.
  - bind_inv E. injection E as <- <-. cbn [work_left]. rewrite Hin. lia.
  - injection E as <- <-. cbn [work_left]. rewrite Hin. lia.
  - bind_inv E. injection E as <- <-. cbn [work_left]. rewrite Hin. lia.
  - discriminate E.
Qed.

Lemma worker_quiesce k :
  forall sys,
    Inv cfg sys -> exec sys = E_Running ->
    work_left (worker sys) (length (input_queue (mem sys))) = k ->
    exists sys',
      run cfg (repeat A_Worker k) sys = Done sys' /\
      worker sys' = W_Wait /\ input_queue (mem sys') = [] /\
      exec sys' = E_Running /\ Inv cfg sys' /\
      queued (mem sys') = queued (mem sys).
Proof.
  induction k as [|k IH]; intros sys HI He Hk.
  - exists sys. cbn [repeat run].
    assert (Hw : worker sys = W_Wait /\ input_queue (mem sys) = []).
    { pose proof (inv_handshake _ _ HI) as [_ Ht Hd Ha _ _].
      specialize (Ht ltac:(rewrite He; discriminate)). rewrite He in Ht.
      cbn [stop_signalled] in Ht. destruct (Ha He) as [Ha1 Ha2].
      destruct (worker sys) eqn:Hw; cbn [work_left token] in *;
        try contradiction; try lia.
      split; [reflexivity|].
      destruct (input_queue (mem sys)); [reflexivity|cbn in Hk; lia]. }
    destruct Hw as [Hw Hin].
    split; [reflexivity|]. split; [exact Hw|]. split; [exact Hin|].
    split; [exact He|]. split; [exact HI|reflexivity].
  - assert (Hns : worker sys <> W_Stopped).
    { intros Hw; rewrite Hw in Hk; discriminate Hk. }
    assert (Hsem : worker sys = W_Wait -> input_queue_semaphore (mem sys) <> 0).
    { intros Hw. destruct HI as [_ [_ Ht _ _ _ _] _].
      specialize (Ht ltac:(rewrite He; discriminate)).
      rewrite He, Hw in Ht. rewrite Hw in Hk. cbn in Ht, Hk. lia. }
    destruct (worker_progress sys HI Hns Hsem) as (sys1 & Hstep).
    destruct (work_left_step sys sys1 (inv_handshake _ _ HI) He Hstep) as [Hwl He1].
    assert (HI1 : Inv cfg sys1) by (eapply step_Inv; eauto).
    destruct (IH sys1 HI1 He1 ltac:(lia)) as (sys' & Hrun & Hw & Hin & He' & HI' & Hq).
    exists sys'. cbn [repeat run]. rewrite Hstep. cbn [bind].
    split; [exact Hrun|]. split; [exact Hw|]. split; [exact Hin|].
    split; [exact He'|]. split; [exact HI'|].
    rewrite Hq. cbn [step] in Hstep. bind_inv Hstep. destruct a as [pc' m'].
    injection Hstep as <-. cbn [mem].
    apply (Run_step_frame _ _ _ _ E).
Qed.
End Progress.

Section Liveness.
Variable cfg : Config.

(** When every published job is marked, one call of the installer empties
    the output queue. *)
Lemma InstallOptimizedFunctions_all s :
  (forall j, In j (output_queue s) -> IsInRecompileQueue s j = false) ->
  exists s',
    InstallOptimizedFunctions cfg s = Done s' /\
    output_queue s' = [] /\
    installed s' = installed s ++ output_queue s /\
    queued s' = queued s /\ compiled s' = compiled s /\
    same_control s s' /\ same_records s s'.
Proof.
  intros Hall.
  destruct (InstallOptimizedFunctions_spec cfg s) as (s' & Hrun & Hout & Htr & Hctl & Hrec).
  assert (HF : Forall (fun j => eligible s j = true) (output_queue s)).
  { apply Forall_forall. intros j Hj. unfold eligible. rewrite (Hall j Hj). reflexivity. }
  rewrite (takeWhile_all _ _ HF) in Htr. rewrite (dropWhile_all _ _ HF) in Hout.
  exists s'. split; [exact Hrun|]. split; [exact Hout|].
  rewrite (installed_app _ _ _ Htr), (queued_app _ _ _ Htr), (compiled_app _ _ _ Htr).
  rewrite install_events_installed, install_events_queued, install_events_compiled.
  rewrite !app_nil_r. repeat split; try assumption; apply Hctl.
Qed.

Lemma Core_idle_ready pc m :
  unflipped pc = None -> Core pc m ->
  forall j, In j (output_queue m) -> IsInRecompileQueue m j = false.
Proof.
  intros Hu [_ _ _ Hr _] j Hj. destruct (Hr j Hj) as [H|(k & Hk & _)]; [exact H|].
  rewrite Hu in Hk; discriminate Hk.
Qed.
End Liveness.

(** C3.  Take any interleaving of [QueueForOptimization] calls, worker
    operations and [InstallOptimizedFunctions] calls in which the caller
    keeps its obligations.  At every moment the jobs queued so far are, in
    the order they were queued: those installed, then those in the output
    queue, then the one the worker holds, then those in the input queue; and
    the jobs compiled so far are those installed, those in the output queue
    and the one compiled but not yet published.  So no job is lost,
    compiled twice or installed twice, and installation follows the order of
    queueing.  The worker is never stuck while a job is queued; and once the
    worker has done its remaining operations, one call of the installer
    leaves every job that was queued compiled and installed, both queues
    empty. *)
Theorem every_job_installed_once_in_order (cfg : Config) (records : Closure -> bool)
  (sched : list Action) (sys : System)
  (H : run cfg sched (init records) = Done sys)
  (Hadm : admissible cfg sched (init records) = true)
  (Hrun : exec sys = E_Running) :
  queued (mem sys) =
    installed (mem sys) ++ output_queue (mem sys) ++
    held (worker sys) ++ input_queue (mem sys) /\
  compiled (mem sys) =
    installed (mem sys) ++ output_queue (mem sys) ++ held_compiled (worker sys) /\
  ((worker sys = W_Wait /\ input_queue (mem sys) = []) \/
   exists sys1, step cfg A_Worker sys = Done sys1) /\
  exists sys',
    run cfg
      (repeat A_Worker (work_left (worker sys) (length (input_queue (mem sys))))
       ++ [A_Install]) sys = Done sys' /\
    queued (mem sys') = queued (mem sys) /\
    compiled (mem sys') = queued (mem sys) /\
    installed (mem sys') = queued (mem sys) /\
    input_queue (mem sys') = [] /\
    output_queue (mem sys') = [].
Proof.
  assert (HI : Inv cfg sys) by (eapply run_Inv; eauto using init_Inv).
  pose proof (inv_core _ _ HI) as HC.
  split; [apply HC|]. split; [apply HC|]. split.
  - pose proof (inv_handshake _ _ HI) as [_ Ht _ Ha _ _].
    specialize (Ht ltac:(rewrite Hrun; discriminate)). rewrite Hrun in Ht.
    cbn [stop_signalled] in Ht. destruct (Ha Hrun) as [_ Hns].
    destruct (input_queue_semaphore (mem sys)) eqn:Hs.
    + destruct (worker sys) eqn:Hw; cbn [token] in Ht;
        try (right; apply worker_progress; [exact HI|rewrite Hw; discriminate|
                                            rewrite Hw; discriminate]).
      * left. split; [reflexivity|].
        destruct (input_queue (mem sys)); [reflexivity|cbn in Ht; lia].
      * contradiction.
    + right. apply worker_progress; [exact HI|exact Hns|].
      intros _. rewrite Hs. discriminate.
  - destruct (worker_quiesce cfg _ sys HI Hrun eq_refl)
      as (sys1 & Hrun1 & Hw & Hin & He & HI1 & Hq).
    pose proof (inv_core _ _ HI1) as HC1. rewrite Hw in HC1.
    destruct (InstallOptimizedFunctions_all cfg (mem sys1))
      as (m' & Hinst & Hout & Hi & Hq' & Hc' & Hctl & _).
    { apply (Core_idle_ready W_Wait); [reflexivity|exact HC1]. }
    exists {| mem := m'; worker := worker sys1; exec := E_Running |}.
    split.
    { rewrite run_app, Hrun1. cbn [bind run step]. rewrite He, Hinst. reflexivity. }
    cbn [mem]. destruct HC1 as [Cq Cc _ _ _]. rewrite Hin in Cq.
    cbn [held held_compiled] in Cq, Cc. rewrite !app_nil_r in Cq, Cc.
    destruct Hctl as (Hi' & _).
    split; [congruence|]. split; [congruence|]. split; [congruence|].
    split; [congruence|exact Hout].
Qed.

Lemma every_job_installed_once_in_order_witness :
  run debug_build schedule_ABC (init all_pending) =
    Done (after debug_build schedule_ABC all_pending) /\
  admissible debug_build schedule_ABC (init all_pending) = true /\
  work_left (worker (after debug_build schedule_ABC all_pending))
    (length (input_queue (mem (after debug_build schedule_ABC all_pending)))) = 7 /\
  exists sys',
    run debug_build (repeat A_Worker 7 ++ [A_Install])
      (after debug_build schedule_ABC all_pending) = Done sys' /\
    installed (mem sys') = [job_A; job_B; job_C].
Proof.
  assert (H : run debug_build schedule_ABC (init all_pending) =
              Done (after debug_build schedule_ABC all_pending))
    by (vm_compute; reflexivity).
  assert (Hadm : admissible debug_build schedule_ABC (init all_pending) = true)
    by (vm_compute; reflexivity).
  assert (Hk : work_left (worker (after debug_build schedule_ABC all_pending))
                 (length (input_queue (mem (after debug_build schedule_ABC all_pending))))
               = 7) by (vm_compute; reflexivity).
  split; [exact H|]. split; [exact Hadm|]. split; [exact Hk|].
  destruct (every_job_installed_once_in_order debug_build all_pending schedule_ABC
              (after debug_build schedule_ABC all_pending) H Hadm
              ltac:(vm_compute; reflexivity))
    as (_ & _ & _ & sys' & Hrun & _ & _ & Hinst & _).
  rewrite Hk in Hrun.
  exists sys'. split; [exact Hrun|]. rewrite Hinst. vm_compute. reflexivity.
Defined.

Section Stopping.
Variable cfg : Config.

(** Once the flag is set every worker operation brings the worker one step
    closer to its exit, and changes neither what will have been compiled
    nor what will be left in the input queue. *)
Lemma stopping_step sys sys' :
  stop_thread (mem sys) = true ->
  step cfg A_Worker sys = Done sys' ->
  stop_thread (mem sys') = true /\
  S (stop_distance (worker sys')) = stop_distance (worker sys) /\
  exec sys' = exec sys /\
  compiled (mem sys') ++ to_compile (worker sys') (mem sys') =
    compiled (mem sys) ++ to_compile (worker sys) (mem sys) /\
  kept (worker sys') (mem sys') = kept (worker sys) (mem sys) /\
  queued (mem sys') = queued (mem sys) /\
  installed (mem sys') = installed (mem sys) /\
  (worker sys <> W_Wait ->
   input_queue_semaphore (mem sys') = input_queue_semaphore (mem sys)) /\
  stop_semaphore (mem sys') =
    match worker sys with
    | W_SignalStop => S (stop_semaphore (mem sys))
    | _ => stop_semaphore (mem sys)
    end.
Proof.
  intros Hf Hstep.
  destruct sys as [m pc e]; cbn [mem worker exec step] in *.
  bind_inv Hstep. destruct a as [pc' m']. injection Hstep as <-.
  cbn [mem worker exec].
  destruct pc; cbn [Run_step] in E.
  - destruct (input_queue_semaphore m); [discriminate|].
    injection E as <- <-. repeat split; try assumption. intros Hc; contradiction.
  - rewrite Hf in E. injection E as <- <-. repeat split; assumption.
  - injection E as <- <-. repeat split; assumption.
  - unfold CompileNext_dequeue, input_queue_Dequeue in E.
    cbn [input_queue record] in E.
    destruct (input_queue m) as [|j rest] eqn:Hin; [discriminate|].
    cbn [bind] in E. injection E as <- <-.
    cbn [to_compile kept stop_distance]. rewrite Hin. cbn [firstn tl].
    repeat split; try assumption; logs; reflexivity.
  - injection E as <- <-. repeat split; assumption.
  - bind_inv E. injection E as <- <-.
    apply CompileNext_optimize_Done in E0 as [-> _].
    cbn [to_compile kept stop_distance].
    repeat split; try assumption; logs; rewrite ?app_nil_r; reflexivity.
  - injection E as <- <-. cbn [to_compile kept stop_distance].
    repeat split; try assumption; logs; reflexivity.
  - bind_inv E. injection E as <- <-.
    apply CompileNext_mark_Done in E0 as [-> _].
    cbn [to_compile kept stop_distance].
    repeat split; try assumption; logs; reflexivity.
  - discriminate E.
Qed.

(** No worker operation is a bounded loop. *)
Lemma worker_step_no_timeout sys : step cfg A_Worker sys <> Timeout.
Proof.
  destruct sys as [m pc e]; cbn [step mem worker exec].
  destruct pc; cbn [Run_step].
  - destruct (input_queue_semaphore m); discriminate.
  - destruct (stop_thread m); discriminate.
  - discriminate.
  - unfold CompileNext_dequeue, input_queue_Dequeue. cbn [input_queue record].
    destruct (input_queue m); discriminate.
  - discriminate.
  - unfold CompileNext_optimize, ASSERT.
    destruct (DEBUG cfg); cbn; [|discriminate].
    destruct (IsInRecompileQueue m j); cbn; [|discriminate].
    destruct (OptimizeGraph j); cbn; discriminate.
  - discriminate.
  - unfold CompileNext_mark, ASSERT.
    destruct (DEBUG cfg); cbn; [|discriminate].
    destruct (IsInRecompileQueue m j); cbn; discriminate.
  - discriminate.
Qed.

Lemma Run_unfold fuel sys :
  worker sys <> W_Stopped ->
  Run cfg (S fuel) sys = (sys' <- step cfg A_Worker sys ;; Run cfg fuel sys').
Proof. intros H. cbn [Run]. destruct (worker sys); try reflexivity. contradiction. Qed.

Lemma Run_stopped fuel sys :
  worker sys = W_Stopped -> Run cfg fuel sys = Done sys.
Proof. intros H. destruct fuel; cbn [Run]; rewrite H; reflexivity. Qed.

(** With the flag set the worker's loop ends within [stop_distance]
    operations, unless one of them does not return. *)
Lemma Run_stopping fuel :
  forall sys,
    stop_thread (mem sys) = true ->
    stop_distance (worker sys) <= fuel ->
    Run cfg fuel sys <> Timeout /\
    forall sys2, Run cfg fuel sys = Done sys2 ->
      worker sys2 = W_Stopped /\ exec sys2 = exec sys /\
      stop_thread (mem sys2) = true /\
      compiled (mem sys2) = compiled (mem sys) ++ to_compile (worker sys) (mem sys) /\
      input_queue (mem sys2) = kept (worker sys) (mem sys) /\
      queued (mem sys2) = queued (mem sys) /\
      installed (mem sys2) = installed (mem sys) /\
      stop_semaphore (mem sys2) =
        match worker sys with
        | W_Stopped => stop_semaphore (mem sys)
        | _ => S (stop_semaphore (mem sys))
        end.
Proof.
  induction fuel as [|fuel IH]; intros sys Hf Hd.
  - destruct (worker sys) eqn:Hw; cbn in Hd; try lia.
    cbn [Run]. rewrite Hw. split; [discriminate|].
    intros sys2 H2; injection H2 as <-. rewrite Hw. cbn [to_compile kept].
    rewrite app_nil_r. repeat split; assumption.
  - assert (Hcase : worker sys = W_Stopped \/ worker sys <> W_Stopped)
      by (destruct (worker sys); auto; right; discriminate).
    destruct Hcase as [Hw|Hw].
    + rewrite (Run_stopped _ _ Hw). split; [discriminate|].
      intros sys2 H2; injection H2 as <-. rewrite Hw. cbn [to_compile kept].
      rewrite app_nil_r. repeat split; assumption.
    + rewrite (Run_unfold _ _ Hw).
      pose proof (worker_step_no_timeout sys) as Hnot.
      destruct (step cfg A_Worker sys) as [sys1| | |] eqn:Hstep; cbn [bind];
        try (split; [discriminate|intros ? ?; discriminate]);
        try contradiction.
      destruct (stopping_step sys sys1 Hf Hstep)
        as (Hf1 & Hd1 & He1 & Hc1 & Hk1 & Hq1 & Hi1 & _ & Hs1).
      destruct (IH sys1 Hf1 ltac:(lia)) as [Hnt Hdone].
      split; [exact Hnt|].
      intros sys2 H2.
      destruct (Hdone sys2 H2) as (Gw & Ge & Gf & Gc & Gk & Gq & Gi & Gs).
      split; [exact Gw|]. split; [congruence|]. split; [exact Gf|].
      split; [congruence|]. split; [congruence|]. split; [congruence|].
      split; [congruence|].
      rewrite Gs, Hs1.
      destruct (worker sys), (worker sys1); cbn in Hd1;
        try discriminate Hd1; try reflexivity; contradiction.
Qed.
End Stopping.

(** C7.  [Stop] stores the flag and signals the input semaphore.  From then
    on: a worker that is at its wait, or has woken and not yet read the
    flag, reads the flag set, signals the stop acknowledgement and leaves
    its loop, and neither queue, the pending count, any function record nor
    the trace of calls has changed; a worker at any other position leaves
    its loop within [Stop_fuel] operations if every operation returns, and
    by then it has handed to the compile step at most one job, the one of
    the iteration it had begun, and has taken from the input queue at most
    that job. *)
Theorem worker_stops_after_stop_signal (cfg : Config) (sys : System)
  (Hrun : exec sys = E_Running) :
  let sys1 := stop_signalled_system sys in
  step cfg A_StopSignal sys = Done sys1 /\
  stop_thread (mem sys1) = true /\
  input_queue_semaphore (mem sys1) = S (input_queue_semaphore (mem sys)) /\
  (worker sys = W_Wait \/ worker sys = W_Check ->
   exists sys2,
     Run cfg Stop_fuel sys1 = Done sys2 /\
     worker sys2 = W_Stopped /\
     stop_semaphore (mem sys2) = S (stop_semaphore (mem sys)) /\
     input_queue (mem sys2) = input_queue (mem sys) /\
     output_queue (mem sys2) = output_queue (mem sys) /\
     queue_length (mem sys2) = queue_length (mem sys) /\
     in_recompile_queue (mem sys2) = in_recompile_queue (mem sys) /\
     trace (mem sys2) = trace (mem sys)) /\
  Run cfg Stop_fuel sys1 <> Timeout /\
  (forall sys2,
     Run cfg Stop_fuel sys1 = Done sys2 ->
     worker sys2 = W_Stopped /\
     (worker sys <> W_Stopped ->
      stop_semaphore (mem sys2) = S (stop_semaphore (mem sys))) /\
     compiled (mem sys2) = compiled (mem sys) ++ to_compile (worker sys) (mem sys) /\
     length (to_compile (worker sys) (mem sys)) <= 1 /\
     input_queue (mem sys2) = kept (worker sys) (mem sys) /\
     installed (mem sys2) = installed (mem sys) /\
     queued (mem sys2) = queued (mem sys)).
Proof.
  intros sys1. subst sys1.
  split; [cbn [step]; rewrite Hrun; reflexivity|].
  split; [reflexivity|]. split; [reflexivity|].
  split; [|split].
  - destruct sys as [m pc e]. cbn [mem worker exec stop_signalled_system] in *.
    intros [-> | ->].
    + eexists. split; [cbn; reflexivity|]. cbn. repeat split; reflexivity.
    + eexists. split; [cbn; reflexivity|]. cbn. repeat split; reflexivity.
  - apply Run_stopping; [reflexivity|].
    cbn [stop_signalled_system worker]. unfold Stop_fuel.
    destruct (worker sys); cbn; lia.
  - intros sys2 H2.
    destruct (Run_stopping cfg Stop_fuel (stop_signalled_system sys)) as [_ Hd];
      [reflexivity| |].
    { cbn [stop_signalled_system worker]. unfold Stop_fuel.
      destruct (worker sys); cbn; lia. }
    destruct (Hd sys2 H2) as (Gw & _ & _ & Gc & Gk & Gq & Gi & Gs).
    cbn [stop_signalled_system worker mem] in *.
    split; [exact Gw|]. split.
    { intros Hns. rewrite Gs. destruct (worker sys); try reflexivity. contradiction. }
    split; [exact Gc|]. split.
    { destruct (worker sys); cbn [to_compile length]; try lia.
      destruct (input_queue (mem sys)); cbn; lia. }
    split; [exact Gk|]. split; [exact Gi|exact Gq].
Qed.

Lemma worker_stops_after_stop_signal_witness :
  let sys := after release_build schedule_queued all_pending in
  exec sys = E_Running /\
  input_queue (mem sys) = [job_A; job_B; job_C] /\
  exists sys2,
    Run release_build Stop_fuel (stop_signalled_system sys) = Done sys2 /\
    worker sys2 = W_Stopped /\
    input_queue (mem sys2) = [job_A; job_B; job_C] /\
    trace (mem sys2) = trace (mem sys).
Proof.
  intros sys.
  assert (Hrun : exec sys = E_Running) by (vm_compute; reflexivity).
  split; [exact Hrun|]. split; [vm_compute; reflexivity|].
  destruct (worker_stops_after_stop_signal release_build sys Hrun)
    as (_ & _ & _ & Hwait & _).
  destruct (Hwait ltac:(left; vm_compute; reflexivity))
    as (sys2 & H1 & H2 & _ & H3 & _ & _ & _ & H4).
  exists sys2. split; [exact H1|]. split; [exact H2|].
  split; [rewrite H3; vm_compute; reflexivity|exact H4].
Defined.

Section StopCall.
Variable cfg : Config.

Lemma CompileNext_done_logs j rest s :
  queued (CompileNext_done j rest s) = queued s /\
  compiled (CompileNext_done j rest s) = compiled s ++ [j] /\
  installed (CompileNext_done j rest s) = installed s.
Proof. repeat split; logs; reflexivity. Qed.

(** The fallback loop of [Stop], entered with an empty output queue and a
    pending count that is the length of the input queue: it compiles and
    installs every queued job, in order, and ends with the count at
    zero. *)
Lemma Stop_drain_all l :
  forall fuel s,
    input_queue s = l -> output_queue s = [] ->
    queue_length s = Z.of_nat (length l) ->
    (Z.of_nat (length l) <= Atomic32_MAX)%Z ->
    (DEBUG cfg = true -> Vetted s l) ->
    length l <= fuel ->
    exists s',
      Stop_drain cfg fuel s = Done s' /\
      input_queue s' = [] /\ output_queue s' = [] /\
      queue_length s' = 0%Z /\
      installed s' = installed s ++ l /\
      compiled s' = compiled s ++ l /\
      queued s' = queued s /\
      same_signals s s'.
Proof.
  induction l as [|j rest IH]; intros fuel s Hin Hout Hql Hfit HV Hfuel.
  - exists s. split.
    { destruct fuel; cbn [Stop_drain]; unfold NoBarrier_Load; rewrite Hql; reflexivity. }
    rewrite !app_nil_r. repeat split; assumption.
  - destruct fuel as [|fuel]; [cbn in Hfuel; lia|].
    cbn [Stop_drain]. unfold NoBarrier_Load. rewrite Hql.
    replace (Z.of_nat (length (j :: rest)) >? 0)%Z with true
      by (symmetry; apply Z.gtb_lt; cbn [length]; lia).
    pose proof (CompileNext_cases cfg s) as HC. rewrite Hin in HC.
    rewrite CompileNext_asserts_vetted in HC
      by (intros Hd; exact (Vetted_head _ _ _ (HV Hd))).
    rewrite HC. cbn [bind].
    set (s1 := CompileNext_done j rest s).
    destruct (InstallOptimizedFunctions_all cfg s1)
      as (s2 & Hinst & Hout2 & Hi2 & Hq2 & Hc2 & Hctl & Hrec).
    { intros k Hk. subst s1. st. rewrite Hout in Hk. cbn in Hk.
      destruct Hk as [<-|[]]. rewrite Nat.eqb_refl. reflexivity. }
    rewrite Hinst. cbn [bind].
    destruct Hctl as (Ci & Cl & Cs1 & Cs2 & Cs3).
    destruct (IH fuel s2) as (s' & Hrun & R1 & R2 & R3 & R4 & R5 & R6 & R7).
    + rewrite Ci. reflexivity.
    + exact Hout2.
    + rewrite Cl. subst s1. st. unfold Barrier_AtomicIncrement. rewrite Hql.
      rewrite wrap32_id; unfold Atomic32_MIN, Atomic32_MAX in *;
        cbn [length] in *; lia.
    + cbn [length] in Hfit. lia.
    + intros Hd. apply (Vetted_same_records s1); [exact Hrec|].
      subst s1. unfold CompileNext_done.
      apply Vetted_tail.
      apply (Vetted_same_records s); [intros c; reflexivity|exact (HV Hd)].
    + cbn [length] in Hfuel. lia.
    + exists s'. split; [exact Hrun|].
      destruct (CompileNext_done_logs j rest s) as (L1 & L2 & L3). fold s1 in L1, L2, L3.
      split; [exact R1|]. split; [exact R2|]. split; [exact R3|].
      split; [rewrite R4, Hi2, L3; subst s1; st; rewrite Hout; cbn;
              rewrite <- app_assoc; reflexivity|].
      split; [rewrite R5, Hc2, L2, <- app_assoc; reflexivity|].
      split; [congruence|].
      destruct R7 as (T1 & T2 & T3).
      split; [rewrite T1, Cs1; reflexivity|].
      split; [rewrite T2, Cs2; reflexivity|rewrite T3, Cs3; reflexivity].
Qed.

(** Once the flag is set the worker leaves its loop, whatever it was
    doing, and the invariants still hold. *)
Lemma Run_stops fuel :
  forall sys,
    Inv cfg sys -> exec sys = E_StopWait ->
    stop_distance (worker sys) <= fuel ->
    exists sys2,
      Run cfg fuel sys = Done sys2 /\ Inv cfg sys2 /\
      worker sys2 = W_Stopped /\ exec sys2 = E_StopWait.
Proof.
  induction fuel as [|fuel IH]; intros sys HI He Hd.
  - exists sys. destruct (worker sys) eqn:Hw; cbn in Hd; try lia.
    rewrite (Run_stopped cfg 0 sys Hw).
    split; [reflexivity|]. split; [exact HI|]. split; [reflexivity|exact He].
  - assert (Hcase : worker sys = W_Stopped \/ worker sys <> W_Stopped)
      by (destruct (worker sys); auto; right; discriminate).
    destruct Hcase as [Hw|Hw].
    + exists sys. rewrite (Run_stopped cfg _ sys Hw).
      split; [reflexivity|]. split; [exact HI|]. split; [exact Hw|exact He].
    + rewrite (Run_unfold cfg _ _ Hw).
      pose proof (inv_handshake _ _ HI) as [Hf Ht _ _ _ _].
      rewrite He in Hf, Ht. specialize (Ht ltac:(discriminate)).
      cbn [stop_signalled] in Ht.
      destruct (worker_progress cfg sys HI Hw) as (sys1 & Hstep).
      { intros Hwait. rewrite Hwait in Ht. cbn in Ht. lia. }
      rewrite Hstep. cbn [bind].
      destruct (stopping_step cfg sys sys1 Hf Hstep) as (_ & Hd1 & He1 & _).
      apply IH; [eapply step_Inv; eauto|congruence|lia].
Qed.
(** The pending count is fuel enough for the fallback loop of [Stop], in
    every state: the loop returns, or stops at an assertion or at an empty
    input queue, before the fuel is used up. *)
Lemma Stop_drain_no_timeout fuel :
  forall s, (queue_length s <= Z.of_nat fuel)%Z -> Stop_drain cfg fuel s <> Timeout.
Proof.
  induction fuel as [|fuel IH]; intros s Hq; cbn [Stop_drain]; unfold NoBarrier_Load.
  - replace (queue_length s >? 0)%Z with false; [discriminate|].
    symmetry. rewrite Z.gtb_ltb. apply Z.ltb_ge. cbn in Hq. lia.
  - destruct (queue_length s >? 0)%Z eqn:Hpos; [|discriminate].
    apply Z.gtb_lt in Hpos.
    pose proof (CompileNext_cases cfg s) as HC.
    destruct (input_queue s) as [|j rest]; [rewrite HC; discriminate|].
    destruct (CompileNext_asserts cfg s j); rewrite HC; [|discriminate].
    cbn [bind].
    destruct (InstallOptimizedFunctions_spec cfg (CompileNext_done j rest s))
      as (s2 & Hinst & _ & _ & Hctl & _).
    rewrite Hinst. cbn [bind]. apply IH.
    destruct Hctl as (_ & Hl & _). rewrite Hl. st.
    unfold Barrier_AtomicIncrement.
    pose proof (wrap32_le (queue_length s + -1) ltac:(lia)). lia.
Qed.

Lemma Stop_resume_no_timeout s : Stop_resume cfg s <> Timeout.
Proof.
  unfold Stop_resume. destruct (stop_semaphore s) as [|n]; [discriminate|].
  destruct (FLAG_parallel_recompilation_delay cfg =? 0)%Z; [discriminate|].
  destruct (InstallOptimizedFunctions_spec cfg (set_stop_semaphore n s))
    as (s2 & Hinst & _).
  rewrite Hinst. cbn [bind]. apply Stop_drain_no_timeout.
  destruct (queue_length s2); cbn; lia.
Qed.
End StopCall.

Section StopReturns.
Variable cfg : Config.

(** The first half of [Stop] and the worker's answer to it. *)
Lemma Stop_handshake sys :
  Inv cfg sys -> exec sys = E_Running ->
  step cfg A_StopSignal sys = Done (stop_signalled_system sys) /\
  exists sys2,
    Run cfg Stop_fuel (stop_signalled_system sys) = Done sys2 /\
    Inv cfg sys2 /\ worker sys2 = W_Stopped /\ exec sys2 = E_StopWait /\
    stop_semaphore (mem sys2) = 1 /\
    compiled (mem sys2) = compiled (mem sys) ++ to_compile (worker sys) (mem sys) /\
    input_queue (mem sys2) = kept (worker sys) (mem sys) /\
    queued (mem sys2) = queued (mem sys) /\
    installed (mem sys2) = installed (mem sys).
Proof.
  intros HI He.
  assert (Hstep : step cfg A_StopSignal sys = Done (stop_signalled_system sys))
    by (cbn [step]; rewrite He; reflexivity).
  split; [exact Hstep|].
  assert (HI1 : Inv cfg (stop_signalled_system sys))
    by (eapply step_Inv; [exact Hstep|reflexivity|exact HI]).
  assert (Hd : stop_distance (worker (stop_signalled_system sys)) <= Stop_fuel).
  { cbn [stop_signalled_system worker]. unfold Stop_fuel.
    destruct (worker sys); cbn; lia. }
  destruct (Run_stops cfg Stop_fuel _ HI1 eq_refl Hd) as (sys2 & Hrun & HI2 & Hw & He2).
  exists sys2. split; [exact Hrun|]. split; [exact HI2|].
  split; [exact Hw|]. split; [exact He2|].
  destruct (Run_stopping cfg Stop_fuel (stop_signalled_system sys) eq_refl Hd) as [_ Hdone].
  destruct (Hdone sys2 Hrun) as (_ & _ & _ & Gc & Gk & Gq & Gi & _).
  split.
  { pose proof (inv_handshake _ _ HI2) as [_ _ _ _ Hk _].
    rewrite Hk, Hw, He2. reflexivity. }
  split; [exact Gc|]. split; [exact Gk|]. split; [exact Gq|exact Gi].
Qed.

Lemma Stop_unfold sys sys2 :
  step cfg A_StopSignal sys = Done (stop_signalled_system sys) ->
  Run cfg Stop_fuel (stop_signalled_system sys) = Done sys2 ->
  exec sys2 = E_StopWait ->
  Stop cfg sys =
    (s <- Stop_resume cfg (mem sys2) ;;
     Done {| mem := s; worker := worker sys2; exec := E_Returned |}).
Proof.
  intros H1 H2 He. unfold Stop. rewrite H1. cbn [bind]. rewrite H2. cbn [bind step].
  rewrite He. reflexivity.
Qed.

Lemma kept_length pc m : length (kept pc m) <= length (input_queue m).
Proof. destruct pc; cbn [kept]; try lia. destruct (input_queue m); cbn; lia. Qed.

Lemma Core_set_stop_semaphore pc n m : Core pc m -> Core pc (set_stop_semaphore n m).
Proof. intros [? ? ? ? ?]; constructor; assumption. Qed.
End StopReturns.

(** C4.  In every reachable state in which [Stop] has not been called
    yet, with the diagnostic delay on and a number of queued jobs that fits
    the pending count: [Stop] returns, and when it returns the input queue
    and the output queue are empty, the pending count is zero, and the jobs
    compiled and the jobs installed are exactly the jobs ever queued, in the
    order they were queued; in particular every job that was in the input
    queue at the call has been compiled and installed. *)
Theorem Stop_with_delay_drains (cfg : Config) (records : Closure -> bool)
  (sched : list Action) (sys : System)
  (H : run cfg sched (init records) = Done sys)
  (Hadm : admissible cfg sched (init records) = true)
  (Hrun : exec sys = E_Running)
  (Hdelay : FLAG_parallel_recompilation_delay cfg <> 0%Z)
  (Hfit : (Z.of_nat (length (input_queue (mem sys))) <= Atomic32_MAX)%Z) :
  exists sys',
    Stop cfg sys = Done sys' /\
    exec sys' = E_Returned /\ worker sys' = W_Stopped /\
    input_queue (mem sys') = [] /\
    output_queue (mem sys') = [] /\
    queue_length (mem sys') = 0%Z /\
    queued (mem sys') = queued (mem sys) /\
    compiled (mem sys') = queued (mem sys) /\
    installed (mem sys') = queued (mem sys) /\
    installed (mem sys') =
      installed (mem sys) ++ output_queue (mem sys) ++
      held (worker sys) ++ input_queue (mem sys).
Proof.
  assert (HI : Inv cfg sys) by (eapply run_Inv; eauto using init_Inv).
  destruct (Stop_handshake cfg sys HI Hrun)
    as (Hsig & sys2 & Hrun2 & HI2 & Hw2 & He2 & Hsem & Gc & Gk & Gq & Gi).
  rewrite (Stop_unfold cfg sys sys2 Hsig Hrun2 He2).
  pose proof (inv_core _ _ HI2) as HC2. rewrite Hw2 in HC2.
  pose proof (inv_vetted _ _ HI2) as HV2. rewrite Hw2 in HV2. cbn [in_flight app] in HV2.
  unfold Stop_resume. rewrite Hsem.
  replace (FLAG_parallel_recompilation_delay cfg =? 0)%Z with false
    by (symmetry; apply Z.eqb_neq; exact Hdelay).
  set (s1 := set_stop_semaphore 0 (mem sys2)).
  assert (HC1 : Core W_Stopped s1) by (apply Core_set_stop_semaphore; exact HC2).
  destruct (InstallOptimizedFunctions_all cfg s1)
    as (s2 & Hinst & Hout & Hi & Hq & Hc & Hctl & Hrec).
  { apply (Core_idle_ready W_Stopped); [reflexivity|exact HC1]. }
  rewrite Hinst. cbn [bind].
  destruct Hctl as (Ci & Cl & _).
  assert (Hlen : (Z.of_nat (length (input_queue (mem sys2))) <= Atomic32_MAX)%Z).
  { rewrite Gk. pose proof (kept_length (worker sys) (mem sys)). lia. }
  assert (Hql : queue_length s2 = Z.of_nat (length (input_queue s2))).
  { rewrite Cl, Ci. destruct HC1 as [_ _ Hn _ _]. rewrite Hn.
    cbn [uncounted]. rewrite Z.add_0_r. apply wrap32_id.
    subst s1. st. unfold Atomic32_MIN. lia. }
  destruct (Stop_drain_all cfg (input_queue s2) (Z.to_nat (queue_length s2)) s2)
    as (s' & Hdrain & R1 & R2 & R3 & R4 & R5 & R6 & _).
  - reflexivity.
  - exact Hout.
  - exact Hql.
  - rewrite Ci. exact Hlen.
  - intros Hd. rewrite Ci. apply (Vetted_same_records s1); [exact Hrec|].
    exact (HV2 Hd).
  - rewrite Hql. lia.
  - rewrite Hdrain. cbn [bind].
    eexists. split; [reflexivity|]. cbn [mem worker exec].
    destruct HC1 as [Cq Cc _ _ _]. cbn [held held_compiled] in Cq, Cc.
    rewrite app_nil_r in Cc. cbn [app] in Cq.
    assert (Hqueued : queued s1 = queued (mem sys)) by (rewrite <- Gq; reflexivity).
    assert (Hfinal : installed s' = queued (mem sys)).
    { rewrite R4, Hi, Ci, <- Hqueued, Cq, <- app_assoc. reflexivity. }
    split; [reflexivity|]. split; [exact Hw2|]. split; [exact R1|].
    split; [exact R2|]. split; [exact R3|].
    split; [rewrite R6, Hq; exact Hqueued|].
    split; [rewrite R5, Hc, Ci, <- Hqueued, Cq, Cc, <- app_assoc; reflexivity|].
    split; [exact Hfinal|].
    rewrite Hfinal. apply (inv_core _ _ HI).
Qed.

Lemma Stop_with_delay_drains_witness :
  let sys := after debug_build_delay schedule_ABC all_pending in
  run debug_build_delay schedule_ABC (init all_pending) = Done sys /\
  input_queue (mem sys) = [job_C] /\
  exists sys',
    Stop debug_build_delay sys = Done sys' /\
    installed (mem sys') = [job_A; job_B; job_C] /\
    queue_length (mem sys') = 0%Z.
Proof.
  intros sys.
  assert (H : run debug_build_delay schedule_ABC (init all_pending) = Done sys)
    by (vm_compute; reflexivity).
  split; [exact H|]. split; [vm_compute; reflexivity|].
  destruct (Stop_with_delay_drains debug_build_delay all_pending schedule_ABC sys H)
    as (sys' & H1 & _ & _ & _ & _ & H2 & _ & _ & H3 & _).
  - vm_compute; reflexivity.
  - vm_compute; reflexivity.
  - vm_compute; discriminate.
  - vm_compute; discriminate.
  - exists sys'. split; [exact H1|]. split; [|exact H2].
    rewrite H3. vm_compute; reflexivity.
Defined.

(** C5, as stated, fails when the worker has begun an iteration: one job
    is queued, the worker has woken and read the flag unset; [Stop] is
    called with the delay off while the job is still in the input queue.
    The worker completes its iteration before it sees the flag: when
    [Stop] returns the job has been compiled, the input queue is empty and
    the pending count is zero. *)
Lemma Stop_without_delay_in_flight_compiles :
  let sys := after release_build schedule_in_flight all_pending in
  run release_build schedule_in_flight (init all_pending) = Done sys /\
  FLAG_parallel_recompilation_delay release_build = 0%Z /\
  exec sys = E_Running /\
  input_queue (mem sys) = [job_A] /\
  queue_length (mem sys) = 1%Z /\
  compiled (mem sys) = [] /\
  omap (fun sys' => input_queue (mem sys')) (Stop release_build sys) = Done [] /\
  omap (fun sys' => queue_length (mem sys')) (Stop release_build sys) = Done 0%Z /\
  omap (fun sys' => compiled (mem sys')) (Stop release_build sys) = Done [job_A] /\
  omap (fun sys' => installed (mem sys')) (Stop release_build sys) = Done [] /\
  omap exec (Stop release_build sys) = Done E_Returned.
Proof.
  intros sys. repeat split; vm_compute; reflexivity.
Qed.

(** C5, amended.  With the delay off, [Stop] returns once the worker has
    acknowledged, without the drain fallback: it installs nothing, and the
    jobs that are in the input queue when the worker reads the flag stay
    there, never compiled.  If the worker had begun an iteration when
    [Stop] was called, that iteration still takes its job from the input
    queue and compiles it.  If the worker was at its wait, or had woken and
    not yet read the flag, every job queued at the call stays in the input
    queue, the pending count is what it was, and it is strictly positive
    when the queue is not empty and its length fits the count. *)
Theorem Stop_without_delay_leaves_queue (cfg : Config) (records : Closure -> bool)
  (sched : list Action) (sys : System)
  (H : run cfg sched (init records) = Done sys)
  (Hadm : admissible cfg sched (init records) = true)
  (Hrun : exec sys = E_Running)
  (Hdelay : FLAG_parallel_recompilation_delay cfg = 0%Z) :
  exists sys',
    Stop cfg sys = Done sys' /\
    exec sys' = E_Returned /\ worker sys' = W_Stopped /\
    installed (mem sys') = installed (mem sys) /\
    compiled (mem sys') = compiled (mem sys) ++ to_compile (worker sys) (mem sys) /\
    input_queue (mem sys') = kept (worker sys) (mem sys) /\
    queue_length (mem sys') = wrap32 (Z.of_nat (length (input_queue (mem sys')))) /\
    (worker sys = W_Wait \/ worker sys = W_Check ->
     input_queue (mem sys') = input_queue (mem sys) /\
     compiled (mem sys') = compiled (mem sys) /\
     queue_length (mem sys') = queue_length (mem sys) /\
     (input_queue (mem sys) <> [] ->
      (Z.of_nat (length (input_queue (mem sys))) <= Atomic32_MAX)%Z ->
      input_queue (mem sys') <> [] /\ (0 < queue_length (mem sys'))%Z)).
Proof.
  assert (HI : Inv cfg sys) by (eapply run_Inv; eauto using init_Inv).
  destruct (Stop_handshake cfg sys HI Hrun)
    as (Hsig & sys2 & Hrun2 & HI2 & Hw2 & He2 & Hsem & Gc & Gk & Gq & Gi).
  rewrite (Stop_unfold cfg sys sys2 Hsig Hrun2 He2).
  unfold Stop_resume. rewrite Hsem, Hdelay. cbn [Z.eqb bind].
  eexists. split; [reflexivity|]. cbn [mem worker exec].
  pose proof (inv_core _ _ HI2) as [_ _ Hn2 _ _]. rewrite Hw2 in Hn2.
  cbn [uncounted] in Hn2. rewrite Z.add_0_r in Hn2.
  split; [reflexivity|]. split; [exact Hw2|]. split; [exact Gi|].
  split; [exact Gc|]. split; [exact Gk|]. split; [exact Hn2|].
  intros Hpos.
  assert (Hk : kept (worker sys) (mem sys) = input_queue (mem sys))
    by (destruct Hpos as [-> | ->]; reflexivity).
  assert (Hc : to_compile (worker sys) (mem sys) = [])
    by (destruct Hpos as [-> | ->]; reflexivity).
  assert (Hu : uncounted (worker sys) = 0%Z)
    by (destruct Hpos as [-> | ->]; reflexivity).
  pose proof (inv_core _ _ HI) as [_ _ Hn _ _]. rewrite Hu, Z.add_0_r in Hn.
  st. rewrite Hk in Gk. rewrite Hc, app_nil_r in Gc.
  split; [exact Gk|]. split; [exact Gc|].
  split; [rewrite Hn2, Gk, Hn; reflexivity|].
  intros Hne Hfit. rewrite Gk. split; [exact Hne|].
  rewrite Hn2, Gk. rewrite wrap32_id by (unfold Atomic32_MIN; lia).
  destruct (input_queue (mem sys)); [contradiction|cbn [length]; lia].
Qed.

Lemma Stop_without_delay_leaves_queue_witness :
  let sys := after debug_build schedule_queued all_pending in
  run debug_build schedule_queued (init all_pending) = Done sys /\
  exists sys',
    Stop debug_build sys = Done sys' /\
    input_queue (mem sys') = [job_A; job_B; job_C] /\
    compiled (mem sys') = [] /\
    (0 < queue_length (mem sys'))%Z.
Proof.
  intros sys.
  assert (H : run debug_build schedule_queued (init all_pending) = Done sys)
    by (vm_compute; reflexivity).
  split; [exact H|].
  destruct (Stop_without_delay_leaves_queue debug_build all_pending schedule_queued
              sys H)
    as (sys' & H1 & _ & _ & _ & _ & _ & _ & Hwait).
  - vm_compute; reflexivity.
  - vm_compute; reflexivity.
  - reflexivity.
  - destruct (Hwait ltac:(left; vm_compute; reflexivity)) as (W1 & W2 & _ & W4).
    exists sys'. split; [exact H1|].
    split; [rewrite W1; vm_compute; reflexivity|].
    split; [rewrite W2; vm_compute; reflexivity|].
    apply W4; vm_compute; discriminate.
Defined.

(** * Further properties of the coordinator *)

Section ReachableFacts.
Variable cfg : Config.

Lemma reachable_Core_Handshake records sched sys :
  run cfg sched (init records) = Done sys ->
  Core (worker sys) (mem sys) /\ Handshake sys.
Proof.
  intros H. apply (run_Core_Handshake cfg sched _ _ H).
  destruct (init_Inv cfg records) as [HC HH _]. split; assumption.
Qed.
End ReachableFacts.

(** X2.  The stop handshake, in every reachable state: the flag is set
    exactly from the moment [Stop] is called; the worker leaves its loop
    only after [Stop] has been called; the stop semaphore holds one signal
    exactly between the worker's acknowledgement and the return of [Stop],
    and none otherwise; and [Stop] has returned only if the worker has left
    its loop. *)
Theorem Stop_returns_after_worker_exit (cfg : Config) (records : Closure -> bool)
  (sched : list Action) (sys : System)
  (H : run cfg sched (init records) = Done sys) :
  (stop_thread (mem sys) = true <-> exec sys <> E_Running) /\
  (worker sys = W_SignalStop \/ worker sys = W_Stopped -> exec sys <> E_Running) /\
  stop_semaphore (mem sys) = acknowledged (worker sys) (exec sys) /\
  stop_semaphore (mem sys) <= 1 /\
  (exec sys = E_Returned -> worker sys = W_Stopped).
Proof.
  destruct (reachable_Core_Handshake cfg records sched sys H) as [_ HH].
  destruct HH as [Hf _ _ Ha Hk Hr].
  split.
  { rewrite Hf. destruct (exec sys); split; intros; try discriminate;
      try reflexivity; contradiction. }
  split.
  { intros Hw He. destruct (Ha He) as [H1 H2]. destruct Hw; contradiction. }
  split; [exact Hk|]. split; [|exact Hr].
  rewrite Hk. destruct (worker sys), (exec sys); cbn; lia.
Qed.

Lemma Stop_returns_after_worker_exit_witness :
  let sys := after release_build schedule_stopped all_pending in
  run release_build schedule_stopped (init all_pending) = Done sys /\
  exec sys = E_Returned /\ worker sys = W_Stopped /\
  stop_semaphore (mem sys) = 0.
Proof.
  intros sys.
  assert (H : run release_build schedule_stopped (init all_pending) = Done sys)
    by (vm_compute; reflexivity).
  assert (He : exec sys = E_Returned) by (vm_compute; reflexivity).
  destruct (Stop_returns_after_worker_exit release_build all_pending
              schedule_stopped sys H) as (_ & _ & Hk & _ & Hr).
  split; [exact H|]. split; [exact He|]. split; [exact (Hr He)|].
  rewrite Hk, (Hr He), He. reflexivity.
Defined.

(** X3.  [Stop] is for one use: once it has returned, a second call stores
    the flag and signals the input semaphore again, but the worker has left
    its loop and takes no further step, nobody signals the stop semaphore,
    and the caller stays in its wait. *)
Theorem second_Stop_never_returns (cfg : Config) (records : Closure -> bool)
  (sched : list Action) (sys : System)
  (H : run cfg sched (init records) = Done sys)
  (Hret : exec sys = E_Returned) :
  step cfg A_Worker (stop_signalled_system sys) = Stuck /\
  (forall fuel,
     Run cfg fuel (stop_signalled_system sys) = Done (stop_signalled_system sys)) /\
  stop_semaphore (Stop_signal (mem sys)) = 0 /\
  Stop_resume cfg (Stop_signal (mem sys)) = Stuck.
Proof.
  destruct (reachable_Core_Handshake cfg records sched sys H) as [_ HH].
  destruct HH as [_ _ _ _ Hk Hr]. specialize (Hr Hret).
  assert (Hs : stop_semaphore (Stop_signal (mem sys)) = 0).
  { cbn. rewrite Hk, Hr, Hret. reflexivity. }
  split.
  { cbn [step stop_signalled_system worker mem]. rewrite Hr. reflexivity. }
  split.
  { intros fuel. apply Run_stopped. exact Hr. }
  split; [exact Hs|].
  unfold Stop_resume. rewrite Hs. reflexivity.
Qed.

Lemma second_Stop_never_returns_witness :
  let sys := after release_build schedule_stopped all_pending in
  run release_build schedule_stopped (init all_pending) = Done sys /\
  Stop_resume release_build (Stop_signal (mem sys)) = Stuck.
Proof.
  intros sys.
  assert (H : run release_build schedule_stopped (init all_pending) = Done sys)
    by (vm_compute; reflexivity).
  split; [exact H|].
  apply (second_Stop_never_returns release_build all_pending schedule_stopped sys H).
  vm_compute; reflexivity.
Defined.



(** A property of the shared state that depends on the worker's position
    and that every operation keeps holds in every reachable state. *)
Section InvariantScheme.
Variable cfg : Config.
Variable P : WorkerPc -> State -> Prop.
Hypothesis P_worker :
  forall pc m pc' m', Run_step cfg pc m = Done (pc', m') -> P pc m -> P pc' m'.
Hypothesis P_queue :
  forall pc j m m', QueueForOptimization cfg j m = Done m' -> P pc m -> P pc m'.
Hypothesis P_install :
  forall pc m m', InstallOptimizedFunctions cfg m = Done m' -> P pc m -> P pc m'.
Hypothesis P_signal : forall pc m, P pc m -> P pc (Stop_signal m).
Hypothesis P_acknowledged :
  forall n m, P W_Stopped m -> P W_Stopped (set_stop_semaphore n m).
Hypothesis P_compile :
  forall m m', CompileNext cfg m = Done m' -> P W_Stopped m -> P W_Stopped m'.

Lemma Stop_drain_invariant fuel :
  forall s s', Stop_drain cfg fuel s = Done s' -> P W_Stopped s -> P W_Stopped s'.
Proof.
  induction fuel as [|fuel IH]; intros s s' H HP; cbn [Stop_drain] in H.
  - destruct (NoBarrier_Load (queue_length s) >? 0)%Z; [discriminate|].
    injection H as <-; exact HP.
  - destruct (NoBarrier_Load (queue_length s) >? 0)%Z.
    + bind_inv H. bind_inv H. eapply IH; [exact H|].
      eapply P_install; [exact E0|]. eapply P_compile; eassumption.
    + injection H as <-; exact HP.
Qed.

Lemma Stop_resume_invariant s s' :
  Stop_resume cfg s = Done s' -> P W_Stopped s -> P W_Stopped s'.
Proof.
  intros H HP. unfold Stop_resume in H.
  destruct (stop_semaphore s) as [|n]; [discriminate|].
  destruct (FLAG_parallel_recompilation_delay cfg =? 0)%Z.
  - injection H as <-. apply P_acknowledged; exact HP.
  - bind_inv H. eapply Stop_drain_invariant; [exact H|].
    eapply P_install; [exact E|]. apply P_acknowledged; exact HP.
Qed.

Lemma step_invariant a sys sys' :
  step cfg a sys = Done sys' -> Handshake sys ->
  P (worker sys) (mem sys) -> P (worker sys') (mem sys').
Proof.
  intros Hstep HH HP.
  destruct sys as [m pc e]; cbn [mem worker exec] in *.
  destruct a; cbn [step mem worker exec] in Hstep.
  - destruct e; try discriminate Hstep. bind_inv Hstep. injection Hstep as <-.
    cbn [mem worker]. eapply P_queue; eassumption.
  - destruct e; try discriminate Hstep. bind_inv Hstep. injection Hstep as <-.
    cbn [mem worker]. eapply P_install; eassumption.
  - bind_inv Hstep. destruct a as [pc' m']. injection Hstep as <-.
    cbn [mem worker]. eapply P_worker; eassumption.
  - destruct e; try discriminate Hstep. injection Hstep as <-.
    cbn [mem worker]. apply P_signal; exact HP.
  - destruct e; try discriminate Hstep. bind_inv Hstep. injection Hstep as <-.
    pose proof (Stop_resume_worker_stopped cfg _ _ HH E ltac:(discriminate)) as Hpc.
    cbn in Hpc; subst pc. cbn [mem worker].
    eapply Stop_resume_invariant; eassumption.
Qed.

Lemma run_invariant sched :
  forall sys sys',
    run cfg sched sys = Done sys' -> Handshake sys ->
    P (worker sys) (mem sys) -> P (worker sys') (mem sys').
Proof.
  induction sched as [|a rest IH]; intros sys sys' H HH HP; cbn in *.
  - injection H as <-; exact HP.
  - bind_inv H. eapply IH; [exact H| |].
    + eapply step_Handshake; eassumption.
    + eapply step_invariant; eassumption.
Qed.
End InvariantScheme.

Section FlipAssertion.
Variable cfg : Config.

Lemma pending_until_flip_reachable records sched sys :
  run cfg sched (init records) = Done sys ->
  pending_until_flip cfg (worker sys) (mem sys).
Proof.
  intros H.
  apply (run_invariant cfg (pending_until_flip cfg)) with (sched := sched) (sys := init records);
    try exact H.
  - intros pc m pc' m' Hstep HP Hd j Hj.
    destruct pc; cbn [Run_step] in Hstep.
    + destruct (input_queue_semaphore m); [discriminate|].
      injection Hstep as <- <-. destruct Hj; discriminate.
    + destruct (stop_thread m); injection Hstep as <- <-; destruct Hj; discriminate.
    + injection Hstep as <- <-. destruct Hj; discriminate.
    + bind_inv Hstep. destruct a. injection Hstep as <- <-. destruct Hj; discriminate.
    + injection Hstep as <- <-. destruct Hj; discriminate.
    + bind_inv Hstep. injection Hstep as <- <-.
      apply CompileNext_optimize_Done in E as [-> Hp].
      destruct Hj as [Hj|Hj]; [|discriminate]. injection Hj as <-.
      exact (proj1 (Hp Hd)).
    + injection Hstep as <- <-.
      destruct Hj as [Hj|Hj]; [discriminate|]. injection Hj as <-.
      apply (HP Hd j0). left; reflexivity.
    + bind_inv Hstep. injection Hstep as <- <-. destruct Hj; discriminate.
    + discriminate Hstep.
  - intros pc j m m' Hq HP Hd k Hk.
    apply QueueForOptimization_Done in Hq; subst m'. exact (HP Hd k Hk).
  - intros pc m m' Hi HP Hd k Hk.
    destruct (InstallOptimizedFunctions_spec cfg m) as (t & Ht & _ & _ & _ & Hrec).
    assert (t = m') by congruence; subst t.
    unfold IsInRecompileQueue. rewrite Hrec. exact (HP Hd k Hk).
  - intros pc m HP Hd k Hk. exact (HP Hd k Hk).
  - intros n m _ _ k Hk. destruct Hk; discriminate.
  - intros m m' _ _ _ k Hk. destruct Hk; discriminate.
  - apply (init_Inv cfg records).
  - intros _ k Hk. destruct Hk; discriminate.
Qed.
End FlipAssertion.

(** X5.  The assertion in front of the flip never fails, whatever the
    interleaving, in either build and whatever the caller does: between
    the worker's first check of the record and its flip no call of the
    execution thread turns a "pending" record to "ready" (the installer
    leaves a pending front job alone), so the worker's enqueue and its flip
    always return, and the flip finds the record still "pending" in a debug
    build. *)
Theorem flip_assertion_never_fails (cfg : Config) (records : Closure -> bool)
  (sched : list Action) (sys : System) (j : OptimizingCompiler)
  (H : run cfg sched (init records) = Done sys)
  (Hpc : worker sys = W_Enqueue j \/ worker sys = W_Mark j) :
  (DEBUG cfg = true -> IsInRecompileQueue (mem sys) j = true) /\
  exists sys', step cfg A_Worker sys = Done sys' /\
    (worker sys = W_Mark j ->
     worker sys' = W_Wait /\ IsInRecompileQueue (mem sys') j = false).
Proof.
  pose proof (pending_until_flip_reachable cfg records sched sys H) as HP.
  split; [intros Hd; exact (HP Hd j Hpc)|].
  destruct sys as [m pc e]; cbn [mem worker exec step] in *.
  destruct Hpc as [-> | ->]; cbn [Run_step bind].
  - eexists. split; [reflexivity|]. intros Hc; discriminate Hc.
  - unfold CompileNext_mark, ASSERT.
    destruct (DEBUG cfg) eqn:Hd.
    + rewrite (HP Hd j (or_intror eq_refl)). cbn [bind].
      eexists. split; [reflexivity|]. intros _. split; [reflexivity|].
      cbn. rewrite Nat.eqb_refl. reflexivity.
    + cbn [bind]. eexists. split; [reflexivity|]. intros _. split; [reflexivity|].
      cbn. rewrite Nat.eqb_refl. reflexivity.
Qed.

Lemma flip_assertion_never_fails_witness :
  let sys := after debug_build schedule_unflipped all_pending in
  run debug_build schedule_unflipped (init all_pending) = Done sys /\
  worker sys = W_Mark job_A /\
  IsInRecompileQueue (mem sys) job_A = true /\
  exists sys', step debug_build A_Worker sys = Done sys'.
Proof.
  intros sys.
  assert (H : run debug_build schedule_unflipped (init all_pending) = Done sys)
    by (vm_compute; reflexivity).
  assert (Hw : worker sys = W_Mark job_A) by (vm_compute; reflexivity).
  destruct (flip_assertion_never_fails debug_build all_pending schedule_unflipped
              sys job_A H (or_intror Hw)) as (Hp & sys' & Hs & _).
  split; [exact H|]. split; [exact Hw|]. split; [exact (Hp eq_refl)|].
  exists sys'. exact Hs.
Defined.

Section RelocationLock.
Variable cfg : Config.

Lemma lock_state_app tr evs :
  lock_state (tr ++ evs) = fold_left lock_step evs (lock_state tr).
Proof. unfold lock_state. apply fold_left_app. Qed.

Lemma lock_rejected l : fold_left lock_step l None = None.
Proof. induction l as [|e r IH]; cbn; [reflexivity|exact IH]. Qed.

Lemma install_events_lock l st :
  fold_left lock_step (install_events l) (Some st) = Some st.
Proof. induction l as [|j r IH]; cbn; [reflexivity | exact IH]. Qed.

Lemma lock_state_reachable records sched sys :
  run cfg sched (init records) = Done sys ->
  lock_state (trace (mem sys)) = Some (locked (worker sys)).
Proof.
  intros H.
  apply (run_invariant cfg (fun pc m => lock_state (trace m) = Some (locked pc)))
    with (sched := sched) (sys := init records); try exact H.
  - intros pc m pc' m' Hstep HP.
    destruct pc; cbn [Run_step] in Hstep.
    + destruct (input_queue_semaphore m); [discriminate|].
      injection Hstep as <- <-. exact HP.
    + destruct (stop_thread m); injection Hstep as <- <-; exact HP.
    + injection Hstep as <- <-. exact HP.
    + unfold CompileNext_dequeue, input_queue_Dequeue in Hstep.
      cbn [input_queue record] in Hstep.
      destruct (input_queue m) as [|j rest]; [discriminate|].
      cbn [bind] in Hstep. injection Hstep as <- <-.
      st. rewrite <- app_assoc, lock_state_app, HP. reflexivity.
    + injection Hstep as <- <-. exact HP.
    + bind_inv Hstep. injection Hstep as <- <-.
      apply CompileNext_optimize_Done in E as [-> _].
      st. rewrite lock_state_app, HP. reflexivity.
    + injection Hstep as <- <-. st. rewrite lock_state_app, HP. reflexivity.
    + bind_inv Hstep. injection Hstep as <- <-.
      apply CompileNext_mark_Done in E as [-> _].
      st. rewrite <- app_assoc, lock_state_app, HP. reflexivity.
    + discriminate Hstep.
  - intros pc j m m' Hq HP.
    apply QueueForOptimization_Done in Hq; subst m'.
    st. rewrite lock_state_app, HP. reflexivity.
  - intros pc m m' Hi HP.
    destruct (InstallOptimizedFunctions_spec cfg m) as (t & Ht & _ & Htr & _ & _).
    assert (t = m') by congruence; subst t.
    rewrite Htr, lock_state_app, HP. apply install_events_lock.
  - intros pc m HP. exact HP.
  - intros n m HP. exact HP.
  - intros m m' Hc HP.
    destruct (CompileNext_trace cfg m m' Hc) as (j & rest & _ & Htr).
    rewrite Htr, lock_state_app, HP. reflexivity.
  - apply (init_Inv cfg records).
  - reflexivity.
Qed.

(** What the monitor has accepted up to an event it accepts with it. *)
Lemma lock_state_split pre e post b :
  lock_state (pre ++ e :: post) = Some b ->
  exists h, lock_state pre = Some h /\ lock_step (Some h) e <> None.
Proof.
  rewrite lock_state_app. cbn [fold_left].
  destruct (lock_state pre) as [h|].
  - intros H. exists h. split; [reflexivity|].
    intros Hn. rewrite Hn, lock_rejected in H. discriminate H.
  - cbn [lock_step]. rewrite lock_rejected. discriminate.
Qed.
End RelocationLock.

(** X6.  The relocation lock is taken and released in turn, in every
    execution: it is never taken while it is held (the fallback of [Stop]
    runs the compile step on the execution thread only after the worker has
    left its loop), never released while it is free, and the input dequeue,
    the compile step, the output enqueue and the flip happen only while it
    is held.  It is held exactly while the worker stands between its
    dequeue and its flip. *)
Theorem relocation_lock_alternates (cfg : Config) (records : Closure -> bool)
  (sched : list Action) (sys : System)
  (H : run cfg sched (init records) = Done sys) :
  lock_state (trace (mem sys)) = Some (locked (worker sys)) /\
  (forall pre post,
     trace (mem sys) = pre ++ EvRelocationLock :: post ->
     lock_state pre = Some false) /\
  (forall pre post,
     trace (mem sys) = pre ++ EvRelocationUnlock :: post ->
     lock_state pre = Some true) /\
  (forall pre e post,
     trace (mem sys) = pre ++ e :: post ->
     (exists j, e = EvInputDequeue j \/ e = EvOptimizeGraph j \/
                e = EvOutputEnqueue j \/ e = EvMarkForInstalling j) ->
     lock_state pre = Some true).
Proof.
  pose proof (lock_state_reachable cfg records sched sys H) as HL.
  split; [exact HL|].
  split; [|split].
  - intros pre post Htr. rewrite Htr in HL.
    destruct (lock_state_split _ _ _ _ HL) as (h & Hh & Hok).
    destruct h; [exfalso; apply Hok; reflexivity|exact Hh].
  - intros pre post Htr. rewrite Htr in HL.
    destruct (lock_state_split _ _ _ _ HL) as (h & Hh & Hok).
    destruct h; [exact Hh|exfalso; apply Hok; reflexivity].
  - intros pre e post Htr (j & He). rewrite Htr in HL.
    destruct (lock_state_split _ _ _ _ HL) as (h & Hh & Hok).
    destruct h; [exact Hh|].
    exfalso; apply Hok. destruct He as [->|[->|[->| ->]]]; reflexivity.
Qed.

Lemma relocation_lock_alternates_witness :
  let sys := after debug_build_delay
               (schedule_in_flight ++ [A_Worker; A_StopSignal] ++
                repeat A_Worker 7 ++ [A_StopResume]) all_pending in
  run debug_build_delay
    (schedule_in_flight ++ [A_Worker; A_StopSignal] ++
     repeat A_Worker 7 ++ [A_StopResume]) (init all_pending) = Done sys /\
  lock_state (trace (mem sys)) = Some false.
Proof.
  intros sys.
  assert (H : run debug_build_delay
                (schedule_in_flight ++ [A_Worker; A_StopSignal] ++
                 repeat A_Worker 7 ++ [A_StopResume]) (init all_pending) = Done sys)
    by (vm_compute; reflexivity).
  split; [exact H|].
  rewrite (proj1 (relocation_lock_alternates debug_build_delay all_pending _ sys H)).
  vm_compute; reflexivity.
Defined.



(** X9.  [QueueForOptimization] followed by [CompileNext]: the increment
    and the decrement cancel, also across the wrap-around of the 32-bit
    count; the job compiled and published is the one at the front of the
    input queue, the queued job goes to the back (it is the one compiled
    when the input queue was empty); and the signal that
    [QueueForOptimization] gave is still pending, since [CompileNext]
    itself does not wait on the semaphore. *)
Theorem QueueForOptimization_then_CompileNext (cfg : Config)
  (j : OptimizingCompiler) (s s1 s2 : State)
  (Hq : QueueForOptimization cfg j s = Done s1)
  (Hc : CompileNext cfg s1 = Done s2) :
  queue_length s2 = wrap32 (queue_length s) /\
  ((Atomic32_MIN <= queue_length s <= Atomic32_MAX)%Z ->
   queue_length s2 = queue_length s) /\
  (exists k, input_queue s ++ [j] = k :: input_queue s2 /\
             output_queue s2 = output_queue s ++ [k] /\
             compiled s2 = compiled s ++ [k] /\
             IsInRecompileQueue s2 k = false) /\
  (input_queue s = [] ->
   input_queue s2 = [] /\ output_queue s2 = output_queue s ++ [j]) /\
  queued s2 = queued s ++ [j] /\
  input_queue_semaphore s2 = S (input_queue_semaphore s).
Proof.
  apply QueueForOptimization_Done in Hq; subst s1.
  apply CompileNext_Done in Hc as (k & rest & Hin & _ & ->).
  cbn [input_queue QueueForOptimization_done input_queue_Enqueue record
       set_input_queue set_queue_length set_input_queue_semaphore] in Hin.
  assert (Hlen : queue_length (CompileNext_done k rest (QueueForOptimization_done j s))
                 = wrap32 (queue_length s)).
  { st. unfold Barrier_AtomicIncrement. rewrite wrap32_add.
    f_equal. lia. }
  split; [exact Hlen|].
  split; [intros Hr; rewrite Hlen; apply wrap32_id; exact Hr|].
  split.
  { exists k. split; [exact Hin|]. split; [reflexivity|].
    split; [logs; reflexivity|]. st. rewrite Nat.eqb_refl. reflexivity. }
  split.
  { intros He. rewrite He in Hin. cbn in Hin. injection Hin as <- <-.
    split; reflexivity. }
  split; [logs; reflexivity|reflexivity].
Qed.

Lemma QueueForOptimization_then_CompileNext_witness :
  exists s1 s2,
    QueueForOptimization debug_build job_C two_queued_state = Done s1 /\
    CompileNext debug_build s1 = Done s2 /\
    queue_length s2 = 2%Z /\
    exists k, input_queue two_queued_state ++ [job_C] = k :: input_queue s2.
Proof.
  eexists. eexists.
  assert (Hq : QueueForOptimization debug_build job_C two_queued_state =
               Done (QueueForOptimization_done job_C two_queued_state))
    by (vm_compute; reflexivity).
  assert (Hc : CompileNext debug_build (QueueForOptimization_done job_C two_queued_state) =
               Done (CompileNext_done job_A [job_B; job_C]
                       (QueueForOptimization_done job_C two_queued_state)))
    by (vm_compute; reflexivity).
  split; [exact Hq|]. split; [exact Hc|].
  destruct (QueueForOptimization_then_CompileNext debug_build job_C _ _ _ Hq Hc)
    as (_ & H2 & (k & Hk & _) & _).
  split; [rewrite H2; [reflexivity|vm_compute; split; discriminate]|].
  exists k. exact Hk.
Defined.

Section Fallback.
Variable cfg : Config.

Lemma Stop_drain_count fuel :
  forall s s',
    (Atomic32_MIN <= queue_length s <= Atomic32_MAX)%Z ->
    Stop_drain cfg fuel s = Done s' ->
    exists taken,
      input_queue s = taken ++ input_queue s' /\
      Z.of_nat (length taken) = Z.max 0 (queue_length s) /\
      compiled s' = compiled s ++ taken /\
      queue_length s' = Z.min 0 (queue_length s) /\
      queued s' = queued s.
Proof.
  induction fuel as [|fuel IH]; intros s s' Hr H; cbn [Stop_drain] in H;
    unfold NoBarrier_Load in H.
  - destruct (queue_length s >? 0)%Z eqn:Hpos; [discriminate|].
    injection H as <-. rewrite Z.gtb_ltb in Hpos. apply Z.ltb_ge in Hpos.
    exists []. cbn. rewrite app_nil_r. repeat split; lia.
  - destruct (queue_length s >? 0)%Z eqn:Hpos.
    + apply Z.gtb_lt in Hpos. bind_inv H. bind_inv H.
      apply CompileNext_Done in E as (j & rest & Hin & _ & ->).
      destruct (InstallOptimizedFunctions_spec cfg (CompileNext_done j rest s))
        as (t & Ht & _ & Htr & Hctl & _).
      assert (t = a0) by congruence; subst t.
      destruct Hctl as (Ci & Cl & _).
      assert (Hq1 : queue_length a0 = (queue_length s - 1)%Z).
      { rewrite Cl. st. unfold Barrier_AtomicIncrement. apply wrap32_id.
        unfold Atomic32_MIN, Atomic32_MAX in *. lia. }
      destruct (IH a0 s') as (taken & T1 & T2 & T3 & T4 & T5).
      { rewrite Hq1. unfold Atomic32_MIN, Atomic32_MAX in *. lia. }
      { exact H. }
      exists (j :: taken).
      destruct (CompileNext_done_logs j rest s) as (L1 & L2 & _).
      split; [rewrite Hin; cbn [app]; f_equal; rewrite <- T1, Ci; reflexivity|].
      split; [cbn [length]; rewrite Hq1 in T2; lia|].
      split.
      { rewrite T3, (compiled_app _ _ _ Htr), install_events_compiled, app_nil_r, L2.
        rewrite <- app_assoc. reflexivity. }
      split; [rewrite T4, Hq1; lia|].
      rewrite T5, (queued_app _ _ _ Htr), install_events_queued, app_nil_r. exact L1.
    + injection H as <-. rewrite Z.gtb_ltb in Hpos. apply Z.ltb_ge in Hpos.
      exists []. cbn. rewrite app_nil_r. repeat split; lia.
Qed.
Lemma Stop_drain_release_returns fuel :
  forall s,
    DEBUG cfg = false ->
    (Atomic32_MIN <= queue_length s <= Atomic32_MAX)%Z ->
    (queue_length s <= Z.of_nat (length (input_queue s)))%Z ->
    (queue_length s <= Z.of_nat fuel)%Z ->
    exists s', Stop_drain cfg fuel s = Done s'.
Proof.
  induction fuel as [|fuel IH]; intros s Hd Hr Hlen Hfuel; cbn [Stop_drain];
    unfold NoBarrier_Load.
  - replace (queue_length s >? 0)%Z with false; [eexists; reflexivity|].
    symmetry. rewrite Z.gtb_ltb. apply Z.ltb_ge. cbn in Hfuel. lia.
  - destruct (queue_length s >? 0)%Z eqn:Hpos; [|eexists; reflexivity].
    apply Z.gtb_lt in Hpos.
    pose proof (CompileNext_cases cfg s) as HC.
    destruct (input_queue s) as [|j rest] eqn:Hin; [cbn in Hlen; lia|].
    unfold CompileNext_asserts in HC. rewrite Hd in HC. cbn [negb orb] in HC.
    rewrite HC. cbn [bind].
    destruct (InstallOptimizedFunctions_spec cfg (CompileNext_done j rest s))
      as (s2 & Hinst & _ & _ & Hctl & _).
    rewrite Hinst. cbn [bind].
    destruct Hctl as (Ci & Cl & _).
    assert (Hq1 : queue_length s2 = (queue_length s - 1)%Z).
    { rewrite Cl. st. unfold Barrier_AtomicIncrement. apply wrap32_id.
      unfold Atomic32_MIN, Atomic32_MAX in *. lia. }
    apply IH.
    + exact Hd.
    + rewrite Hq1. unfold Atomic32_MIN, Atomic32_MAX in *. lia.
    + rewrite Hq1, Ci. st. cbn [length] in Hlen. lia.
    + rewrite Hq1. lia.
Qed.
End Fallback.

(** X10.  The fallback loop of [Stop] is governed by the pending count and
    not by the input queue, which it never inspects.  When it returns it
    has run the compile step exactly as many times as the count said at
    entry (not at all for a count of zero or below), on the jobs at the
    front of the input queue in their order, and it leaves the count at
    zero (or at the negative value it found).  With a count above the
    length of the queue it does not return: it ends up dequeuing from an
    empty queue, or an assertion stops it before.  In a release build it
    returns whenever the queue holds at least as many jobs as the count
    says. *)
Theorem Stop_drain_runs_count_times (cfg : Config) (s : State)
  (Hrange : (Atomic32_MIN <= queue_length s <= Atomic32_MAX)%Z) :
  let outcome := Stop_drain cfg (Z.to_nat (queue_length s)) s in
  (forall s', outcome = Done s' ->
     exists taken,
       input_queue s = taken ++ input_queue s' /\
       Z.of_nat (length taken) = Z.max 0 (queue_length s) /\
       compiled s' = compiled s ++ taken /\
       queue_length s' = Z.min 0 (queue_length s) /\
       queued s' = queued s) /\
  ((Z.of_nat (length (input_queue s)) < queue_length s)%Z ->
   outcome = Stuck \/ outcome = Abort) /\
  (DEBUG cfg = false ->
   (queue_length s <= Z.of_nat (length (input_queue s)))%Z ->
   exists s', outcome = Done s').
Proof.
  intros outcome. split; [|split].
  - intros s' H. exact (Stop_drain_count cfg _ s s' Hrange H).
  - intros Hshort.
    pose proof (Stop_drain_no_timeout cfg (Z.to_nat (queue_length s)) s
                  ltac:(lia)) as Hnt.
    fold outcome in Hnt.
    destruct outcome as [s'| | |] eqn:H; [|right|left|]; try reflexivity;
      try contradiction.
    destruct (Stop_drain_count cfg _ s s' Hrange H) as (taken & T1 & T2 & _).
    rewrite T1, length_app in Hshort. lia.
  - intros Hd Hlen.
    apply (Stop_drain_release_returns cfg); try assumption. lia.
Qed.

Lemma Stop_drain_runs_count_times_witness :
  (exists taken,
     input_queue two_queued_state = taken ++ input_queue drained_two /\
     Z.of_nat (length taken) = Z.max 0 (queue_length two_queued_state) /\
     compiled drained_two = compiled two_queued_state ++ taken /\
     queue_length drained_two = Z.min 0 (queue_length two_queued_state) /\
     queued drained_two = queued two_queued_state) /\
  (exists s',
     Stop_drain release_build (Z.to_nat (queue_length two_queued_state))
       two_queued_state = Done s').
Proof.
  assert (Hr : (Atomic32_MIN <= queue_length two_queued_state <= Atomic32_MAX)%Z)
    by (vm_compute; split; discriminate).
  assert (H : Stop_drain debug_build (Z.to_nat (queue_length two_queued_state))
                two_queued_state = Done drained_two)
    by (vm_compute; reflexivity).
  split.
  - exact (proj1 (Stop_drain_runs_count_times debug_build two_queued_state Hr)
             drained_two H).
  - apply (proj2 (proj2 (Stop_drain_runs_count_times release_build
                           two_queued_state Hr))).
    + reflexivity.
    + vm_compute; discriminate.
Defined.

(** X12.  The identity check of the three entry points.  Once [Run] has
    started on the worker thread [w], a call of [Stop],
    [InstallOptimizedFunctions] or [QueueForOptimization] from any other
    thread [t] passes the check and behaves as the unguarded operation;
    the same calls made from the worker thread itself abort in a debug
    build with parallel recompilation on, and only there: with the flag off
    or in a release build the check lets every thread through. *)
Theorem identity_check_rejects_only_the_worker (cfg : Config) (tc : ThreadCheck)
  (w t : Z) (j : OptimizingCompiler) (s : State) (Hother : t <> w) :
  let tc' := Run_prologue cfg w tc in
  (Stop_signal_from cfg tc' t s = Done (Stop_signal s) /\
   InstallOptimizedFunctions_from cfg tc' t s = InstallOptimizedFunctions cfg s /\
   QueueForOptimization_from cfg tc' t j s = QueueForOptimization cfg j s) /\
  (DEBUG cfg = true -> FLAG_parallel_recompilation tc = true ->
   Stop_signal_from cfg tc' w s = Abort /\
   InstallOptimizedFunctions_from cfg tc' w s = Abort /\
   QueueForOptimization_from cfg tc' w j s = Abort) /\
  (DEBUG cfg = false \/ FLAG_parallel_recompilation tc = false ->
   Stop_signal_from cfg tc' w s = Done (Stop_signal s) /\
   InstallOptimizedFunctions_from cfg tc' w s = InstallOptimizedFunctions cfg s /\
   QueueForOptimization_from cfg tc' w j s = QueueForOptimization cfg j s).
Proof.
  intros tc'.
  assert (Hpass : forall u,
    ASSERT cfg (negb (IsOptimizerThread tc' u)) = Done tt ->
    Stop_signal_from cfg tc' u s = Done (Stop_signal s) /\
    InstallOptimizedFunctions_from cfg tc' u s = InstallOptimizedFunctions cfg s /\
    QueueForOptimization_from cfg tc' u j s = QueueForOptimization cfg j s).
  { intros u Hu.
    unfold Stop_signal_from, InstallOptimizedFunctions_from,
      QueueForOptimization_from, QueueForOptimization.
    rewrite Hu. cbn [bind]. split; [reflexivity|]. split; [reflexivity|].
    destruct (ASSERT cfg (IsQueueAvailable cfg s)) as [[]| | |]; reflexivity. }
  assert (Hfail : forall u,
    ASSERT cfg (negb (IsOptimizerThread tc' u)) = Abort ->
    Stop_signal_from cfg tc' u s = Abort /\
    InstallOptimizedFunctions_from cfg tc' u s = Abort /\
    QueueForOptimization_from cfg tc' u j s = Abort).
  { intros u Hu.
    unfold Stop_signal_from, InstallOptimizedFunctions_from,
      QueueForOptimization_from.
    rewrite Hu. cbn [bind]. split; [reflexivity|]. split; [reflexivity|].
    unfold ASSERT in *. destruct (DEBUG cfg); [|discriminate].
    destruct (IsQueueAvailable cfg s); reflexivity. }
  split; [|split].
  - apply Hpass. unfold ASSERT, tc', Run_prologue, IsOptimizerThread.
    destruct (DEBUG cfg); [|reflexivity]. cbn.
    destruct (FLAG_parallel_recompilation tc); cbn; [|reflexivity].
    apply Z.eqb_neq in Hother. rewrite Hother. reflexivity.
  - intros Hd Hf. apply Hfail.
    unfold ASSERT, tc', Run_prologue, IsOptimizerThread.
    rewrite Hd. cbn. rewrite Hf. cbn. rewrite Z.eqb_refl. reflexivity.
  - intros H. apply Hpass.
    unfold ASSERT, tc', Run_prologue, IsOptimizerThread.
    destruct (DEBUG cfg); [|reflexivity]. cbn.
    destruct H as [H|H]; [discriminate|]. rewrite H. reflexivity.
Qed.

Lemma identity_check_rejects_only_the_worker_witness :
  let tc' := Run_prologue debug_build 7
               {| FLAG_parallel_recompilation := true; thread_id_ := 0 |} in
  QueueForOptimization_from debug_build tc' 1 job_A two_queued_state =
    QueueForOptimization debug_build job_A two_queued_state /\
  QueueForOptimization_from debug_build tc' 7 job_A two_queued_state = Abort /\
  InstallOptimizedFunctions_from debug_build tc' 7 two_queued_state = Abort.
Proof.
  assert (Hother : (1 <> 7)%Z) by discriminate.
  destruct (identity_check_rejects_only_the_worker debug_build
              {| FLAG_parallel_recompilation := true; thread_id_ := 0 |}
              7 1 job_A two_queued_state Hother)
    as ((_ & _ & Hq) & Hw & _).
  destruct (Hw eq_refl eq_refl) as (_ & Hi & Hqw).
  cbv zeta. split; [exact Hq|]. split; [exact Hqw|exact Hi].
Defined.

(** X13.  One turn of the worker's loop is one call of the compile step:
    with a token on the input semaphore and the stop flag clear, seven
    operations of the worker -- whatever the other thread's position --
    consume the token, do what [CompileNext] does on the memory and bring
    the worker back to its wait; they abort or block exactly when
    [CompileNext] does.  With the flag set, the token is consumed, the
    stop semaphore is signalled and the worker has left the loop after
    three operations; nothing is dequeued. *)
Theorem worker_turn_is_CompileNext (cfg : Config) (s : State) (e : ExecPc)
  (n : nat) (Htoken : input_queue_semaphore s = S n) :
  (stop_thread s = false ->
   run cfg (repeat A_Worker 7) {| mem := s; worker := W_Wait; exec := e |} =
   omap (fun s' => {| mem := s'; worker := W_Wait; exec := e |})
        (CompileNext cfg (set_input_queue_semaphore n s))) /\
  (stop_thread s = true ->
   run cfg (repeat A_Worker 3) {| mem := s; worker := W_Wait; exec := e |} =
   Done {| mem := set_stop_semaphore (S (stop_semaphore s))
                    (set_input_queue_semaphore n s);
           worker := W_Stopped; exec := e |}).
Proof.
  split; intros Hflag.
  - cbn [repeat run step mem worker exec Run_step bind]. rewrite Htoken.
    cbn [bind mem worker exec Run_step]. st. rewrite Hflag.
    cbn [bind mem worker exec Run_step].
    unfold CompileNext, omap, CompileNext_dequeue, input_queue_Dequeue.
    st. destruct (input_queue s) as [|j rest]; [reflexivity|].
    cbn [bind mem worker exec Run_step].
    match goal with |- context [CompileNext_optimize cfg j ?x] =>
      destruct (CompileNext_optimize cfg j x) as [s3| | |] end;
      try reflexivity.
    cbn [bind mem worker exec Run_step].
    match goal with |- context [CompileNext_mark cfg j ?x] =>
      destruct (CompileNext_mark cfg j x) as [s5| | |] end;
      reflexivity.
  - cbn [repeat run step mem worker exec Run_step bind]. rewrite Htoken.
    cbn [bind mem worker exec Run_step]. st. rewrite Hflag.
    cbn [bind mem worker exec Run_step]. reflexivity.
Qed.

Lemma worker_turn_is_CompileNext_witness :
  run debug_build (repeat A_Worker 7)
    {| mem := two_queued_state; worker := W_Wait; exec := E_Running |} =
  omap (fun s' => {| mem := s'; worker := W_Wait; exec := E_Running |})
       (CompileNext debug_build (set_input_queue_semaphore 1 two_queued_state)).
Proof.
  exact (proj1 (worker_turn_is_CompileNext debug_build two_queued_state
                  E_Running 1 eq_refl) eq_refl).
Defined.

(** * The execution thread, one operation at a time *)

Ltac op_st :=
  cbn [memory worker_at call_at installing install_rank carried owed
       flag_stored stop_signal_given leaving installs_counted
       within_call is_exec] in *.

Ltac published_log :=
  unfold published, installed, queued, compiled in *; st;
  rewrite ?flat_map_app in *;
  cbn [flat_map published_job installed_job queued_job compiled_job app] in *;
  rewrite ?app_nil_r in *.

Section Operations.
Variable cfg : Config.


(** A property of the two threads that every allowed operation keeps holds
    after every schedule of allowed operations. *)
Lemma op_run_invariant (allowed : Operation -> bool) (P : Threads -> Prop) :
  (forall o t t', allowed o = true -> P t -> op_step cfg o t = Done t' -> P t') ->
  forall sched t t',
    forallb allowed sched = true -> P t -> op_run cfg sched t = Done t' -> P t'.
Proof.
  intros Hstep. induction sched as [|o rest IH]; intros t t' Hall HP Hrun;
    cbn [op_run forallb] in *.
  - injection Hrun as <-. exact HP.
  - apply andb_true_iff in Hall as [Ho Hrest].
    destruct (op_step cfg o t) as [t1| | |] eqn:E; cbn [bind] in Hrun;
      try discriminate.
    exact (IH t1 t' Hrest (Hstep o t t1 Ho HP E) Hrun).
Qed.

(** What one operation of the worker does to the queues, the logs and the
    function records: it installs nothing, what it adds to the output
    queue it has published, a job it publishes it held, a job it takes it
    took from the input queue, and it never turns a record to "pending". *)
Lemma Run_step_supply w m w' m' :
  Run_step cfg w m = Done (w', m') ->
  installed m' = installed m /\
  (exists added,
     published m' = published m ++ added /\
     output_queue m' = output_queue m ++ added /\
     length added + length (held w') + length (input_queue m') =
       length (held w) + length (input_queue m)) /\
  (forall c, in_recompile_queue m c = false -> in_recompile_queue m' c = false).
Proof.
  intros Hstep. destruct w; cbn [Run_step] in Hstep.
  - destruct (input_queue_semaphore m); [discriminate|].
    injection Hstep as <- <-. split; [reflexivity|]. split; [|auto].
    exists []. rewrite !app_nil_r. repeat split.
  - destruct (stop_thread m); injection Hstep as <- <-;
      (split; [reflexivity|]; split; [|auto]);
      exists []; rewrite !app_nil_r; repeat split.
  - injection Hstep as <- <-. split; [reflexivity|]. split; [|auto].
    exists []. rewrite !app_nil_r. repeat split.
  - unfold CompileNext_dequeue, input_queue_Dequeue in Hstep.
    cbn [input_queue record] in Hstep.
    destruct (input_queue m) as [|j rest] eqn:Hin; [discriminate|].
    cbn [bind] in Hstep. injection Hstep as <- <-.
    split; [published_log; reflexivity|]. split; [|auto].
    exists []. rewrite !app_nil_r.
    split; [published_log; reflexivity|]. split; [reflexivity|].
    st. cbn [length]. lia.
  - injection Hstep as <- <-. split; [reflexivity|]. split; [|auto].
    exists []. rewrite !app_nil_r. repeat split.
  - bind_inv Hstep. injection Hstep as <- <-.
    apply CompileNext_optimize_Done in E as [-> _].
    split; [published_log; reflexivity|]. split; [|auto].
    exists []. rewrite !app_nil_r.
    split; [published_log; reflexivity|]. repeat split.
  - injection Hstep as <- <-.
    split; [published_log; reflexivity|]. split; [|auto].
    exists [j].
    split; [published_log; reflexivity|]. split; [reflexivity|].
    st. cbn [length]. lia.
  - bind_inv Hstep. injection Hstep as <- <-.
    apply CompileNext_mark_Done in E as [-> _].
    split; [published_log; reflexivity|]. split.
    + exists []. rewrite !app_nil_r.
      split; [published_log; reflexivity|]. repeat split.
    + intros c Hc. st. destruct (Nat.eqb c (closure j)); [reflexivity|exact Hc].
  - discriminate Hstep.
Qed.

(** What one operation of the worker leaves alone. *)
Lemma Run_step_flag w m w' m' :
  Run_step cfg w m = Done (w', m') ->
  stop_thread m' = stop_thread m /\
  (w <> W_SignalStop -> stop_semaphore m' = stop_semaphore m) /\
  (w <> W_Wait -> input_queue_semaphore m' = input_queue_semaphore m).
Proof.
  intros Hstep. destruct w; cbn [Run_step] in Hstep.
  - destruct (input_queue_semaphore m); [discriminate|].
    injection Hstep as <- <-. repeat split; intros; try reflexivity; congruence.
  - destruct (stop_thread m) eqn:Hf; injection Hstep as <- <-; repeat split; intros; try reflexivity; congruence.
  - injection Hstep as <- <-. repeat split; intros; try reflexivity; congruence.
  - unfold CompileNext_dequeue, input_queue_Dequeue in Hstep.
    cbn [input_queue record] in Hstep.
    destruct (input_queue m) as [|j rest] eqn:Hin; [discriminate|].
    cbn [bind] in Hstep. injection Hstep as <- <-. repeat split; intros; try reflexivity; congruence.
  - injection Hstep as <- <-. repeat split; intros; try reflexivity; congruence.
  - bind_inv Hstep. injection Hstep as <- <-.
    apply CompileNext_optimize_Done in E as [-> _]. repeat split; intros; try reflexivity; congruence.
  - injection Hstep as <- <-. repeat split; intros; try reflexivity; congruence.
  - bind_inv Hstep. injection Hstep as <- <-.
    apply CompileNext_mark_Done in E as [-> _]. repeat split; intros; try reflexivity; congruence.
  - discriminate Hstep.
Qed.
End Operations.

Section InstallerCall.
Variable cfg : Config.
Variables (m0 : State) (w0 : WorkerPc).

Lemma InCall_entered : InCall m0 w0 (entered m0 w0) [] [].
Proof.
  constructor; unfold entered; op_st; rewrite ?app_nil_r; try reflexivity;
    try (intros; discriminate); try (intros ? ? [H|H]; discriminate H).
  - intros j n [H|[H|H]]; discriminate H.
  - intros j [].
Qed.

Lemma InCall_worker t t' taken pub :
  InCall m0 w0 t taken pub -> op_step cfg O_Worker t = Done t' ->
  exists added, InCall m0 w0 t' taken (pub ++ added).
Proof.
  intros [I0 I1 I2 I3 I4 I5 I6 I7 I8 I9] Hstep.
  destruct t as [m w e]. cbn [op_step] in Hstep. op_st.
  destruct (Run_step cfg w m) as [[w' m']| | |] eqn:E; cbn [bind] in Hstep;
    try discriminate.
  injection Hstep as <-.
  destruct (Run_step_supply cfg w m w' m' E)
    as (Hinst & (added & Hpub & Hout & Hlen) & Hrec).
  exists added. constructor; op_st.
  - exact I0.
  - rewrite Hinst. exact I1.
  - rewrite Hpub, I2, app_assoc. reflexivity.
  - rewrite Hout, app_assoc, I3, <- !app_assoc. reflexivity.
  - rewrite length_app. lia.
  - intros n Hn. rewrite Hout. specialize (I5 n Hn).
    destruct (output_queue m); [contradiction|discriminate].
  - intros j n Hj. destruct (I6 j n Hj) as [rest Hr].
    exists (rest ++ added). rewrite Hout, Hr. reflexivity.
  - intros j n Hj. apply Hrec. exact (I7 j n Hj).
  - intros j Hj. apply Hrec. exact (I8 j Hj).
  - exact I9.
Qed.

(** One operation of the installer inside the call: it is enabled, and
    the invariant goes over to the next position. *)
Lemma InCall_exec t taken pub :
  InCall m0 w0 t taken pub -> call_at t <> C_Idle ->
  exists t' taken',
    op_step cfg O_Exec t = Done t' /\ InCall m0 w0 t' taken' pub /\
    worker_at t' = worker_at t /\
    same_control (memory t) (memory t') /\
    same_records (memory t) (memory t') /\
    queued (memory t') = queued (memory t) /\
    compiled (memory t') = compiled (memory t) /\
    (output_queue (memory t') = output_queue (memory t) \/
     exists j n,
       call_at t = C_InstallDequeue j n /\
       output_queue (memory t) = j :: output_queue (memory t') /\
       IsInRecompileQueue (memory t) j = false).
Proof.
  intros [I0 I1 I2 I3 I4 I5 I6 I7 I8 I9] Hidle.
  destruct t as [m w e]. op_st.
  assert (Hsame : same_control m m /\ same_records m m)
    by (split; [repeat split|intros c; reflexivity]).
  destruct e; try discriminate I0; try contradiction;
    cbn [op_step Call_step memory worker_at call_at]; op_st.
  - (* the test of the loop *)
    destruct (output_queue_IsEmpty m) eqn:Hemp; cbn [bind];
      eexists; exists taken;
      (split; [reflexivity|]); op_st;
      (split; [|split; [reflexivity|]; split; [apply Hsame|];
                split; [apply Hsame|]; split; [reflexivity|];
                split; [reflexivity|]; left; first [reflexivity|assumption]]).
    + constructor; op_st; try assumption; try reflexivity;
        try (intros; discriminate); try (intros ? ? [H|H]; discriminate H).
      intros ? ? [H|[H|H]]; discriminate H.
    + constructor; op_st; try assumption; try reflexivity;
        try (intros ? ? [H|H]; discriminate H).
      * intros n _ Hnil. unfold output_queue_IsEmpty in Hemp.
        rewrite Hnil in Hemp. discriminate Hemp.
      * intros ? ? [H|[H|H]]; discriminate H.
  - (* the peek *)
    assert (Hne : exists j rest, output_queue m = j :: rest).
    { pose proof (I5 _ eq_refl) as Hq.
      destruct (output_queue m) as [|j rest]; [contradiction|].
      exists j, rest. reflexivity. }
    destruct Hne as (j & rest & Hout).
    unfold output_queue_Peek. rewrite Hout. cbn [bind].
    eexists; exists taken. split; [reflexivity|]. op_st.
    split; [|split; [reflexivity|]; split; [apply Hsame|];
             split; [apply Hsame|]; split; [reflexivity|];
             split; [reflexivity|]; left; first [reflexivity|assumption]].
    constructor; op_st; try assumption; try reflexivity;
      try (intros; discriminate).
    + intros j' n [H|H]; [|discriminate H].
      injection H as <- _. exists rest. exact Hout.
    + intros ? ? [H|[H|H]]; discriminate H.
  - (* the read of the record *)
    destruct (I6 compiler functions_installed (or_introl eq_refl)) as [rest Hout].
    destruct (IsInRecompileQueue m compiler) eqn:Hrec; cbn [bind];
      eexists; exists taken; (split; [reflexivity|]); op_st;
      (split; [|split; [reflexivity|]; split; [apply Hsame|];
                split; [apply Hsame|]; split; [reflexivity|];
                split; [reflexivity|]; left; first [reflexivity|assumption]]).
    + constructor; op_st; try assumption; try reflexivity;
        try (intros; discriminate); try (intros ? ? [H|H]; discriminate H).
      intros ? ? [H|[H|H]]; discriminate H.
    + constructor; op_st; try assumption; try reflexivity;
        try (intros; discriminate).
      * intros j' n [H|H]; [discriminate H|].
        injection H as <- _. exists rest. exact Hout.
      * intros j' n [H|[H|H]]; try discriminate H.
        injection H as <- _. exact Hrec.
  - (* the dequeue *)
    destruct (I6 compiler functions_installed (or_intror eq_refl)) as [rest Hout].
    pose proof (I7 compiler functions_installed (or_introl eq_refl)) as Hrec.
    unfold output_queue_Dequeue. rewrite Hout. cbn [bind].
    eexists; exists taken. split; [reflexivity|]. op_st.
    split; [|split; [reflexivity|]; split; [repeat split|];
             split; [intros c; reflexivity|];
             split; [published_log; reflexivity|];
             split; [published_log; reflexivity|];
             right; exists compiler, functions_installed;
             split; [reflexivity|]; split; [st; first [reflexivity|exact Hout]|exact Hrec]].
    constructor; op_st; try reflexivity; try (intros; discriminate);
      try (intros ? ? [H|H]; discriminate H).
    + rewrite <- I1. published_log. reflexivity.
    + rewrite <- I2. published_log. reflexivity.
    + rewrite I3, Hout. st. reflexivity.
    + st. exact I4.
    + intros j' n [H|[H|H]]; try discriminate H.
      injection H as <- _. exact Hrec.
    + exact I8.
    + exact I9.
  - (* the installation *)
    pose proof (I7 compiler functions_installed (or_intror (or_introl eq_refl)))
      as Hrec.
    eexists; exists (taken ++ [compiler]). split; [reflexivity|]. op_st.
    assert (Hkeep : forall c,
      in_recompile_queue (InstallOptimizedCode compiler m) c =
      in_recompile_queue m c).
    { intros c. st. destruct (Nat.eqb c (closure compiler)) eqn:Hc;
        [|reflexivity].
      apply Nat.eqb_eq in Hc. subst c. symmetry. exact Hrec. }
    split; [|split; [reflexivity|]; split; [repeat split|];
             split; [exact Hkeep|];
             split; [published_log; reflexivity|];
             split; [published_log; reflexivity|];
             left; first [reflexivity|assumption]].
    constructor; op_st; try reflexivity; try (intros; discriminate);
      try (intros ? ? [H|H]; discriminate H).
    + published_log. rewrite I1, app_assoc. reflexivity.
    + rewrite <- I2. published_log. reflexivity.
    + rewrite I3, <- app_assoc. st. reflexivity.
    + st. exact I4.
    + intros j' n [H|[H|H]]; try discriminate H.
      injection H as <- _. unfold IsInRecompileQueue. rewrite Hkeep. exact Hrec.
    + intros j' Hj'. unfold IsInRecompileQueue. rewrite Hkeep.
      apply in_app_or in Hj' as [Hj'|[<-|[]]]; [exact (I8 j' Hj')|exact Hrec].
    + rewrite length_app, Nat.add_comm. cbn [length Nat.add]. f_equal. exact I9.
  - (* the assertion *)
    pose proof (I7 compiler functions_installed
                  (or_intror (or_intror eq_refl))) as Hrec.
    unfold ASSERT. rewrite Hrec. cbn [negb].
    eexists; exists taken.
    split; [destruct (DEBUG cfg); reflexivity|]. op_st.
    split; [|split; [reflexivity|]; split; [apply Hsame|];
             split; [apply Hsame|]; split; [reflexivity|];
             split; [reflexivity|]; left; first [reflexivity|assumption]].
    constructor; op_st; try assumption; try reflexivity;
      try (intros; discriminate); try (intros ? ? [H|H]; discriminate H).
    intros ? ? [H|[H|H]]; discriminate H.
Qed.

Lemma InCall_step o t t' :
  within_call o = true ->
  (exists taken pub, InCall m0 w0 t taken pub) ->
  op_step cfg o t = Done t' ->
  exists taken pub, InCall m0 w0 t' taken pub.
Proof.
  intros Ho (taken & pub & HI) Hstep. destruct o; try discriminate Ho.
  - destruct (InCall_worker t t' taken pub HI Hstep) as [added HI'].
    exists taken, (pub ++ added). exact HI'.
  - destruct (call_at t) eqn:He;
      try (destruct (InCall_exec t taken pub HI ltac:(rewrite He; discriminate))
             as (t1 & taken' & H1 & HI' & _);
           rewrite H1 in Hstep; injection Hstep as <-;
           exists taken', pub; exact HI').
    cbn [op_step] in Hstep. rewrite He in Hstep. discriminate Hstep.
Qed.

Lemma InCall_run sched t :
  forallb within_call sched = true ->
  op_run cfg sched (entered m0 w0) = Done t ->
  exists taken pub, InCall m0 w0 t taken pub.
Proof.
  intros Hall Hrun.
  apply (op_run_invariant cfg within_call
           (fun t => exists taken pub, InCall m0 w0 t taken pub)
           InCall_step sched (entered m0 w0) t Hall); [|exact Hrun].
  exists [], []. exact InCall_entered.
Qed.
End InstallerCall.

Section InstallerMeasure.
Variable cfg : Config.

(** No operation of the worker adds to what can still reach the installer,
    and every operation of the installer takes one from the measure. *)
Lemma install_measure_step o t t' :
  within_call o = true -> installing (call_at t) = true ->
  op_step cfg o t = Done t' ->
  installing (call_at t') = true /\
  (if is_exec o then 1 else 0) + install_measure t' <= install_measure t.
Proof.
  intros Ho Hi Hstep. destruct t as [m w e]. unfold install_measure, in_pipeline.
  destruct o; try discriminate Ho; cbn [op_step] in Hstep; op_st.
  - destruct (Run_step cfg w m) as [[w' m']| | |] eqn:E; cbn [bind] in Hstep;
      try discriminate.
    injection Hstep as <-. op_st.
    destruct (Run_step_supply cfg w m w' m' E) as (_ & (added & _ & Hout & Hlen) & _).
    split; [exact Hi|]. rewrite Hout, length_app. lia.
  - destruct e; try discriminate Hi; cbn [Call_step] in Hstep.
    + discriminate Hstep.
    + destruct (output_queue_IsEmpty m); cbn [bind] in Hstep;
        injection Hstep as <-; op_st; split; try reflexivity; lia.
    + unfold output_queue_Peek in Hstep.
      destruct (output_queue m) eqn:Hq; cbn [bind] in Hstep; [discriminate|].
      injection Hstep as <-; op_st; split; try reflexivity.
      rewrite ?Hq. cbn [length]. lia.
    + destruct (IsInRecompileQueue m compiler); cbn [bind] in Hstep;
        injection Hstep as <-; op_st; split; try reflexivity; lia.
    + unfold output_queue_Dequeue in Hstep.
      destruct (output_queue m) as [|j rest]; cbn [bind] in Hstep; [discriminate|].
      injection Hstep as <-; op_st; split; try reflexivity. st. cbn [length]. lia.
    + injection Hstep as <-; op_st; split; try reflexivity. st. lia.
    + destruct (ASSERT cfg (negb (IsInRecompileQueue m compiler)));
        cbn [bind] in Hstep; try discriminate.
      injection Hstep as <-; op_st; split; try reflexivity; lia.
Qed.

Lemma install_measure_run sched :
  forall t t',
    forallb within_call sched = true -> installing (call_at t) = true ->
    op_run cfg sched t = Done t' ->
    exec_operations sched + install_measure t' <= install_measure t.
Proof.
  unfold exec_operations.
  induction sched as [|o rest IH]; intros t t' Hall Hi Hrun;
    cbn [op_run forallb filter] in *.
  - injection Hrun as <-. cbn [length]. lia.
  - apply andb_true_iff in Hall as [Ho Hrest].
    destruct (op_step cfg o t) as [t1| | |] eqn:E; cbn [bind] in Hrun;
      try discriminate.
    destruct (install_measure_step o t t1 Ho Hi E) as [Hi1 Hm].
    specialize (IH t1 t' Hrest Hi1 Hrun).
    destruct (is_exec o); cbn [length]; lia.
Qed.
End InstallerMeasure.

Section InstallerReturns.
Variable cfg : Config.
Variables (m0 : State) (w0 : WorkerPc).

(** Left to itself the installer returns, within as many operations as
    the measure says. *)
Lemma InCall_returns n :
  forall t taken pub,
    install_measure t <= n -> InCall m0 w0 t taken pub ->
    exists k t',
      k <= n /\ op_run cfg (repeat O_Exec k) t = Done t' /\
      call_at t' = C_Idle /\ worker_at t' = worker_at t.
Proof.
  induction n as [|n IH]; intros t taken pub Hm HI.
  - destruct (call_at t) eqn:He;
      try (exists 0, t; repeat split; [lia|exact He]);
      exfalso;
      (destruct (InCall_exec cfg m0 w0 t taken pub HI
                   ltac:(rewrite He; discriminate)) as (t1 & _ & Hs & _);
       pose proof (install_measure_step cfg O_Exec t t1 eq_refl
                     (ic_installing _ _ _ _ _ HI) Hs) as [_ Hd];
       cbn [is_exec] in Hd; lia).
  - destruct (call_at t) eqn:He;
      try (exists 0, t; repeat split; [lia|exact He]);
      (destruct (InCall_exec cfg m0 w0 t taken pub HI
                   ltac:(rewrite He; discriminate))
         as (t1 & taken1 & Hs & HI1 & Hw1 & _);
       pose proof (install_measure_step cfg O_Exec t t1 eq_refl
                     (ic_installing _ _ _ _ _ HI) Hs) as [_ Hd];
       cbn [is_exec] in Hd;
       destruct (IH t1 taken1 pub ltac:(lia) HI1) as (k & t' & Hk & Hr & Hi & Hw);
       exists (S k), t'; cbn [repeat op_run]; rewrite Hs; cbn [bind];
       repeat split; [lia|exact Hr|exact Hi|congruence]).
Qed.
End InstallerReturns.

Section SignalsPreserved.
Variable cfg : Config.

Lemma Signals_init records : Signals (op_init records).
Proof.
  constructor; unfold op_init, init; op_st; st; cbn [length];
    try reflexivity; try discriminate; intros; discriminate.
Qed.

Lemma Signals_worker t t' :
  Signals t -> op_step cfg O_Worker t = Done t' -> Signals t'.
Proof.
  intros [S1 S2 S3 S4 S5 S6] Hstep. destruct t as [m w e].
  cbn [op_step] in Hstep. op_st.
  destruct (Run_step cfg w m) as [[w' m']| | |] eqn:E; cbn [bind] in Hstep;
    try discriminate.
  injection Hstep as <-.
  assert (Hret : e = C_Returned -> False).
  { intros He. specialize (S6 He). subst w. discriminate E. }
  destruct w; cbn [Run_step] in E.
  - (* the wait *)
    destruct (input_queue_semaphore m) as [|n] eqn:Hsem; [discriminate|].
    injection E as <- <-. constructor; op_st; st.
    + exact S1.
    + intros He. specialize (S2 He). lia.
    + intros _ _ H. contradiction.
    + discriminate.
    + exact S5.
    + intros He. contradiction (Hret He).
  - (* the load of the flag *)
    destruct (stop_thread m) eqn:Hflag; injection E as <- <-;
      constructor; op_st; st; try assumption; try congruence.
    intros He _ _. rewrite He in S1. discriminate S1.
  - (* the acknowledgement *)
    injection E as <- <-. constructor; op_st; st; try assumption.
    + intros _ H. discriminate H.
    + rewrite S5. destruct e; try reflexivity. contradiction (Hret eq_refl).
    + reflexivity.
  - (* the dequeue *)
    unfold CompileNext_dequeue, input_queue_Dequeue in E.
    cbn [input_queue record] in E.
    destruct (input_queue m) as [|j rest] eqn:Hin; [discriminate|].
    cbn [bind] in E. injection E as <- <-. constructor; op_st; st.
    + exact S1.
    + intros He. specialize (S2 He). cbn [length] in S2. lia.
    + intros He _ _. apply (S3 He); [reflexivity|discriminate].
    + discriminate.
    + exact S5.
    + intros He. contradiction (Hret He).
  - (* the decrement *)
    injection E as <- <-. constructor; op_st; st; try assumption.
    + intros He _ _. apply (S3 He); [reflexivity|discriminate].
    + intros He. contradiction (Hret He).
  - (* the compile step *)
    bind_inv E. injection E as <- <-.
    apply CompileNext_optimize_Done in E0 as [-> _].
    constructor; op_st; st; try assumption.
    + intros He _ _. apply (S3 He); [reflexivity|discriminate].
    + intros He. contradiction (Hret He).
  - (* the output enqueue *)
    injection E as <- <-. constructor; op_st; st; try assumption.
    + intros He _ _. apply (S3 He); [reflexivity|discriminate].
    + intros He. contradiction (Hret He).
  - (* the flip *)
    bind_inv E. injection E as <- <-.
    apply CompileNext_mark_Done in E0 as [-> _].
    constructor; op_st; st; try assumption.
    + intros He _ _. apply (S3 He); [reflexivity|discriminate].
    + intros He. contradiction (Hret He).
  - discriminate E.
Qed.

Lemma Signals_call c t t' :
  Signals t -> op_step cfg (O_Call c) t = Done t' -> Signals t'.
Proof.
  intros [S1 S2 S3 S4 S5 S6] Hstep. destruct t as [m w e].
  cbn [op_step] in Hstep. op_st.
  destruct e; try discriminate Hstep.
  assert (Hpc : exists pc, t' = {| memory := m; worker_at := w; call_at := pc |} /\
                 flag_stored pc = false /\ owed pc = 0 /\
                 stop_signal_given pc = 0 /\ pc <> C_StopWait /\ pc <> C_Returned).
  { destruct c; cbn [Call_begin] in Hstep.
    - destruct (ASSERT cfg (IsQueueAvailable cfg m)); cbn [bind] in Hstep;
        try discriminate.
      injection Hstep as <-. eexists. split; [reflexivity|].
      repeat split; discriminate.
    - injection Hstep as <-. eexists. split; [reflexivity|].
      repeat split; discriminate.
    - injection Hstep as <-. eexists. split; [reflexivity|].
      repeat split; discriminate. }
  destruct Hpc as (pc & -> & P1 & P2 & P3 & P4 & P5).
  constructor; op_st.
  - rewrite P1. exact S1.
  - intros _. rewrite P2, P3. apply S2. discriminate.
  - intros He. contradiction.
  - intros Hl. specialize (S4 Hl). discriminate S4.
  - rewrite S5. destruct w; try reflexivity. destruct pc; try reflexivity.
    contradiction.
  - intros He. contradiction.
Qed.

Lemma Signals_exec t t' :
  Signals t -> op_step cfg O_Exec t = Done t' -> Signals t'.
Proof.
  intros [S1 S2 S3 S4 S5 S6] Hstep. destruct t as [m w e].
  cbn [op_step] in Hstep. op_st.
  destruct (Call_step cfg e m) as [[e' m']| | |] eqn:E; cbn [bind] in Hstep;
    try discriminate.
  injection Hstep as <-.
  assert (Hquiet :
    flag_stored e = false -> flag_stored e' = false ->
    stop_signal_given e' = 0 -> e' <> C_StopWait -> e' <> C_Returned ->
    stop_thread m' = stop_thread m -> stop_semaphore m' = stop_semaphore m ->
    input_queue_semaphore m' + owed e' =
      input_queue_semaphore m + owed e +
      (length (input_queue m') - length (input_queue m)) ->
    length (input_queue m) <= length (input_queue m') ->
    Signals {| memory := m'; worker_at := w; call_at := e' |}).
  { intros F0 F1 F2 F3 F4 Q1 Q2 Q3 Q4. constructor; op_st.
    - rewrite Q1, S1, F0, F1. reflexivity.
    - intros _. rewrite F2.
      assert (He : e <> C_Returned) by (intros ->; discriminate F0).
      specialize (S2 He).
      assert (Hg : stop_signal_given e = 0)
        by (destruct e; try reflexivity; discriminate F0).
      lia.
    - intros He. contradiction.
    - intros Hl. specialize (S4 Hl). congruence.
    - rewrite Q2, S5. destruct w; try reflexivity.
      destruct e; try discriminate F0; destruct e'; try reflexivity;
        contradiction.
    - intros He. contradiction. }
  destruct e; cbn [Call_step] in E.
  - discriminate E.
  - injection E as <- <-.
    apply Hquiet; st; op_st;
      try discriminate; try reflexivity; lia.
  - injection E as <- <-.
    apply Hquiet; st; op_st;
      try discriminate; try reflexivity; rewrite ?length_app; cbn [length]; lia.
  - injection E as <- <-.
    apply Hquiet; st; op_st;
      try discriminate; try reflexivity; lia.
  - destruct (output_queue_IsEmpty m); injection E as <- <-;
      apply Hquiet; st; op_st;
      try discriminate; try reflexivity; lia.
  - destruct (output_queue_Peek m); cbn [bind] in E; try discriminate.
    injection E as <- <-.
    apply Hquiet; st; op_st;
      try discriminate; try reflexivity; lia.
  - destruct (IsInRecompileQueue m compiler); injection E as <- <-;
      apply Hquiet; st; op_st;
      try discriminate; try reflexivity; lia.
  - unfold output_queue_Dequeue in E.
    destruct (output_queue m) as [|j rest]; cbn [bind] in E; [discriminate|].
    injection E as <- <-.
    apply Hquiet; st; op_st;
      try discriminate; try reflexivity; lia.
  - injection E as <- <-.
    apply Hquiet; st; op_st;
      try discriminate; try reflexivity; lia.
  - destruct (ASSERT cfg (negb (IsInRecompileQueue m compiler)));
      cbn [bind] in E; try discriminate.
    injection E as <- <-.
    apply Hquiet; st; op_st;
      try discriminate; try reflexivity; lia.
  - (* the store of the flag *)
    injection E as <- <-. constructor; op_st; st.
    + reflexivity.
    + intros _. specialize (S2 ltac:(discriminate)). lia.
    + discriminate.
    + reflexivity.
    + rewrite S5. destruct w; reflexivity.
    + discriminate.
  - (* the wake-up signal *)
    injection E as <- <-. constructor; op_st; st.
    + exact S1.
    + intros _. specialize (S2 ltac:(discriminate)). lia.
    + intros _ _ _. lia.
    + reflexivity.
    + rewrite S5. destruct w; reflexivity.
    + discriminate.
  - (* the return from the wait, and the fallback *)
    bind_inv E. injection E as <- <-.
    destruct (Stop_resume_signals cfg m a E0) as (Hs & _ & Hf).
    assert (Hw : w = W_Stopped).
    { rewrite S5 in Hs. destruct w; try discriminate Hs. reflexivity. }
    subst w. constructor; op_st.
    + rewrite Hf. exact S1.
    + intros H. contradiction.
    + discriminate.
    + reflexivity.
    + rewrite S5 in Hs. injection Hs as ->. reflexivity.
    + reflexivity.
  - discriminate E.
Qed.

Lemma Signals_reachable records sched t :
  op_run cfg sched (op_init records) = Done t -> Signals t.
Proof.
  intros Hrun.
  apply (op_run_invariant cfg (fun _ => true) Signals) with
    (sched := sched) (t := op_init records); try assumption.
  - intros o t1 t2 _ HS Hstep. destruct o.
    + exact (Signals_worker t1 t2 HS Hstep).
    + exact (Signals_call c t1 t2 HS Hstep).
    + exact (Signals_exec t1 t2 HS Hstep).
  - clear. induction sched; cbn; auto.
  - apply Signals_init.
Qed.
End SignalsPreserved.

Section Uninterrupted.
Variable cfg : Config.







End Uninterrupted.

(** C10, as stated, fails when the worker moves during the call: the
    installer is entered with one job in the output queue while the worker
    is about to publish a second one; the worker publishes and marks it
    while the first pass runs, the test of the loop finds the queue not
    empty again, and the call installs two jobs. *)
Lemma InstallOptimizedFunctions_installs_more_than_at_entry :
  let before := op_after debug_build schedule_second_compiled (op_init all_pending) in
  let call := O_Call Call_InstallOptimizedFunctions :: schedule_overtaken in
  op_run debug_build schedule_second_compiled (op_init all_pending) = Done before /\
  call_at before = C_Idle /\
  worker_at before = W_Enqueue job_B /\
  output_queue (memory before) = [job_A] /\
  installed (memory before) = [] /\
  forallb within_call schedule_overtaken = true /\
  omap call_at
    (op_run debug_build (O_Call Call_InstallOptimizedFunctions :: repeat O_Exec 6)
       before) = Done (C_InstallTest 1) /\
  omap call_at (op_run debug_build call before) = Done C_Idle /\
  omap (fun t => installed (memory t)) (op_run debug_build call before) =
    Done [job_A; job_B] /\
  omap (fun t => output_queue (memory t)) (op_run debug_build call before) =
    Done [].
Proof.
  intros before call.
  repeat (split; [vm_compute; reflexivity|]). vm_compute; reflexivity.
Qed.

(** C10, amended.  A call of [InstallOptimizedFunctions] ends, whatever
    the worker does meanwhile.  Every operation of the installer inside
    the call is enabled (it neither blocks nor fails an assertion), it
    leaves the output queue as it is or takes its front job, and the
    installer is given at most six operations for every job that is
    published, held by the worker or queued when the call is entered, plus
    three: then it has returned.  The call installs the jobs of the output
    queue at entry and those the worker publishes during the call, less
    those it leaves in the queue: at most the length of the output queue
    at entry plus the number of jobs published during the call, which is at
    most the number of jobs the worker held or found in the input queue at
    entry; and at most the length at entry when the worker publishes
    nothing during the call.  [functions_installed] counts them. *)
Theorem InstallOptimizedFunctions_terminates (cfg : Config) (m : State)
  (w : WorkerPc) (sched : list Operation) (t : Threads)
  (Hcall : forallb within_call sched = true)
  (Hrun : op_run cfg sched (entered m w) = Done t) :
  exec_operations sched <= 6 * in_pipeline w m + 3 /\
  (call_at t <> C_Idle ->
   exists t',
     op_step cfg O_Exec t = Done t' /\
     (output_queue (memory t') = output_queue (memory t) \/
      exists j, output_queue (memory t) = j :: output_queue (memory t'))) /\
  exists taken pub,
    installed (memory t) = installed m ++ taken /\
    published (memory t) = published m ++ pub /\
    length taken + length (carried (call_at t)) +
      length (output_queue (memory t)) =
      length (output_queue m) + length pub /\
    length pub <= length (held w) + length (input_queue m) /\
    length taken <= in_pipeline w m /\
    (pub = [] -> length taken <= length (output_queue m)) /\
    installs_counted (call_at t) (length taken) /\
    exists k t',
      exec_operations sched + k <= 6 * in_pipeline w m + 3 /\
      op_run cfg (repeat O_Exec k) t = Done t' /\
      call_at t' = C_Idle.
Proof.
  destruct (InCall_run cfg m w sched t Hcall Hrun) as (taken & pub & HI).
  pose proof (install_measure_run cfg sched (entered m w) t Hcall eq_refl Hrun)
    as Hmeasure.
  unfold install_measure at 2 in Hmeasure. unfold entered in Hmeasure. op_st.
  destruct (InCall_returns cfg m w (install_measure t) t taken pub (le_n _) HI)
    as (k & tr & Hk & Hreturn & Hidle' & _).
  split; [|split].
  - lia.
  - intros Hidle.
    destruct (InCall_exec cfg m w t taken pub HI Hidle)
      as (t' & _ & Hstep & _ & _ & _ & _ & _ & _ & Hq).
    exists t'. split; [exact Hstep|].
    destruct Hq as [Hq|(j & n & _ & Hq & _)]; [left; exact Hq|].
    right. exists j. exact Hq.
  - exists taken, pub. destruct HI as [I0 I1 I2 I3 I4 I5 I6 I7 I8 I9].
    assert (Hlen : length taken + length (carried (call_at t)) +
                   length (output_queue (memory t)) =
                   length (output_queue m) + length pub).
    { apply (f_equal (@length _)) in I3. rewrite !length_app in I3. lia. }
    split; [exact I1|]. split; [exact I2|]. split; [exact Hlen|].
    split; [lia|]. split; [unfold in_pipeline; lia|].
    split; [intros ->; cbn [length] in Hlen; lia|].
    split; [exact I9|].
    exists k, tr. split; [lia|]. split; [exact Hreturn|exact Hidle'].
Qed.

Lemma InstallOptimizedFunctions_terminates_witness :
  let m := memory (op_after debug_build schedule_second_compiled
                     (op_init all_pending)) in
  let t := op_after debug_build schedule_overtaken (entered m (W_Enqueue job_B)) in
  call_at t = C_Idle /\
  exec_operations schedule_overtaken <= 6 * in_pipeline (W_Enqueue job_B) m + 3 /\
  exists taken pub,
    installed (memory t) = installed m ++ taken /\
    published (memory t) = published m ++ pub /\
    length taken + length (carried (call_at t)) +
      length (output_queue (memory t)) =
      length (output_queue m) + length pub /\
    length pub <= length (held (W_Enqueue job_B)) + length (input_queue m).
Proof.
  intros m t.
  assert (Hcall : forallb within_call schedule_overtaken = true) by reflexivity.
  assert (Hrun : op_run debug_build schedule_overtaken
                   (entered m (W_Enqueue job_B)) = Done t)
    by (vm_compute; reflexivity).
  destruct (InstallOptimizedFunctions_terminates debug_build m (W_Enqueue job_B)
              schedule_overtaken t Hcall Hrun)
    as (Hops & _ & taken & pub & H1 & H2 & H3 & H4 & _).
  split; [vm_compute; reflexivity|]. split; [exact Hops|].
  exists taken, pub. repeat split; assumption.
Defined.

(** X1.  The signals of the input semaphore are accounted for after every
    single operation of either thread, also inside a call, until [Stop]
    has returned from its wait: the pending signals, plus one while the
    worker has taken a signal and not yet dequeued, plus one while
    [QueueForOptimization] has enqueued its job and not yet signalled, are
    the queued jobs plus the wake-up signal of [Stop] once it is given.
    Because [QueueForOptimization] enqueues before it signals, and [Stop]
    stores the flag before it signals, the worker never dequeues from an
    empty input queue, and an operation of the worker is stuck only at the
    wait with no signal pending, or after the worker has left its loop. *)
Theorem input_semaphore_accounts_for_jobs (cfg : Config) (records : Closure -> bool)
  (sched : list Operation) (t : Threads)
  (H : op_run cfg sched (op_init records) = Done t) :
  (call_at t <> C_Returned ->
   input_queue_semaphore (memory t) + token (worker_at t) + owed (call_at t) =
     length (input_queue (memory t)) + stop_signal_given (call_at t)) /\
  (worker_at t = W_Dequeue -> input_queue (memory t) <> []) /\
  (op_step cfg O_Worker t = Stuck ->
   (worker_at t = W_Wait /\ input_queue_semaphore (memory t) = 0) \/
   worker_at t = W_Stopped).
Proof.
  destruct (Signals_reachable cfg records sched t H) as [S1 S2 S3 S4 S5 S6].
  assert (Hdeq : worker_at t = W_Dequeue -> input_queue (memory t) <> []).
  { intros Hw Hnil.
    assert (He : call_at t <> C_Returned).
    { intros He. specialize (S6 He). congruence. }
    specialize (S2 He). rewrite Hw, Hnil in S2. cbn [token length] in S2.
    assert (Hwait : call_at t = C_StopWait).
    { destruct (call_at t); cbn in S2; try lia; try reflexivity.
      contradiction. }
    rewrite Hw in S3. specialize (S3 Hwait eq_refl ltac:(discriminate)).
    rewrite Hwait in S2. cbn in S2. lia. }
  split; [exact S2|]. split; [exact Hdeq|].
  intros Hstuck. destruct t as [m w e]. cbn [op_step] in Hstuck. op_st.
  destruct w; cbn [Run_step] in Hstuck.
  - destruct (input_queue_semaphore m); [left; split; reflexivity|discriminate].
  - destruct (stop_thread m); discriminate.
  - discriminate.
  - exfalso. specialize (Hdeq eq_refl).
    unfold CompileNext_dequeue, input_queue_Dequeue in Hstuck.
    cbn [input_queue record] in Hstuck.
    destruct (input_queue m); [contradiction|discriminate].
  - discriminate.
  - unfold CompileNext_optimize, ASSERT in Hstuck.
    destruct (DEBUG cfg); cbn in Hstuck;
      [destruct (IsInRecompileQueue m j); cbn in Hstuck;
       [destruct (negb (Status_eqb (OptimizeGraph j) FAILED))|]|];
      discriminate.
  - discriminate.
  - unfold CompileNext_mark, ASSERT in Hstuck.
    destruct (DEBUG cfg); cbn in Hstuck;
      [destruct (IsInRecompileQueue m j)|]; discriminate.
  - right. reflexivity.
Qed.

Lemma input_semaphore_accounts_for_jobs_witness :
  let t := op_after debug_build schedule_enqueued (op_init all_pending) in
  call_at t = C_QueueSignal job_A /\
  input_queue (memory t) = [job_A] /\
  input_queue_semaphore (memory t) = 0 /\
  input_queue_semaphore (memory t) + token (worker_at t) + owed (call_at t) =
    length (input_queue (memory t)) + stop_signal_given (call_at t).
Proof.
  intros t.
  assert (H : op_run debug_build schedule_enqueued (op_init all_pending) = Done t)
    by (vm_compute; reflexivity).
  destruct (input_semaphore_accounts_for_jobs debug_build all_pending
              schedule_enqueued t H) as (H1 & _ & _).
  split; [vm_compute; reflexivity|]. split; [vm_compute; reflexivity|].
  split; [vm_compute; reflexivity|].
  apply H1. vm_compute. discriminate.
Defined.

(** X7.  [InstallOptimizedFunctions] interleaved with the worker: every
    single operation of the installer leaves alone what the worker reads
    and writes apart from the front of the output queue.  The function
    records read after the operation what they read before (the record of
    the job it installs already read "ready" when it was checked, and
    nothing turns it back), the input queue, the pending count, the
    semaphores and the stop flag are untouched, nothing is queued or
    compiled by it, the worker stays where it is, and the output queue is
    unchanged or loses its front job, whose record reads "ready".  Over
    the call, the output queue at entry followed by what the worker has
    published since is what the call has installed, in that order,
    followed by the job it has dequeued and not yet installed and by the
    output queue as it stands; every job installed reads "ready". *)
Theorem InstallOptimizedFunctions_frame (cfg : Config) (m : State) (w : WorkerPc)
  (sched : list Operation) (t : Threads)
  (Hcall : forallb within_call sched = true)
  (Hrun : op_run cfg sched (entered m w) = Done t) :
  (forall t', op_step cfg O_Exec t = Done t' ->
     worker_at t' = worker_at t /\
     same_control (memory t) (memory t') /\
     same_records (memory t) (memory t') /\
     queued (memory t') = queued (memory t) /\
     compiled (memory t') = compiled (memory t) /\
     (output_queue (memory t') = output_queue (memory t) \/
      exists j n,
        call_at t = C_InstallDequeue j n /\
        output_queue (memory t) = j :: output_queue (memory t') /\
        IsInRecompileQueue (memory t) j = false)) /\
  exists taken pub,
    installed (memory t) = installed m ++ taken /\
    published (memory t) = published m ++ pub /\
    output_queue m ++ pub =
      taken ++ carried (call_at t) ++ output_queue (memory t) /\
    (forall j, In j taken -> IsInRecompileQueue (memory t) j = false).
Proof.
  destruct (InCall_run cfg m w sched t Hcall Hrun) as (taken & pub & HI).
  split.
  - intros t' Hstep.
    assert (Hidle : call_at t <> C_Idle).
    { intros He. destruct t as [m1 w1 e1]. cbn [op_step] in Hstep. op_st.
      subst e1. discriminate Hstep. }
    destruct (InCall_exec cfg m w t taken pub HI Hidle)
      as (t1 & _ & Hstep1 & _ & Hw & Hc & Hr & Hq & Hcp & Hout).
    assert (t1 = t') by congruence. subst t1.
    repeat split; try assumption; apply Hc.
  - exists taken, pub. destruct HI as [I0 I1 I2 I3 I4 I5 I6 I7 I8 I9].
    repeat split; assumption.
Qed.

Lemma InstallOptimizedFunctions_frame_witness :
  let m := memory (op_after debug_build schedule_second_compiled
                     (op_init all_pending)) in
  let t := op_after debug_build schedule_overtaken (entered m (W_Enqueue job_B)) in
  output_queue m = [job_A] /\
  IsInRecompileQueue m job_B = true /\
  exists taken pub,
    installed (memory t) = installed m ++ taken /\
    published (memory t) = published m ++ pub /\
    output_queue m ++ pub =
      taken ++ carried (call_at t) ++ output_queue (memory t) /\
    (forall j, In j taken -> IsInRecompileQueue (memory t) j = false).
Proof.
  intros m t.
  assert (Hcall : forallb within_call schedule_overtaken = true) by reflexivity.
  assert (Hrun : op_run debug_build schedule_overtaken
                   (entered m (W_Enqueue job_B)) = Done t)
    by (vm_compute; reflexivity).
  split; [vm_compute; reflexivity|]. split; [vm_compute; reflexivity|].
  exact (proj2 (InstallOptimizedFunctions_frame debug_build m (W_Enqueue job_B)
                  schedule_overtaken t Hcall Hrun)).
Defined.


(** X15.  The stop handshake, operation by operation: the flag is set
    exactly from the store of [Stop] on, so between the store and the
    signal the flag is set and the wake-up signal is not yet given; the
    worker reads the flag set, and leaves its loop, only after the store;
    the stop semaphore holds one signal exactly while the worker has left
    its loop and [Stop] has not returned from its wait; and when the wait
    of [Stop] returns the worker has left its loop and takes no further
    step, so the fallback of [Stop] runs alone. *)
Theorem Stop_fallback_runs_alone (cfg : Config) (records : Closure -> bool)
  (sched : list Operation) (t : Threads)
  (H : op_run cfg sched (op_init records) = Done t) :
  stop_thread (memory t) = flag_stored (call_at t) /\
  (leaving (worker_at t) = true -> flag_stored (call_at t) = true) /\
  stop_semaphore (memory t) =
    match worker_at t, call_at t with
    | W_Stopped, C_Returned => 0
    | W_Stopped, _ => 1
    | _, _ => 0
    end /\
  (forall t', call_at t = C_StopWait -> op_step cfg O_Exec t = Done t' ->
     worker_at t = W_Stopped /\ op_step cfg O_Worker t = Stuck /\
     op_step cfg O_Worker t' = Stuck) /\
  (call_at t = C_Returned -> worker_at t = W_Stopped).
Proof.
  pose proof (Signals_reachable cfg records sched t H) as HS.
  destruct HS as [S1 S2 S3 S4 S5 S6].
  split; [exact S1|]. split; [exact S4|]. split; [exact S5|].
  split; [|exact S6].
  intros t' He Hstep.
  pose proof (Signals_exec cfg t t' (Signals_reachable cfg records sched t H) Hstep)
    as [_ _ _ _ _ R6].
  destruct t as [m w e]. op_st. subst e.
  cbn [op_step Call_step memory worker_at call_at] in Hstep.
  destruct (Stop_resume cfg m) as [m'| | |] eqn:E; cbn [bind] in Hstep;
    try discriminate.
  injection Hstep as <-. op_st. specialize (R6 eq_refl). subst w.
  repeat split.
Qed.

Lemma Stop_fallback_runs_alone_witness :
  let t := op_after release_build_delay schedule_acknowledged (op_init all_pending) in
  call_at t = C_StopWait /\ worker_at t = W_Stopped /\
  stop_thread (memory t) = true /\ stop_semaphore (memory t) = 1.
Proof.
  intros t.
  assert (H : op_run release_build_delay schedule_acknowledged
                (op_init all_pending) = Done t)
    by (vm_compute; reflexivity).
  destruct (Stop_fallback_runs_alone release_build_delay all_pending
              schedule_acknowledged t H) as (H1 & _ & H3 & _).
  split; [vm_compute; reflexivity|]. split; [vm_compute; reflexivity|].
  split; [rewrite H1; vm_compute; reflexivity|].
  rewrite H3. vm_compute; reflexivity.
Defined.
